(** * Lock-step co-simulation harness of the Sail RISC-V model (riscv_sim.c)

    A shallow embedding of the boot-image builder ([init_sail_reset_vector]),
    the state comparator ([compare_states]) and the stepping loop
    ([run_sail]) of [src/riscv/riscv_sim.c], with the properties of the
    harness stated and proved over it.

    The Sail model proper (generated C: [zstep], [ztick_clock], ...) and the
    Spike interface ([tv_step], [tv_check_*], ...) are not part of the file;
    they are taken as interfaces ([SailModel], [Spike]) over which every
    definition is parametric.  The preprocessor symbol [SPIKE] is a boolean
    argument: [true] is the build with the oracle linked in. *)

From Stdlib Require Import ZArith Zbitwise Lia List Bool Ascii.
From stdpp Require Import base gmap list strings.
Import ListNotations.
Local Open Scope Z_scope.

(** ** C integer conversions *)

Definition to_uint8 (z : Z) : Z := z mod 2 ^ 8.
Definition to_uint32 (z : Z) : Z := z mod 2 ^ 32.
Definition to_uint64 (z : Z) : Z := z mod 2 ^ 64.
(** Conversion to a 32-bit [int] (two's complement, as gcc and clang do). *)
Definition to_int32 (z : Z) : Z := (z + 2 ^ 31) mod 2 ^ 32 - 2 ^ 31.
(** Conversion to [mach_int], a 64-bit signed integer. *)
Definition to_int64 (z : Z) : Z := (z + 2 ^ 63) mod 2 ^ 64 - 2 ^ 63.
(** A byte read through a [char *] (signed on the hosts the simulator runs on). *)
Definition as_char (b : Z) : Z := if b <? 128 then b else b - 256.

(** ** Selected CSRs from riscv-isa-sim/riscv/encoding.h *)

Definition CSR_STVEC : Z := 0x105.
Definition CSR_SEPC : Z := 0x141.
Definition CSR_SCAUSE : Z := 0x142.
Definition CSR_STVAL : Z := 0x143.

Definition CSR_MSTATUS : Z := 0x300.
Definition CSR_MISA : Z := 0x301.
Definition CSR_MEDELEG : Z := 0x302.
Definition CSR_MIDELEG : Z := 0x303.
Definition CSR_MIE : Z := 0x304.
Definition CSR_MTVEC : Z := 0x305.
Definition CSR_MEPC : Z := 0x341.
Definition CSR_MCAUSE : Z := 0x342.
Definition CSR_MTVAL : Z := 0x343.
Definition CSR_MIP : Z := 0x344.

(** The supervisor status register.  The source neither defines nor uses it;
    the number is the one of the RISC-V privileged specification. *)
Definition CSR_SSTATUS : Z := 0x100.

(** ** What the harness does, as a trace *)

(** A call of one of Spike's [tv_check_*] functions with its arguments. *)
Inductive check :=
| CheckPriv (prv : Z)
| CheckPc (pc : Z)
| CheckGpr (regno : Z) (val : Z)
| CheckCsr (csrno : Z) (val : Z).

(** The messages the core of the harness prints. *)
Inductive message :=
| SUCCESS                              (* "SUCCESS\n" *)
| FAILURE (code : Z)                   (* "FAILURE: %ld\n" *)
| SailDoneNotSpike (code : Z)          (* "Sail done (exit-code %ld), but not Spike!\n" *)
| SpikeDoneNotSail                     (* "Spike done, but not Sail!\n" *)
| SailException                        (* "Sail exception!" *)
| DtbMismatch                          (* "Provided DTB does not match Spike's!\n" *)
| NoRomDeviceTree.                     (* "Running without rom device tree.\n" *)

Inductive event :=
| SailStep (step_no : Z) (stepped : bool)   (* zstep(sail_step) and what it returned *)
| SpikeStep                                 (* tv_step(s) *)
| TvCheck (c : check) (ok : bool)           (* a tv_check_* call and its answer *)
| TickClock                                 (* ztick_clock(UNIT) *)
| TickPlatform                              (* ztick_platform(UNIT) *)
| TvTickClock                               (* tv_tick_clock(s) *)
| TvStepIo                                  (* tv_step_io(s) *)
| ModelFini                                 (* model_fini() *)
| TvFree                                    (* tv_free(s) *)
| FlushLogs                                 (* flush_logs() *)
| Print (m : message).

(** ** State *)

(** The globals of the Sail model that the harness reads or writes, and the
    guest memory of the Sail runtime; [hidden] is the rest of the model's
    state.  [zx i] is the register variable [zx<i>]. *)
Record sail_state (R : Type) := SailState {
  zcur_privilege : Z;
  zPC : Z;
  zx : Z -> Z;
  zmcause : Z;
  zmepc : Z;
  zmtval : Z;
  zmstatus : Z;
  zscause : Z;
  zsepc : Z;
  zstval : Z;
  zmisa : Z;
  zhtif_done : bool;
  zhtif_exit_code : Z;
  have_exception : bool;
  mem : gmap Z Z;
  hidden : R
}.
Arguments SailState {R}.
Arguments zcur_privilege {R}.
Arguments zPC {R}.
Arguments zx {R}.
Arguments zmcause {R}.
Arguments zmepc {R}.
Arguments zmtval {R}.
Arguments zmstatus {R}.
Arguments zscause {R}.
Arguments zsepc {R}.
Arguments zstval {R}.
Arguments zmisa {R}.
Arguments zhtif_done {R}.
Arguments zhtif_exit_code {R}.
Arguments have_exception {R}.
Arguments mem {R}.
Arguments hidden {R}.

(** The settings of the platform implementation (riscv_platform_impl.h)
    that the core of the harness touches. *)
Record platform := Platform {
  rv_rom_base : Z;
  rv_rom_size : Z;
  rv_insns_per_tick : Z
}.

(** The generated Sail model, as the harness calls it. *)
Class SailModel (R : Type) := {
  zstep : platform -> Z -> sail_state R -> bool * sail_state R;
  ztick_clock : platform -> sail_state R -> sail_state R;
  ztick_platform : platform -> sail_state R -> sail_state R;
  model_init : sail_state R -> sail_state R;
  zinit_platform : platform -> sail_state R -> sail_state R;
  zinit_sys : platform -> sail_state R -> sail_state R
}.

(** The Spike interface (tv_spike_intf.h), as the harness calls it. *)
Class Spike (S : Type) := {
  tv_step : S -> S;
  tv_is_done : S -> bool;
  tv_check_priv : S -> Z -> bool;
  tv_check_pc : S -> Z -> bool;
  tv_check_gpr : S -> Z -> Z -> bool;
  tv_check_csr : S -> Z -> Z -> bool;
  tv_tick_clock : S -> S;
  tv_step_io : S -> S
}.

(** The state of the whole process: the platform settings, the Sail model,
    the Spike instance [*s], the two device-tree buffers ([None] is the
    NULL pointer; [dtb_len] and [spike_dtb_len] are the lengths of the
    buffers) and the trace of what happened so far. *)
Record world (R S : Type) := World {
  plat : platform;
  sail : sail_state R;
  spike : S;
  dtb : option (list Z);
  spike_dtb : option (list Z);
  trace : list event
}.
Arguments World {R S}.
Arguments plat {R S}.
Arguments sail {R S}.
Arguments spike {R S}.
Arguments dtb {R S}.
Arguments spike_dtb {R S}.
Arguments trace {R S}.

(** How a function of the harness ends: by a call of [exit], or by
    returning to its caller. *)
Inductive outcome (W : Type) :=
| Exited (ec : Z) (w : W)
| Ret (w : W).
Arguments Exited {W}.
Arguments Ret {W}.

Section Harness.
Context {R S : Type} `{!SailModel R} `{!Spike S}.

(** [SPIKE]: the build has Spike linked in. *)
Variable SPIKE : bool.
(** Constants of riscv_platform_impl.h. *)
Variable DEFAULT_RSTVEC : Z.
Variable SAIL_XLEN : Z.

#[local] Abbreviation world := (world R S).
#[local] Abbreviation sail_state := (sail_state R).

Definition set_sail (m : sail_state) (w : world) : world :=
  World (plat w) m (spike w) (dtb w) (spike_dtb w) (trace w).
Definition set_spike (s : S) (w : world) : world :=
  World (plat w) (sail w) s (dtb w) (spike_dtb w) (trace w).
Definition set_plat (p : platform) (w : world) : world :=
  World p (sail w) (spike w) (dtb w) (spike_dtb w) (trace w).
Definition emit (evs : list event) (w : world) : world :=
  World (plat w) (sail w) (spike w) (dtb w) (spike_dtb w) (trace w ++ evs).

Definition set_mem (m : gmap Z Z) (st : sail_state) : sail_state :=
  SailState (zcur_privilege st) (zPC st) (zx st) (zmcause st) (zmepc st)
    (zmtval st) (zmstatus st) (zscause st) (zsepc st) (zstval st) (zmisa st)
    (zhtif_done st) (zhtif_exit_code st) (have_exception st) m (hidden st).
Definition set_zPC (pc : Z) (st : sail_state) : sail_state :=
  SailState (zcur_privilege st) pc (zx st) (zmcause st) (zmepc st)
    (zmtval st) (zmstatus st) (zscause st) (zsepc st) (zstval st) (zmisa st)
    (zhtif_done st) (zhtif_exit_code st) (have_exception st) (mem st) (hidden st).

Definition dtb_len (w : world) : Z :=
  match dtb w with Some l => Z.of_nat (length l) | None => 0 end.
Definition spike_dtb_len (w : world) : Z :=
  match spike_dtb w with Some l => Z.of_nat (length l) | None => 0 end.

(** *** flush_logs, finish *)

Definition flush_logs (w : world) : world := emit [FlushLogs] w.

(** [finish(ec)] releases the engines and calls [exit(ec)]. *)
Definition finish (ec : Z) (w : world) : Z * world :=
  let w := emit [ModelFini] w in
  let w := if SPIKE then emit [TvFree] w else w in
  (ec, w).

(** *** compare_states *)

Definition tv_check (s : S) (c : check) : bool :=
  match c with
  | CheckPriv prv => tv_check_priv s prv
  | CheckPc pc => tv_check_pc s pc
  | CheckGpr regno val => tv_check_gpr s regno val
  | CheckCsr csrno val => tv_check_csr s csrno val
  end.

(** [passed &= tv_check_...(s, ...);] *)
Definition and_check (s : S) (acc : Z * list event) (c : check) : Z * list event :=
  let ok := tv_check s c in
  (Z.land (fst acc) (Z.b2z ok), snd acc ++ [TvCheck c ok]).

(** The [tv_check_*] calls of [compare_states], one per statement, in the
    order of the source. *)
Definition compare_checks (st : sail_state) : list check :=
  (* fix default C enum map for cur_privilege *)
  let priv := to_uint8 (if zcur_privilege st =? 2 then 3 else zcur_privilege st) in
  [ CheckPriv priv;
    CheckPc (zPC st);
    CheckGpr 1 (zx st 1);
    CheckGpr 2 (zx st 2);
    CheckGpr 3 (zx st 3);
    CheckGpr 4 (zx st 4);
    CheckGpr 5 (zx st 5);
    CheckGpr 6 (zx st 6);
    CheckGpr 7 (zx st 7);
    CheckGpr 8 (zx st 8);
    CheckGpr 9 (zx st 9);
    CheckGpr 10 (zx st 10);
    CheckGpr 11 (zx st 11);
    CheckGpr 12 (zx st 12);
    CheckGpr 13 (zx st 13);
    CheckGpr 14 (zx st 14);
    CheckGpr 15 (zx st 15);
    CheckGpr 15 (zx st 15);
    CheckGpr 16 (zx st 16);
    CheckGpr 17 (zx st 17);
    CheckGpr 18 (zx st 18);
    CheckGpr 19 (zx st 19);
    CheckGpr 20 (zx st 20);
    CheckGpr 21 (zx st 21);
    CheckGpr 22 (zx st 22);
    CheckGpr 23 (zx st 23);
    CheckGpr 24 (zx st 24);
    CheckGpr 25 (zx st 25);
    CheckGpr 25 (zx st 25);
    CheckGpr 26 (zx st 26);
    CheckGpr 27 (zx st 27);
    CheckGpr 28 (zx st 28);
    CheckGpr 29 (zx st 29);
    CheckGpr 30 (zx st 30);
    CheckGpr 31 (zx st 31);
    (* some selected CSRs for now *)
    CheckCsr CSR_MCAUSE (zmcause st);
    CheckCsr CSR_MEPC (zmepc st);
    CheckCsr CSR_MTVAL (zmtval st);
    CheckCsr CSR_MSTATUS (zmstatus st);
    CheckCsr CSR_SCAUSE (zscause st);
    CheckCsr CSR_SEPC (zsepc st);
    CheckCsr CSR_STVAL (zstval st) ].

(** [compare_states(s)]: the value returned and the calls made. *)
Definition compare_states (s : S) (st : sail_state) : Z * list event :=
  let passed := 1 in
  if SPIKE then fold_left (and_check s) (compare_checks st) (passed, [])
  else (passed, []).

(** [init_check(s)] *)
Definition init_check (s : S) (st : sail_state) : Z * list event :=
  let passed := 1 in
  if SPIKE then and_check s (passed, []) (CheckCsr CSR_MISA (zmisa st))
  else (passed, []).


(** *** init_sail_reset_vector *)

(** Modelled from the spec: [write_mem] of the Sail runtime (rts.c) is not
    among the sources; the boot image is "a byte region written into guest
    memory", one byte per call, so [write_mem(addr, v)] stores the low
    eight bits of [v] at [addr]. *)
Definition write_mem (addr v : Z) (st : sail_state) : sail_state :=
  set_mem (<[addr := to_uint8 v]> (mem st)) st.

(** [write_mem(addr++, v)], on the write cursor [addr] and the process. *)
Definition put (c : Z * world) (v : Z) : Z * world :=
  (to_uint64 (fst c + 1), set_sail (write_mem (fst c) v (sail (snd c))) (snd c)).

Definition RST_VEC_SIZE : Z := 8.

Definition reset_vec (entry : Z) : list Z :=
  [ 0x297;                                                 (* auipc  t0,0x0 *)
    0x28593 + Z.shiftl (RST_VEC_SIZE * 4) 20;              (* addi   a1, t0, &dtb *)
    0xf1402573;                                            (* csrr   a0, mhartid *)
    if SAIL_XLEN =? 32 then 0x0182a283                     (* lw     t0,24(t0) *)
    else 0x0182b283;                                       (* ld     t0,24(t0) *)
    0x28067;                                               (* jr     t0 *)
    0;
    to_uint32 (Z.land entry 0xffffffff);
    to_uint32 (Z.shiftr entry 32) ].

(** The four bytes of a 32-bit word in memory order (little-endian host). *)
Definition le_bytes32 (w : Z) : list Z :=
  [ Z.land w 0xff; Z.land (Z.shiftr w 8) 0xff;
    Z.land (Z.shiftr w 16) 0xff; Z.land (Z.shiftr w 24) 0xff ].

(** [(char * )reset_vec]: the [sizeof(reset_vec)] bytes of the array. *)
Definition reset_vec_bytes (entry : Z) : list Z :=
  flat_map le_bytes32 (reset_vec entry).

(** [dtb && dtb_len] *)
Definition dtb_given (w : world) : bool :=
  match dtb w with
  | Some _ => negb (dtb_len w =? 0)
  | None => false
  end.

Definition buffer (b : option (list Z)) : list Z :=
  match b with Some l => l | None => [] end.

(** The loop [matched = matched && (dtb[i] == spike_dtb[i])] over
    [i < dtb_len]. *)
Definition dtb_bytes_match (a b : list Z) (matched : bool) : bool :=
  fold_left (fun matched i => matched && (nth i a 0 =? nth i b 0))
    (seq 0 (length a)) matched.

(** The first half of [init_sail_reset_vector], down to the end of the
    [#ifdef SPIKE] block: the reset vector and the device tree are written
    from [rv_rom_base] on.  The result is the write cursor [addr] with the
    process, or the [exit(1)] of the DTB check. *)
Definition place_rom_image (entry : Z) (w : world) : outcome (Z * world) :=
  let w := set_plat (Platform DEFAULT_RSTVEC (rv_rom_size (plat w))
                       (rv_insns_per_tick (plat w))) w in
  let addr := rv_rom_base (plat w) in
  let c := fold_left put
             (map (fun b => to_uint64 (as_char b)) (reset_vec_bytes entry))
             (addr, w) in
  let c := if dtb_given w then fold_left put (buffer (dtb w)) c else c in
  if SPIKE then
    if dtb_given w then
      (* Ensure that Spike's DTB matches the one provided. *)
      let matched := dtb_len w =? spike_dtb_len w in
      let matched :=
        if matched
        then dtb_bytes_match (buffer (dtb w)) (buffer (spike_dtb w)) matched
        else matched in
      if negb matched then Exited 1 (fst c, emit [Print DtbMismatch] (snd c))
      else Ret c
    else
      if 0 <? spike_dtb_len w then
        (* Use the DTB from Spike. *)
        Ret (fold_left put (buffer (spike_dtb w)) c)
      else Ret (fst c, emit [Print NoRomDeviceTree] (snd c))
  else Ret c.

(** The second half: zero-fill to the page boundary, ROM size, boot PC. *)
Definition pad_rom (c : Z * world) : world :=
  (* zero-fill to page boundary *)
  let align := 0x1000 in
  let addr := fst c in
  let rom_end := to_uint64 (to_uint64 (addr + align - 1) / align * align) in
  (* [for (int i = addr; i < rom_end; i++)]: [i] is compared as a
     uint64_t; the loop runs [rom_end - i] times when it runs at all
     (with [rom_end] beyond INT_MAX the increment of [i] would
     overflow, which C leaves undefined) *)
  let i := to_int32 addr in
  let n := if to_uint64 i <? rom_end then rom_end - to_uint64 i else 0 in
  let c := fold_left put (repeat 0 (Z.to_nat n)) c in
  let w := snd c in
  (* set rom size *)
  let w := set_plat (Platform (rv_rom_base (plat w))
                       (to_uint64 (rom_end - rv_rom_base (plat w)))
                       (rv_insns_per_tick (plat w))) w in
  (* boot at reset vector *)
  set_sail (set_zPC (rv_rom_base (plat w)) (sail w)) w.

Definition init_sail_reset_vector (entry : Z) (w : world) : outcome world :=
  match place_rom_image entry w with
  | Exited ec c => Exited ec (snd c)
  | Ret c => Ret (pad_rom c)
  end.

Definition init_sail (elf_entry : Z) (w : world) : outcome world :=
  let st := model_init (sail w) in
  let st := zinit_platform (plat w) st in
  let st := zinit_sys (plat w) st in
  init_sail_reset_vector elf_entry (set_sail st w).

(** *** run_sail *)

(** [tick_spike()] *)
Definition tick_spike (w : world) : world :=
  if SPIKE then
    let w := emit [TvTickClock] (set_spike (tv_tick_clock (spike w)) w) in
    emit [TvStepIo] (set_spike (tv_step_io (spike w)) w)
  else w.

(** How the [while] loop of [run_sail] is left. *)
Inductive loop_exit :=
| LoopEnd                (* the condition [!zhtif_done] became false *)
| Break                  (* [diverged = true; break;] *)
| StepException          (* [goto step_exception;] *)
| ExitCall (ec : Z).     (* [exit(ec);] inside the loop *)

Inductive loop_result :=
| Running (step_no insn_cnt : Z) (w : world)
| Stopped (how : loop_exit) (w : world).

(** The part of the loop body under [#ifdef SPIKE]. *)
Definition spike_part (w : world) : loop_exit * world + world :=
  (* run a Spike step *)
  let w := emit [SpikeStep] (set_spike (tv_step (spike w)) w) in
  let spike_done := tv_is_done (spike w) in
  let w := flush_logs w in
  let mismatch :=
    if zhtif_done (sail w) then
      if negb spike_done
      then Some (SailDoneNotSpike (zhtif_exit_code (sail w)))
      else None
    else
      if spike_done then Some SpikeDoneNotSail else None in
  match mismatch with
  | Some msg => inl (ExitCall 1, emit [Print msg] w)
  | None =>
      let r := compare_states (spike w) (sail w) in
      let w := emit (snd r) w in
      if fst r =? 0 then inl (Break, w) else inr w
  end.

(** The rest of the loop body, from [if (zhtif_done)] on. *)
Definition loop_tail (step_no insn_cnt : Z) (w : world) : loop_result :=
  let w :=
    if zhtif_done (sail w) then
      (* check exit code *)
      if zhtif_exit_code (sail w) =? 0 then emit [Print SUCCESS] w
      else emit [Print (FAILURE (zhtif_exit_code (sail w)))] w
    else w in
  if to_uint64 insn_cnt =? rv_insns_per_tick (plat w) then
    let insn_cnt := 0 in
    let w := emit [TickClock] (set_sail (ztick_clock (plat w) (sail w)) w) in
    let w := emit [TickPlatform] (set_sail (ztick_platform (plat w) (sail w)) w) in
    Running step_no insn_cnt (tick_spike w)
  else Running step_no insn_cnt w.

(** One evaluation of the loop condition and, when it holds, of the body. *)
Definition loop_iter (step_no insn_cnt : Z) (w : world) : loop_result :=
  if zhtif_done (sail w) then Stopped LoopEnd w else
  (* run a Sail step *)
  let r := zstep (plat w) step_no (sail w) in
  let stepped := fst r in
  let w := emit [SailStep step_no stepped] (set_sail (snd r) w) in
  if have_exception (sail w) then Stopped StepException w else
  let w := flush_logs w in
  let step_no := if stepped then to_int64 (step_no + 1) else step_no in
  let insn_cnt := if stepped then to_int32 (insn_cnt + 1) else insn_cnt in
  if SPIKE then
    match spike_part w with
    | inl (how, w) => Stopped how w
    | inr w => loop_tail step_no insn_cnt w
    end
  else loop_tail step_no insn_cnt w.

(** The loop, run for at most [fuel] iterations: [Running] is a loop that
    has not been left yet. *)
Fixpoint run_loop (fuel : nat) (step_no insn_cnt : Z) (w : world) : loop_result :=
  match fuel with
  | O => Running step_no insn_cnt w
  | Datatypes.S fuel =>
      match loop_iter step_no insn_cnt w with
      | Running step_no insn_cnt w => run_loop fuel step_no insn_cnt w
      | Stopped how w => Stopped how w
      end
  end.

(** [run_sail()]: the exit status of the process and its final state, or
    [None] when the loop is still running after [fuel] iterations.  The
    function never returns to [main]: every way out ends in [exit]. *)
Definition run_sail (fuel : nat) (w : world) : option (Z * world) :=
  let diverged := false in
  (* initialize the step number *)
  let step_no := 0 in
  let insn_cnt := 0 in
  match run_loop fuel step_no insn_cnt w with
  | Running _ _ _ => None
  | Stopped (ExitCall ec) w => Some (ec, w)
  | Stopped LoopEnd w => Some (finish (Z.b2z diverged) w)
  | Stopped Break w => let diverged := true in Some (finish (Z.b2z diverged) w)
  | Stopped StepException w =>
      Some (finish (Z.b2z diverged) (emit [Print SailException] w))
  end.

(** [main], from the call of [init_sail] on. *)
Definition main_from_init_sail (entry : Z) (fuel : nat) (w : world)
  : option (Z * world) :=
  match init_sail entry w with
  | Exited ec w => Some (ec, w)
  | Ret w =>
      let r := init_check (spike w) (sail w) in
      let w := emit (snd r) w in
      if fst r =? 0 then Some (finish 1 w) else run_sail fuel w
  end.

End Harness.

Arguments compare_states : simpl never.
Arguments to_uint64 : simpl never.
Arguments to_uint32 : simpl never.
Arguments to_uint8 : simpl never.
Arguments to_int32 : simpl never.
Arguments to_int64 : simpl never.

(** ** Before the run: options, device-tree file, Spike set-up *)

(** An entry of the table [options]: name, whether the option takes an
    argument, and the character [getopt_long] returns for it. *)
Record option_entry := OptionEntry {
  opt_name : string;
  opt_has_arg : bool;
  opt_val : Z
}.

(** A character constant, as the [int] it is in C. *)
Definition chr (c : ascii) : Z := Z.of_nat (nat_of_ascii c).

Definition options : list option_entry :=
  [ OptionEntry "enable-dirty" false (chr "d");
    OptionEntry "enable-misaligned" false (chr "m");
    OptionEntry "ram-size" true (chr "z");
    OptionEntry "mtval-has-illegal-inst-bits" false (chr "i");
    OptionEntry "dump-dts" false (chr "s");
    OptionEntry "device-tree-blob" true (chr "b");
    OptionEntry "terminal-log" true (chr "t");
    OptionEntry "help" false (chr "h") ].

(** What the code before the run prints. *)
Inductive startup_message :=
| UsageLine (argv0 : option string)        (* "Usage: %s [options] <elf_file>\n" *)
| UsageOption (val : Z) (name : string)    (* "\t -%c\t %s\n" *)
| EnablingDirtyUpdate                      (* "enabling dirty update.\n" *)
| EnablingMisaligned                       (* "enabling misaligned access.\n" *)
| SettingRamSize (mb : Z)                  (* "setting ram-size to %ld MB\n" *)
| UnrecognizedOptchar (c : Z)              (* "Unrecognized optchar %c\n" *)
| SpikeNeededForDts      (* "Spike linkage is currently needed to generate DTS.\n" *)
| DtsText (dts : list Z)                   (* "%s\n" *)
| UnableToReadDtb (path : string)          (* "Unable to read DTB file %s: %s\n" *)
| UnableToStatDtb (path : string)          (* "Unable to stat DTB file %s: %s\n" *)
| UnableToMapDtb (path : string)           (* "Unable to map DTB file %s: %s\n" *)
| CannotAllocateDtb (path : string)        (* "Cannot allocate DTB from file %s!\n" *)
| ReadDtbBytes (n : Z) (path : string)     (* "Read %ld bytes of DTB from %s.\n" *)
| RunningFile (path : option string)       (* "Running file %s.\n" *)
| InconsistentDirty (spike sail : bool)
    (* "inconsistent enable-dirty-update setting: spike %s, sail %s\n" *)
| InconsistentMisaligned (spike sail : bool)
    (* "inconsistent enable-misaligned-access setting: spike %s, sail %s\n" *)
| InconsistentRamSize (spike sail : Z)
    (* "inconsistent ram-size setting: spike %lx, sail %lx\n" *)
| GotDtb (n : Z)                           (* "Got %ld bytes of dtb at %p\n" *)
| ErrorGettingDtb                          (* "Error getting DTB from Spike.\n" *)
| NoDtbFromSpike.                          (* "No DTB available from Spike.\n" *)

(** The globals that only the code before the run touches, and what that
    code has printed ([console]). *)
Record settings := Settings {
  rv_enable_dirty_update : bool;
  rv_enable_misaligned : bool;
  rv_mtval_has_illegal_inst_bits : bool;
  rv_ram_size : Z;
  do_dump_dts : bool;
  term_log : option string;
  dtb_file : option string;
  console : list startup_message
}.

(** One return of [getopt_long]: the value returned, [optarg], and the
    index it stored through its last argument ([&idx]), which it does only
    for a long option. *)
Record getopt_ret := GetoptRet {
  g_c : Z;
  g_optarg : string;
  g_longindex : option Z
}.

(** How a function of the start-up code ends: by [exit], or by returning
    a value. *)
Inductive result (A St : Type) :=
| Exits (ec : Z) (st : St)
| Returns (a : A) (st : St).
Arguments Exits {A St}.
Arguments Returns {A St}.

(** The part of the Spike interface that the start-up code calls. *)
Class SpikeInit (S : Type) := {
  tv_init : string -> Z -> Z -> S;
  tv_get_dts : S -> list Z;
  tv_is_dirty_enabled : S -> bool;
  tv_is_misaligned_enabled : S -> bool;
  tv_ram_size : S -> Z;
  tv_set_verbose : S -> Z -> S;
  tv_set_dtb_in_rom : S -> Z -> S;
  tv_load_elf : S -> string -> S;
  tv_reset : S -> S;
  tv_get_insns_per_tick : S -> Z;
  (* tv_get_dtb(s, NULL, &len) *)
  tv_get_dtb_len : S -> Z;
  (* tv_get_dtb(s, buf, &len): the value returned and the bytes stored *)
  tv_get_dtb : S -> Z * list Z
}.

(** The system calls of [read_dtb]: [open] gives a descriptor, [fstat] the
    size of the file, [mmap] the bytes of the mapping; [os_malloc] tells
    whether [malloc] succeeds. *)
Class Os := {
  os_open : string -> option Z;
  os_fstat : Z -> option Z;
  os_mmap : Z -> Z -> option (list Z);
  os_malloc : Z -> bool
}.

Section Startup.
Context {R S : Type} `{!SpikeInit S} `{!Os}.

(** [SPIKE]: the build has Spike linked in. *)
Variable SPIKE : bool.
(** [atol] of the C library. *)
Variable atol : string -> Z.

#[local] Abbreviation world := (world R S).

Definition say (m : startup_message) (st : settings) : settings :=
  Settings (rv_enable_dirty_update st) (rv_enable_misaligned st)
    (rv_mtval_has_illegal_inst_bits st) (rv_ram_size st) (do_dump_dts st)
    (term_log st) (dtb_file st) (console st ++ [m]).
Definition set_enable_dirty_update (b : bool) (st : settings) : settings :=
  Settings b (rv_enable_misaligned st)
    (rv_mtval_has_illegal_inst_bits st) (rv_ram_size st) (do_dump_dts st)
    (term_log st) (dtb_file st) (console st).
Definition set_enable_misaligned (b : bool) (st : settings) : settings :=
  Settings (rv_enable_dirty_update st) b
    (rv_mtval_has_illegal_inst_bits st) (rv_ram_size st) (do_dump_dts st)
    (term_log st) (dtb_file st) (console st).
Definition set_mtval_has_illegal_inst_bits (b : bool) (st : settings) : settings :=
  Settings (rv_enable_dirty_update st) (rv_enable_misaligned st)
    b (rv_ram_size st) (do_dump_dts st)
    (term_log st) (dtb_file st) (console st).
Definition set_ram_size (z : Z) (st : settings) : settings :=
  Settings (rv_enable_dirty_update st) (rv_enable_misaligned st)
    (rv_mtval_has_illegal_inst_bits st) z (do_dump_dts st)
    (term_log st) (dtb_file st) (console st).
Definition set_do_dump_dts (b : bool) (st : settings) : settings :=
  Settings (rv_enable_dirty_update st) (rv_enable_misaligned st)
    (rv_mtval_has_illegal_inst_bits st) (rv_ram_size st) b
    (term_log st) (dtb_file st) (console st).
Definition set_term_log (f : option string) (st : settings) : settings :=
  Settings (rv_enable_dirty_update st) (rv_enable_misaligned st)
    (rv_mtval_has_illegal_inst_bits st) (rv_ram_size st) (do_dump_dts st)
    f (dtb_file st) (console st).
Definition set_dtb_file (f : option string) (st : settings) : settings :=
  Settings (rv_enable_dirty_update st) (rv_enable_misaligned st)
    (rv_mtval_has_illegal_inst_bits st) (rv_ram_size st) (do_dump_dts st)
    (term_log st) f (console st).

Definition set_dtb (b : option (list Z)) (w : world) : world :=
  World (plat w) (sail w) (spike w) b (spike_dtb w) (trace w).
Definition set_spike_dtb (b : option (list Z)) (w : world) : world :=
  World (plat w) (sail w) (spike w) (dtb w) b (trace w).

(** *** print_usage, dump_dts *)

(** [print_usage(argv0, ec)]: one line per entry of [options], then
    [exit(ec)]. *)
Definition print_usage (argv0 : option string) (ec : Z) (st : settings)
  : Z * settings :=
  let st := say (UsageLine argv0) st in
  let st := fold_left
              (fun st opt => say (UsageOption (to_uint8 (opt_val opt)) (opt_name opt)) st)
              options st in
  (ec, st).

(** [dump_dts()]; it ends in [exit(0)].  ([malloc] is taken to succeed:
    the source does not look at its result.) *)
Definition dump_dts (st : settings) : Z * settings :=
  let st :=
    if SPIKE then
      let s := tv_init "RV64IMAC" (rv_ram_size st) 0 in
      let dts := tv_get_dts s in
      if 0 <? Z.of_nat (length dts) then say (DtsText dts) st else st
    else say SpikeNeededForDts st in
  (0, st).

(** *** read_dtb *)

Definition read_dtb (path : string) (c : settings * world)
  : result unit (settings * world) :=
  let st := fst c in
  let w := snd c in
  match os_open path with
  | None => Exits 1 (say (UnableToReadDtb path) st, w)
  | Some fd =>
      match os_fstat fd with
      | None => Exits 1 (say (UnableToStatDtb path) st, w)
      | Some st_size =>
          match os_mmap st_size fd with
          | None => Exits 1 (say (UnableToMapDtb path) st, w)
          | Some m =>
              if negb (os_malloc st_size)
              then Exits 1 (say (CannotAllocateDtb path) st, w)
              else
                (* memcpy(dtb, m, st.st_size); dtb_len = st.st_size; *)
                let w := set_dtb (Some (firstn (Z.to_nat st_size) m)) w in
                Returns tt (say (ReadDtbBytes (dtb_len w) path) st, w)
          end
      end
  end.

(** *** process_args *)

(** The body of the [switch (c)]. *)
Definition option_case (argv0 : option string) (c : Z) (optarg : string)
    (st : settings) : result unit settings :=
  if c =? chr "d" then
    Returns tt (set_enable_dirty_update true (say EnablingDirtyUpdate st))
  else if c =? chr "m" then
    Returns tt (set_enable_misaligned true (say EnablingMisaligned st))
  else if c =? chr "i" then
    (* no [break]: control falls through to [case 's'] *)
    let st := set_mtval_has_illegal_inst_bits true st in
    Returns tt (set_do_dump_dts true st)
  else if c =? chr "s" then
    Returns tt (set_do_dump_dts true st)
  else if c =? chr "z" then
    let ram_size := to_uint64 (atol optarg) in
    if negb (ram_size =? 0) then
      let st := say (SettingRamSize ram_size) st in
      Returns tt (set_ram_size (to_uint64 (Z.shiftl ram_size 20)) st)
    else Returns tt st
  else if c =? chr "b" then
    Returns tt (set_dtb_file (Some optarg) st)
  else if c =? chr "t" then
    Returns tt (set_term_log (Some optarg) st)
  else if c =? chr "h" then
    let r := print_usage argv0 0 st in Exits (fst r) (snd r)
  else
    let st := say (UnrecognizedOptchar c) st in
    let r := print_usage argv0 1 st in Exits (fst r) (snd r).

(** The [while (true)] loop over the returns [gs] of [getopt_long], which
    end with the return of -1 (at the end of [gs] at the latest); [idx] is
    the local that [getopt_long] stores the index of a long option in. *)
Fixpoint getopt_loop (argv0 : option string) (gs : list getopt_ret) (idx : Z)
    (st : settings) : result Z settings :=
  match gs with
  | [] => Returns idx st
  | g :: gs =>
      let idx := match g_longindex g with Some i => i | None => idx end in
      if g_c g =? -1 then Returns idx st
      else
        match option_case argv0 (g_c g) (g_optarg g) st with
        | Exits ec st => Exits ec st
        | Returns _ st => getopt_loop argv0 gs idx st
        end
  end.

(** [process_args(argc, argv)], given what the calls of [getopt_long]
    return and the value of [optind] after them; [argv !! i] is [None]
    for the NULL that ends [argv].  The value returned is [argv[optind]]. *)
Definition process_args (argv : list string) (gs : list getopt_ret) (optind : Z)
    (c : settings * world) : result (option string) (settings * world) :=
  let argc := Z.of_nat (length argv) in
  let argv0 := argv !! 0%nat in
  let w := snd c in
  let idx := 1 in
  match getopt_loop argv0 gs idx (fst c) with
  | Exits ec st => Exits ec (st, w)
  | Returns idx st =>
      if do_dump_dts st then
        let r := dump_dts st in Exits (fst r) (snd r, w)
      else if argc <=? idx then
        let r := print_usage argv0 0 st in Exits (fst r) (snd r, w)
      else
        let st := match term_log st with
                  | None => set_term_log (Some "term.log") st
                  | Some _ => st
                  end in
        let r := match dtb_file st with
                 | Some f => read_dtb f (st, w)
                 | None => Returns tt (st, w)
                 end in
        match r with
        | Exits ec c => Exits ec c
        | Returns _ c =>
            let file := argv !! Z.to_nat optind in
            Returns file (say (RunningFile file) (fst c), snd c)
        end
  end.

(** *** init_spike *)

Definition init_spike (f : string) (entry ram_size : Z) (c : settings * world)
  : result unit (settings * world) :=
  let st := fst c in
  let w := snd c in
  if SPIKE then
    let mismatch := false in
    let s := tv_init "RV64IMAC" ram_size 1 in
    let w := World (plat w) (sail w) s (dtb w) (spike_dtb w) (trace w) in
    let r :=
      if negb (Bool.eqb (tv_is_dirty_enabled s) (rv_enable_dirty_update st))
      then (true, say (InconsistentDirty (tv_is_dirty_enabled s)
                         (rv_enable_dirty_update st)) st)
      else (mismatch, st) in
    let r :=
      if negb (Bool.eqb (tv_is_misaligned_enabled s) (rv_enable_misaligned (snd r)))
      then (true, say (InconsistentMisaligned (tv_is_misaligned_enabled s)
                         (rv_enable_misaligned (snd r))) (snd r))
      else r in
    let r :=
      if negb (tv_ram_size s =? rv_ram_size (snd r))
      then (true, say (InconsistentRamSize (tv_ram_size s)
                         (rv_ram_size (snd r))) (snd r))
      else r in
    let mismatch := fst r in
    let st := snd r in
    if mismatch then Exits 1 (st, w)
    else
      (* The initialization order below matters. *)
      let s := tv_set_verbose s 1 in
      let s := tv_set_dtb_in_rom s 1 in
      let s := tv_load_elf s f in
      let s := tv_reset s in
      (* sync the insns per tick *)
      let w := World (Platform (rv_rom_base (plat w)) (rv_rom_size (plat w))
                        (tv_get_insns_per_tick s))
                 (sail w) s (dtb w) (spike_dtb w) (trace w) in
      (* get DTB from spike *)
      let spike_dtb_len := tv_get_dtb_len s in
      if 0 <? spike_dtb_len then
        let r := tv_get_dtb s in
        if fst r =? 0
        then Returns tt (say (GotDtb (Z.of_nat (length (snd r)))) st,
                         set_spike_dtb (Some (snd r)) w)
        else Exits 1 (say ErrorGettingDtb st, set_spike_dtb (Some (snd r)) w)
      else Returns tt (say NoDtbFromSpike st, w)
  else
    (* s = NULL *)
    Returns tt (st, w).

End Startup.


(** ** What the oracle holds *)

(** The architectural state on Spike's side that [compare_states] asks
    about: privilege level, program counter, registers and CSRs. *)
Record snapshot := Snapshot {
  s_priv : Z;
  s_pc : Z;
  s_gpr : Z -> Z;
  s_csr : Z -> Z
}.

(** Spike is outside the repository.  [oracle_holds s o] says that the
    instance [s] is in the architectural state [o]: each [tv_check_*] call
    answers whether the value it is handed is the oracle's own. *)
Definition oracle_holds {S : Type} `{!Spike S} (s : S) (o : snapshot) : Prop :=
  (forall v, tv_check_priv s v = (v =? s_priv o))
  /\ (forall v, tv_check_pc s v = (v =? s_pc o))
  /\ (forall i v, tv_check_gpr s i v = (v =? s_gpr o i))
  /\ (forall c v, tv_check_csr s c v = (v =? s_csr o c)).

(** ** Two small engines to run the harness on *)

(** A Sail model that plays a script: each step consumes one entry. *)
Inductive toy_insn :=
| Retire                 (* an instruction retires *)
| Stall                  (* the step makes no progress *)
| Halt (code : Z)        (* the program signals completion through HTIF *)
| Fault.                 (* the model raises an exception *)

Definition toy_state (priv : Z) (done : bool) (code : Z) (exn : bool)
    (prog : list toy_insn) : sail_state (list toy_insn) :=
  SailState priv 0 (fun _ => 0) 0 0 0 0 0 0 0 0 done code exn ∅ prog.

Definition toy_next (i : toy_insn) (rest : list toy_insn)
    (st : sail_state (list toy_insn)) : sail_state (list toy_insn) :=
  let done := match i with Halt _ => true | _ => zhtif_done st end in
  let code := match i with Halt code => code | _ => zhtif_exit_code st end in
  let exn := match i with Fault => true | _ => have_exception st end in
  SailState (zcur_privilege st) (zPC st) (zx st) (zmcause st) (zmepc st)
    (zmtval st) (zmstatus st) (zscause st) (zsepc st) (zstval st) (zmisa st)
    done code exn (mem st) rest.

Definition toy_zstep (p : platform) (step_no : Z)
    (st : sail_state (list toy_insn)) : bool * sail_state (list toy_insn) :=
  match hidden st with
  | [] => (false, st)
  | i :: rest =>
      (match i with Retire | Halt _ => true | Stall | Fault => false end,
       toy_next i rest st)
  end.

#[global] Instance toy_sail : SailModel (list toy_insn) := {|
  zstep := toy_zstep;
  ztick_clock := fun _ st => st;
  ztick_platform := fun _ st => st;
  model_init := fun st => st;
  zinit_platform := fun _ st => st;
  zinit_sys := fun _ st => st
|}.

(** An oracle that holds a fixed snapshot and reports completion as a
    script tells it to, one entry per step. *)
Record toy_spike := ToySpike {
  o_regs : snapshot;
  o_done : bool;
  o_script : list bool
}.

#[global] Instance toy_oracle : Spike toy_spike := {|
  tv_step := fun s =>
    match o_script s with
    | [] => s
    | d :: rest => ToySpike (o_regs s) d rest
    end;
  tv_is_done := o_done;
  tv_check_priv := fun s v => v =? s_priv (o_regs s);
  tv_check_pc := fun s v => v =? s_pc (o_regs s);
  tv_check_gpr := fun s i v => v =? s_gpr (o_regs s) i;
  tv_check_csr := fun s c v => v =? s_csr (o_regs s) c;
  tv_tick_clock := fun s => s;
  tv_step_io := fun s => s
|}.

Definition zero_snapshot (priv : Z) : snapshot :=
  Snapshot priv 0 (fun _ => 0) (fun _ => 0).

(** A process about to boot: the Sail side in privilege [priv] with the
    script [prog], the oracle in privilege [opriv] with the script
    [oscript], the two device-tree buffers and the tick period. *)
Definition toy_world (priv opriv : Z) (prog : list toy_insn)
    (oscript : list bool) (dtb spike_dtb : option (list Z)) (ipt : Z)
  : world (list toy_insn) toy_spike :=
  World (Platform 0 0 ipt) (toy_state priv false 0 false prog)
    (ToySpike (zero_snapshot opriv) false oscript) dtb spike_dtb [].

(** ** Reading a trace *)

Fixpoint count (p : event -> bool) (t : list event) : Z :=
  match t with
  | [] => 0
  | e :: t => (if p e then 1 else 0) + count p t
  end.

(** A Sail step that executed an instruction. *)
Definition is_retired (e : event) : bool :=
  match e with SailStep _ true => true | _ => false end.
Definition is_tick_clock (e : event) : bool :=
  match e with TickClock => true | _ => false end.
Definition is_tick_platform (e : event) : bool :=
  match e with TickPlatform => true | _ => false end.
Definition is_tv_tick_clock (e : event) : bool :=
  match e with TvTickClock => true | _ => false end.
Definition is_tv_step_io (e : event) : bool :=
  match e with TvStepIo => true | _ => false end.
(** A step of either engine. *)
Definition is_step (e : event) : bool :=
  match e with SailStep _ _ | SpikeStep => true | _ => false end.

(** What one tick adds to the trace: the engine's two calls and, with the
    oracle linked in, the two calls of [tick_spike]. *)
Definition tick_events (SPIKE : bool) : list event :=
  [TickClock; TickPlatform] ++ (if SPIKE then [TvTickClock; TvStepIo] else []).


(** A predicate on events that tells neither a flush, a step of the
    oracle, a check nor a message: it can only tell Sail steps and ticks. *)
Definition quiet (p : event -> bool) : Prop :=
  p FlushLogs = false /\ p SpikeStep = false
  /\ (forall c ok, p (TvCheck c ok) = false)
  /\ (forall m, p (Print m) = false).


(** How many more events of a kind the trace of [w] holds than that of
    [w0]. *)
Definition delta {R S : Type} (p : event -> bool) (w0 w : world R S) : Z :=
  count p (trace w) - count p (trace w0).

(** The tick accounting of a run from [w0] to [w] with tick period [ipt]
    and [insn_cnt] instructions retired since the last tick: every tick
    stands for [ipt] retired instructions, and a tick is one call each of
    [ztick_clock], [ztick_platform] and, with the oracle linked in ([b]),
    of [tv_tick_clock] and [tv_step_io]. *)
Definition tick_accounting {R S : Type} (b : bool) (ipt : Z)
    (w0 w : world R S) (insn_cnt : Z) : Prop :=
  delta is_retired w0 w = ipt * delta is_tick_clock w0 w + insn_cnt
  /\ delta is_tick_platform w0 w = delta is_tick_clock w0 w
  /\ delta is_tv_tick_clock w0 w = (if b then delta is_tick_clock w0 w else 0)
  /\ delta is_tv_step_io w0 w = (if b then delta is_tick_clock w0 w else 0).


(** ** Reading guest memory *)

(** A byte of guest memory; memory never written reads as 0. *)
Definition read_byte (m : gmap Z Z) (a : Z) : Z := default 0 (m !! a).

(** The 32-bit word whose four bytes are at [a .. a+3], lowest byte first. *)
Definition read32 (m : gmap Z Z) (a : Z) : Z :=
  Z.lor (read_byte m a)
    (Z.shiftl (Z.lor (read_byte m (a + 1))
       (Z.shiftl (Z.lor (read_byte m (a + 2))
          (Z.shiftl (read_byte m (a + 3)) 8)) 8)) 8).

(** The device tree that goes into the ROM: the one the user gave, else,
    with the oracle linked in, the oracle's. *)
Definition rom_dtb {R S : Type} (SPIKE : bool) (w : world R S) : list Z :=
  if dtb_given w then buffer (dtb w)
  else if SPIKE && (0 <? spike_dtb_len w) then buffer (spike_dtb w)
  else [].

(** The values of [unsigned char]. *)
Definition is_byte (b : Z) : Prop := 0 <= b < 256.


(** Guest memory holds the bytes [bs] from address [a] on. *)
Definition mem_holds (m : gmap Z Z) (a : Z) (bs : list Z) : Prop :=
  forall i, (i < length bs)%nat -> m !! (a + Z.of_nat i) = Some (nth i bs 0).

(** The end of the ROM for a boot image that ends at [addr]: the next page
    boundary. *)
Definition page_up (addr : Z) : Z := (addr + 0xfff) / 0x1000 * 0x1000.


(** The write cursor [c] of [init_sail_reset_vector] after the bytes [bs]
    have been written from [base] on, in a process that was [w] when the
    writing began: the cursor is behind the bytes, memory holds them, and
    writing has touched nothing else of the harness. *)
Definition image_at {R S : Type} (c : Z * world R S) (w : world R S)
    (base : Z) (bs : list Z) : Prop :=
  fst c = base + Z.of_nat (length bs)
  /\ plat (snd c) = plat w
  /\ spike (snd c) = spike w
  /\ dtb (snd c) = dtb w
  /\ spike_dtb (snd c) = spike_dtb w
  /\ zPC (sail (snd c)) = zPC (sail w)
  /\ mem_holds (mem (sail (snd c))) base bs.


(** ** Concrete runs *)

(** A solo run of a program that retires one instruction and then reports
    the exit code 3. *)
Definition failing_program_world : world (list toy_insn) toy_spike :=
  toy_world 0 0 [Retire; Halt 3] [] None None 100.

(** A run whose second Sail step raises an exception. *)
Definition faulting_world : world (list toy_insn) toy_spike :=
  toy_world 0 0 [Retire; Fault] [false; false] None None 100.

(** A run with the oracle in which the Sail model finishes at the second
    step and the oracle does not. *)
Definition early_finish_world : world (list toy_insn) toy_spike :=
  toy_world 0 0 [Retire; Halt 0] [false; false] None None 100.

(** A run with a tick every two instructions: four instructions and a
    stalled step, then completion on both sides. *)
Definition ticking_world : world (list toy_insn) toy_spike :=
  toy_world 0 0 [Retire; Stall; Retire; Retire; Retire; Halt 0]
    [false; false; false; false; false; true] None None 2.

(** The Sail model in privilege level 2 (the C enum value of Machine),
    the oracle in 3. *)
Definition skewed_world : world (list toy_insn) toy_spike :=
  toy_world 2 3 [] [] None None 100.

(** A four-byte device tree from the user, none from the oracle. *)
Definition booting_world : world (list toy_insn) toy_spike :=
  toy_world 0 0 [Retire] [] (Some [0xd0; 0x0d; 0xfe; 0xed]) None 100.

(** The user's device tree and the oracle's differ in their last byte. *)
Definition dtb_clash_world : world (list toy_insn) toy_spike :=
  toy_world 0 0 [Retire] [false]
    (Some [0xd0; 0x0d; 0xfe; 0xed]) (Some [0xd0; 0x0d; 0xfe; 0xee]) 100.


(** ** More ways to read a trace *)

Definition is_sail_step (e : event) : bool :=
  match e with SailStep _ _ => true | _ => false end.
Definition is_spike_step (e : event) : bool :=
  match e with SpikeStep => true | _ => false end.
(** A call into Spike. *)
Definition is_oracle_call (e : event) : bool :=
  match e with
  | SpikeStep | TvCheck _ _ | TvTickClock | TvStepIo | TvFree => true
  | _ => false
  end.

(** The privilege level [compare_states] hands to Spike for the Sail
    model's [zcur_privilege]. *)
Definition spike_priv (zcur_privilege : Z) : Z :=
  to_uint8 (if zcur_privilege =? 2 then 3 else zcur_privilege).

(** The fields that [compare_states] looks at have the same value in the
    Sail state [st] and in the oracle's snapshot [o]. *)
Definition same_compared_state {R : Type} (st : sail_state R) (o : snapshot) : Prop :=
  s_priv o = spike_priv (zcur_privilege st)
  /\ s_pc o = zPC st
  /\ (forall i, 1 <= i <= 31 -> s_gpr o i = zx st i)
  /\ s_csr o CSR_MCAUSE = zmcause st
  /\ s_csr o CSR_MEPC = zmepc st
  /\ s_csr o CSR_MTVAL = zmtval st
  /\ s_csr o CSR_MSTATUS = zmstatus st
  /\ s_csr o CSR_SCAUSE = zscause st
  /\ s_csr o CSR_SEPC = zsepc st
  /\ s_csr o CSR_STVAL = zstval st.


(** ** Reading the reset vector *)

(** The fields of a RISC-V I-type instruction word (RISC-V unprivileged
    specification): opcode, destination, width, base register and the
    12-bit immediate, here for immediates without the sign bit. *)
Definition insn_opcode (insn : Z) : Z := Z.land insn 0x7f.
Definition insn_rd (insn : Z) : Z := Z.land (Z.shiftr insn 7) 0x1f.
Definition insn_funct3 (insn : Z) : Z := Z.land (Z.shiftr insn 12) 0x7.
Definition insn_rs1 (insn : Z) : Z := Z.land (Z.shiftr insn 15) 0x1f.
Definition insn_imm (insn : Z) : Z := Z.land (Z.shiftr insn 20) 0xfff.

(** Register numbers of the RISC-V calling convention. *)
Definition reg_t0 : Z := 5.
Definition reg_a0 : Z := 10.
Definition reg_a1 : Z := 11.

(** The Sail state [st'] is [st] but for guest memory in the addresses
    from [lo] up to [hi] and for [zPC]. *)
Definition differs_in_rom {R : Type} (st st' : sail_state R) (lo hi : Z) : Prop :=
  zcur_privilege st' = zcur_privilege st
  /\ zx st' = zx st
  /\ (zmcause st', zmepc st', zmtval st', zmstatus st')
     = (zmcause st, zmepc st, zmtval st, zmstatus st)
  /\ (zscause st', zsepc st', zstval st', zmisa st')
     = (zscause st, zsepc st, zstval st, zmisa st)
  /\ (zhtif_done st', zhtif_exit_code st', have_exception st')
     = (zhtif_done st, zhtif_exit_code st, have_exception st)
  /\ hidden st' = hidden st
  /\ (forall a, a < lo \/ hi <= a -> mem st' !! a = mem st !! a).


(** ** Reading the command line *)

(** The value of [idx] when the option loop is over: the index of the last
    long option, or 1, its initial value, when there was none. *)
Definition final_idx (gs : list getopt_ret) : Z :=
  fold_left (fun idx g => match g_longindex g with Some i => i | None => idx end)
    gs 1.

(** The option characters for which the [switch] goes on to the next
    option. *)
Definition goes_on (c : Z) : Prop :=
  In c [chr "d"; chr "m"; chr "i"; chr "s"; chr "z"; chr "b"; chr "t"].


(** ** Reading the set-up of Spike *)

(** What [init_spike] prints about the settings in which the Spike
    instance [s] and the Sail side disagree, in the order of its checks. *)
Definition disagreements {S : Type} `{!SpikeInit S} (s : S) (st : settings)
  : list startup_message :=
  (if Bool.eqb (tv_is_dirty_enabled s) (rv_enable_dirty_update st) then []
   else [InconsistentDirty (tv_is_dirty_enabled s) (rv_enable_dirty_update st)])
  ++ (if Bool.eqb (tv_is_misaligned_enabled s) (rv_enable_misaligned st) then []
      else [InconsistentMisaligned (tv_is_misaligned_enabled s)
              (rv_enable_misaligned st)])
  ++ (if tv_ram_size s =? rv_ram_size st then []
      else [InconsistentRamSize (tv_ram_size s) (rv_ram_size st)]).

(** The settings [st'] are [st] but for what has been printed. *)
Definition same_settings (st st' : settings) : Prop :=
  (rv_enable_dirty_update st', rv_enable_misaligned st',
   rv_mtval_has_illegal_inst_bits st', rv_ram_size st')
  = (rv_enable_dirty_update st, rv_enable_misaligned st,
     rv_mtval_has_illegal_inst_bits st, rv_ram_size st)
  /\ (do_dump_dts st', term_log st', dtb_file st')
     = (do_dump_dts st, term_log st, dtb_file st).

(** The Spike instance after [init_spike] has set it up for the ELF file
    [f], from the instance [s] that [tv_init] gave. *)
Definition loaded_spike {S : Type} `{!SpikeInit S} (s : S) (f : string) : S :=
  tv_reset (tv_load_elf (tv_set_dtb_in_rom (tv_set_verbose s 1) 1) f).



(** ** A small Spike and a small system to start the harness on *)

(** The device tree that the small Spike generates. *)
Definition toy_dtb : list Z := [0xd0; 0x0d; 0xfe; 0xed].

(** A Spike with 64 MiB of RAM whatever it is asked for, without dirty
    update and misaligned access, that ticks every 100 instructions. *)
#[global] Instance toy_spike_init : SpikeInit toy_spike := {|
  tv_init := fun _ _ _ => ToySpike (zero_snapshot 3) false [];
  tv_get_dts := fun _ => [47; 100; 116; 115];
  tv_is_dirty_enabled := fun _ => false;
  tv_is_misaligned_enabled := fun _ => false;
  tv_ram_size := fun _ => 0x4000000;
  tv_set_verbose := fun s _ => s;
  tv_set_dtb_in_rom := fun s _ => s;
  tv_load_elf := fun s _ => ToySpike (o_regs s) false [false; true];
  tv_reset := fun s => s;
  tv_get_insns_per_tick := fun _ => 100;
  tv_get_dtb_len := fun _ => 4;
  tv_get_dtb := fun _ => (0, toy_dtb)
|}.

(** A file system with the one file board.dtb, four bytes long. *)
#[global] Instance toy_os : Os := {|
  os_open := fun path => if String.eqb path "board.dtb" then Some 3 else None;
  os_fstat := fun _ => Some 4;
  os_mmap := fun _ _ => Some toy_dtb;
  os_malloc := fun _ => true
|}.

(** An [atol] for the numbers the examples use. *)
Definition toy_atol (s : string) : Z :=
  if String.eqb s "64" then 64 else if String.eqb s "2048" then 2048 else 0.

(** The settings at the start of [main], with 64 MiB of RAM. *)
Definition initial_settings : settings :=
  Settings false false false 0x4000000 false None None [].

(** The process at the start of [main]. *)
Definition initial_world : world (list toy_insn) toy_spike :=
  toy_world 3 3 [Retire; Halt 0] [] None None 100.

(** A run in which the Sail model is in privilege level 1 and the oracle
    in 0. *)
Definition diverging_world : world (list toy_insn) toy_spike :=
  toy_world 1 0 [Retire; Halt 0] [false; true] None None 100.

(** An oracle whose [misa] is that of RV64IMAC; the Sail model's is 0. *)
Definition misa_clash_world : world (list toy_insn) toy_spike :=
  World (Platform 0 0 100) (toy_state 0 false 0 false [Retire])
    (ToySpike (Snapshot 0 0 (fun _ => 0)
                 (fun c => if c =? CSR_MISA then 0x8000000000141105 else 0))
       false [false])
    None None [].

(** A zero-length device tree from the user, four bytes from the oracle. *)
Definition empty_dtb_world : world (list toy_insn) toy_spike :=
  toy_world 0 0 [Retire] [false] (Some []) (Some toy_dtb) 100.



(** A run with the oracle of a program that retires one instruction and
    then reports the exit code 3, as the oracle does. *)
Definition failing_cosim_world : world (list toy_insn) toy_spike :=
  toy_world 0 0 [Retire; Halt 3] [false; true] None None 100.



(** * Properties *)

Section Properties.
Context {R S : Type} `{!SailModel R} `{!Spike S}.

(** ** The state comparator *)

Lemma and_check_fold (s : S) (cs : list check) (acc : Z * list event) :
  fold_left (and_check s) cs acc =
  (fold_left (fun p c => Z.land p (Z.b2z (tv_check s c))) cs (fst acc),
   snd acc ++ map (fun c => TvCheck c (tv_check s c)) cs).
Proof.
  revert acc. induction cs as [|c cs IH]; intros [p t]; simpl.
  - by rewrite app_nil_r.
  - rewrite IH. simpl. by rewrite <- app_assoc.
Qed.

Lemma land_fold_01 (s : S) (cs : list check) (p : Z) :
  p = 0 \/ p = 1 ->
  let r := fold_left (fun p c => Z.land p (Z.b2z (tv_check s c))) cs p in
  (r = 0 \/ r = 1)
  /\ (r = 1 <-> p = 1 /\ forall c, In c cs -> tv_check s c = true).
Proof.
  revert p. induction cs as [|c cs IH]; intros p Hp; simpl.
  - split; [done|]. split; [intros ->; split; [done|tauto] | tauto].
  - assert (Hq : Z.land p (Z.b2z (tv_check s c)) = 0
                 \/ Z.land p (Z.b2z (tv_check s c)) = 1)
      by (destruct Hp as [-> | ->], (tv_check s c); auto).
    destruct (IH _ Hq) as [H01 Hiff]. split; [exact H01|].
    rewrite Hiff. split.
    + intros [Hland Hall].
      destruct Hp as [-> | ->]; [by rewrite Z.land_0_l in Hland|].
      destruct (tv_check s c) eqn:Hc; [|done].
      split; [done|]. intros c' [<- | Hin]; auto.
    + intros [-> Hall]. rewrite (Hall c) by auto. split; [done|]. auto.
Qed.

Lemma forallb_false_ex {A : Type} (f : A -> bool) (l : list A) :
  forallb f l = false -> exists x, In x l /\ f x = false.
Proof.
  induction l as [|a l IH]; simpl; [done|].
  destruct (f a) eqn:Ha; simpl.
  - intros H1. destruct (IH H1) as (x & Hin & Hx). eauto.
  - intros _. eauto.
Qed.

Lemma compare_states_eq (s : S) (st : sail_state R) :
  compare_states true s st =
  (fold_left (fun p c => Z.land p (Z.b2z (tv_check s c))) (compare_checks st) 1,
   map (fun c => TvCheck c (tv_check s c)) (compare_checks st)).
Proof. unfold compare_states. by rewrite and_check_fold. Qed.

Lemma compare_states_passed (s : S) (st : sail_state R) :
  fst (compare_states true s st) = 1
  <-> forall c, In c (compare_checks st) -> tv_check s c = true.
Proof.
  rewrite compare_states_eq. cbn [fst].
  destruct (land_fold_01 s (compare_checks st) 1) as [_ H]; [auto|].
  rewrite H. tauto.
Qed.

Lemma compare_states_01 (s : S) (st : sail_state R) :
  fst (compare_states true s st) = 0 \/ fst (compare_states true s st) = 1.
Proof.
  rewrite compare_states_eq. cbn [fst].
  by destruct (land_fold_01 s (compare_checks st) 1) as [H _]; [auto|].
Qed.

(** The register checks of [compare_states]: the statements between the
    check of the program counter and the first CSR. *)
Lemma compare_checks_split (st : sail_state R) :
  exists prv gprs csrs,
    compare_checks st = CheckPriv prv :: CheckPc (zPC st) :: gprs ++ csrs
    /\ prv = to_uint8 (if zcur_privilege st =? 2 then 3 else zcur_privilege st)
    /\ (forall c, In c gprs ->
          exists i, 1 <= i <= 31 /\ c = CheckGpr i (zx st i))
    /\ (forall i, 1 <= i <= 31 -> In (CheckGpr i (zx st i)) gprs)
    /\ csrs = [ CheckCsr CSR_MCAUSE (zmcause st); CheckCsr CSR_MEPC (zmepc st);
                CheckCsr CSR_MTVAL (zmtval st); CheckCsr CSR_MSTATUS (zmstatus st);
                CheckCsr CSR_SCAUSE (zscause st); CheckCsr CSR_SEPC (zsepc st);
                CheckCsr CSR_STVAL (zstval st) ].
Proof.
  eexists _, (firstn 33 (skipn 2 (compare_checks st))), _.
  split; [reflexivity|]. split; [reflexivity|]. split; [|split; [|reflexivity]].
  - intros c Hin. cbn in Hin.
    repeat (destruct Hin as [<- | Hin]; [eexists; split; [|reflexivity]; lia|]).
    destruct Hin.
  - intros i Hi. cbn.
    assert (Hc : i = 1 \/ i = 2 \/ i = 3 \/ i = 4 \/ i = 5 \/ i = 6 \/ i = 7
      \/ i = 8 \/ i = 9 \/ i = 10 \/ i = 11 \/ i = 12 \/ i = 13 \/ i = 14
      \/ i = 15 \/ i = 16 \/ i = 17 \/ i = 18 \/ i = 19 \/ i = 20 \/ i = 21
      \/ i = 22 \/ i = 23 \/ i = 24 \/ i = 25 \/ i = 26 \/ i = 27 \/ i = 28
      \/ i = 29 \/ i = 30 \/ i = 31) by lia.
    repeat (destruct Hc as [-> | Hc]; [tauto|]). subst i. tauto.
Qed.

(** C6: for every Sail state and every oracle, [compare_states] calls the
    oracle's checks in the order privilege level, program counter, general
    purpose registers (each of x1..x31, and never x0), then the selected
    CSRs; every one of the calls is made whatever the earlier ones answered
    (the trace always holds all 42 of them), and the result is 1 exactly
    when every check passed and 0 as soon as a single one failed. *)
Theorem compare_states_all_or_nothing (s : S) (st : sail_state R) :
  snd (compare_states true s st)
    = map (fun c => TvCheck c (tv_check s c)) (compare_checks st)
  /\ length (snd (compare_states true s st)) = 42%nat
  /\ (exists prv gprs csrs,
        compare_checks st = CheckPriv prv :: CheckPc (zPC st) :: gprs ++ csrs
        /\ (forall c, In c gprs ->
              exists i, 1 <= i <= 31 /\ c = CheckGpr i (zx st i))
        /\ (forall i, 1 <= i <= 31 -> In (CheckGpr i (zx st i)) gprs)
        /\ csrs = [ CheckCsr CSR_MCAUSE (zmcause st); CheckCsr CSR_MEPC (zmepc st);
                    CheckCsr CSR_MTVAL (zmtval st); CheckCsr CSR_MSTATUS (zmstatus st);
                    CheckCsr CSR_SCAUSE (zscause st); CheckCsr CSR_SEPC (zsepc st);
                    CheckCsr CSR_STVAL (zstval st) ])
  /\ (fst (compare_states true s st) = 1
      <-> forall c, In c (compare_checks st) -> tv_check s c = true)
  /\ (fst (compare_states true s st) = 0
      <-> exists c, In c (compare_checks st) /\ tv_check s c = false).
Proof.
  split; [by rewrite compare_states_eq|].
  split; [by rewrite compare_states_eq|].
  split.
  { destruct (compare_checks_split st) as (prv & gprs & csrs & H1 & _ & H3 & H4 & H5).
    by exists prv, gprs, csrs. }
  split; [apply compare_states_passed|].
  pose proof (compare_states_passed s st) as Hp.
  pose proof (compare_states_01 s st) as H01.
  split.
  - intros H0.
    destruct (forallb (tv_check s) (compare_checks st)) eqn:Hall.
    + rewrite forallb_forall in Hall. apply Hp in Hall. lia.
    + by apply forallb_false_ex.
  - intros (c & Hin & Hf). destruct H01 as [H0 | H1]; [done|].
    rewrite (proj1 Hp H1 c Hin) in Hf. done.
Qed.

(** C3 (amended): the CSR checks that [compare_states] makes are those of
    cause, exception PC and trap value at the machine and the supervisor
    level, and of status at the machine level only ([mstatus]); each is
    handed the Sail model's value of the register.  No check names
    [sstatus]. *)
Theorem compare_states_selected_csrs (s : S) (st : sail_state R) :
  (forall csrno v ok,
     In (TvCheck (CheckCsr csrno v) ok) (snd (compare_states true s st))
     <-> In (csrno, v)
           [ (CSR_MCAUSE, zmcause st); (CSR_MEPC, zmepc st);
             (CSR_MTVAL, zmtval st); (CSR_MSTATUS, zmstatus st);
             (CSR_SCAUSE, zscause st); (CSR_SEPC, zsepc st);
             (CSR_STVAL, zstval st) ]
         /\ ok = tv_check_csr s csrno v)
  /\ (forall v ok,
        ~ In (TvCheck (CheckCsr CSR_SSTATUS v) ok) (snd (compare_states true s st))).
Proof.
  assert (Hiff : forall csrno v ok,
     In (TvCheck (CheckCsr csrno v) ok) (snd (compare_states true s st))
     <-> In (csrno, v)
           [ (CSR_MCAUSE, zmcause st); (CSR_MEPC, zmepc st);
             (CSR_MTVAL, zmtval st); (CSR_MSTATUS, zmstatus st);
             (CSR_SCAUSE, zscause st); (CSR_SEPC, zsepc st);
             (CSR_STVAL, zstval st) ]
         /\ ok = tv_check_csr s csrno v).
  { intros csrno v ok. rewrite compare_states_eq. cbn [snd]. split.
    - intros Hin. apply in_map_iff in Hin. destruct Hin as (c & Heq & Hin).
      cbn in Hin.
      repeat (destruct Hin as [<- | Hin];
              [first [discriminate Heq
                     | injection Heq as <- <- <-; split; [cbn; tauto|reflexivity]]|]).
      destruct Hin.
    - intros [Hin ->]. apply in_map_iff. exists (CheckCsr csrno v).
      split; [reflexivity|]. cbn in Hin.
      repeat (destruct Hin as [Heq | Hin];
              [injection Heq as <- <-; cbn; tauto|]).
      destruct Hin. }
  split; [exact Hiff|].
  intros v ok Hin. apply Hiff in Hin. destruct Hin as [Hin _]. cbn in Hin.
  repeat (destruct Hin as [Heq | Hin]; [discriminate Heq|]). destruct Hin.
Qed.

(** C5: when the oracle holds the snapshot [o], the Sail model is in
    privilege level 2 where the oracle is in 3, and program counter,
    registers x1..x31 and the selected CSRs are the same on both sides,
    [compare_states] hands the oracle the value 3 (not the raw 2, which the
    oracle would reject) and reports a pass. *)
Theorem compare_states_privilege_skew (s : S) (o : snapshot) (st : sail_state R) :
  oracle_holds s o ->
  zcur_privilege st = 2 ->
  s_priv o = 3 ->
  s_pc o = zPC st ->
  (forall i, 1 <= i <= 31 -> s_gpr o i = zx st i) ->
  s_csr o CSR_MCAUSE = zmcause st ->
  s_csr o CSR_MEPC = zmepc st ->
  s_csr o CSR_MTVAL = zmtval st ->
  s_csr o CSR_MSTATUS = zmstatus st ->
  s_csr o CSR_SCAUSE = zscause st ->
  s_csr o CSR_SEPC = zsepc st ->
  s_csr o CSR_STVAL = zstval st ->
  hd_error (snd (compare_states true s st)) = Some (TvCheck (CheckPriv 3) true)
  /\ tv_check_priv s (zcur_privilege st) = false
  /\ fst (compare_states true s st) = 1.
Proof.
  intros (Hp & Hpc & Hg & Hc) Hpriv Hop Hopc Hgpr H1 H2 H3 H4 H5 H6 H7.
  split; [|split].
  - rewrite compare_states_eq. cbn. rewrite Hpriv, Hp, Hop. reflexivity.
  - rewrite Hp, Hpriv, Hop. reflexivity.
  - apply compare_states_passed. intros c Hin. cbn in Hin.
    destruct Hin as [<- | Hin]; [cbn; rewrite Hpriv, Hp, Hop; reflexivity|].
    destruct Hin as [<- | Hin]; [cbn; rewrite Hpc, Hopc; apply Z.eqb_refl|].
    repeat (destruct Hin as [<- | Hin];
            [cbn; first [ rewrite Hg, Hgpr by lia; apply Z.eqb_refl
                        | rewrite Hc;
                          first [rewrite H1|rewrite H2|rewrite H3|rewrite H4
                                |rewrite H5|rewrite H6|rewrite H7];
                          apply Z.eqb_refl ]|]).
    destruct Hin.
Qed.


(** X1: when the oracle holds the snapshot [o], [compare_states] passes
    exactly when [o] and the Sail state agree on the privilege level (the
    Sail value 2 standing for 3), the program counter, x1..x31 and the
    seven selected CSRs; nothing else of either state (x0, other CSRs,
    memory) has a say. *)
Theorem compare_states_sound_and_complete (s : S) (o : snapshot)
    (st : sail_state R) :
  oracle_holds s o ->
  fst (compare_states true s st) = 1 <-> same_compared_state st o.
Proof.
  intros (Hp & Hpc & Hg & Hc). rewrite compare_states_passed.
  unfold same_compared_state, spike_priv. split.
  - intros Hall.
    assert (Hchk : forall c, In c (compare_checks st) -> tv_check s c = true)
      by exact Hall.
    destruct (compare_checks_split st) as (prv & gprs & csrs & Heq & -> & _ & Hin & ->).
    rewrite Heq in Hchk.
    assert (H1 := Hchk _ (or_introl eq_refl)).
    assert (H2 := Hchk _ (or_intror (or_introl eq_refl))).
    cbn [tv_check] in H1, H2. rewrite Hp in H1. rewrite Hpc in H2.
    split; [symmetry; by apply Z.eqb_eq|].
    split; [symmetry; by apply Z.eqb_eq|].
    split.
    { intros i Hi. specialize (Hchk (CheckGpr i (zx st i))).
      cbn [tv_check] in Hchk. rewrite Hg in Hchk.
      symmetry. apply Z.eqb_eq, Hchk. right. right.
      apply in_or_app. left. by apply Hin. }
    assert (Hcsr : forall c v,
              In (CheckCsr c v)
                [ CheckCsr CSR_MCAUSE (zmcause st); CheckCsr CSR_MEPC (zmepc st);
                  CheckCsr CSR_MTVAL (zmtval st); CheckCsr CSR_MSTATUS (zmstatus st);
                  CheckCsr CSR_SCAUSE (zscause st); CheckCsr CSR_SEPC (zsepc st);
                  CheckCsr CSR_STVAL (zstval st) ] ->
              s_csr o c = v).
    { intros c v Hcv. specialize (Hchk (CheckCsr c v)).
      cbn [tv_check] in Hchk. rewrite Hc in Hchk.
      symmetry. apply Z.eqb_eq, Hchk. right. right.
      apply in_or_app. by right. }
    repeat split; apply Hcsr; cbn; tauto.
  - intros (E1 & E2 & E3 & E4 & E5 & E6 & E7 & E8 & E9 & E10) c Hin.
    destruct (compare_checks_split st) as (prv & gprs & csrs & Heq & -> & Hg' & _ & ->).
    rewrite Heq in Hin.
    destruct Hin as [<- | [<- | Hin]].
    + cbn [tv_check]. rewrite Hp, E1. apply Z.eqb_refl.
    + cbn [tv_check]. rewrite Hpc, E2. apply Z.eqb_refl.
    + apply in_app_or in Hin. destruct Hin as [Hin | Hin].
      * destruct (Hg' c Hin) as (i & Hi & ->).
        cbn [tv_check]. rewrite Hg, E3 by done. apply Z.eqb_refl.
      * cbn [In] in Hin.
        repeat (destruct Hin as [<- | Hin];
                [cbn [tv_check]; rewrite Hc;
                 first [rewrite E4|rewrite E5|rewrite E6|rewrite E7
                       |rewrite E8|rewrite E9|rewrite E10];
                 apply Z.eqb_refl|]).
        destruct Hin.
Qed.


(** ** The stepping loop *)

#[local] Opaque compare_states.

Lemma count_app (p : event -> bool) (t1 t2 : list event) :
  count p (t1 ++ t2) = count p t1 + count p t2.
Proof. induction t1 as [|e t1 IH]; simpl; [done|]. rewrite IH. lia. Qed.

Lemma count_checks (p : event -> bool) (s : S) (cs : list check) :
  (forall c ok, p (TvCheck c ok) = false) ->
  count p (map (fun c => TvCheck c (tv_check s c)) cs) = 0.
Proof.
  intros Hp. induction cs as [|c cs IH]; simpl; [done|].
  rewrite Hp, IH. done.
Qed.

Lemma count_compare_states (p : event -> bool) (b : bool) (s : S) (st : sail_state R) :
  (forall c ok, p (TvCheck c ok) = false) ->
  count p (snd (compare_states b s st)) = 0.
Proof.
  intros Hp. destruct b; [|done].
  rewrite compare_states_eq. by apply count_checks.
Qed.

(** Running the loop for [n + m] iterations is running it for [n] and
    then, if it has not been left, for [m] more. *)
Lemma run_loop_add (b : bool) (n m : nat) (step_no insn_cnt : Z) (w : world R S) :
  run_loop b (n + m) step_no insn_cnt w =
  match run_loop b n step_no insn_cnt w with
  | Running step_no' insn_cnt' w' => run_loop b m step_no' insn_cnt' w'
  | Stopped how w' => Stopped how w'
  end.
Proof.
  revert step_no insn_cnt w.
  induction n as [|n IH]; intros step_no insn_cnt w; simpl; [done|].
  destruct (loop_iter b step_no insn_cnt w); [apply IH|done].
Qed.

(** Once the loop has been left, more fuel changes nothing. *)
Lemma run_loop_stopped (b : bool) (n m : nat) (step_no insn_cnt : Z)
    (w w' : world R S) (how : loop_exit) :
  run_loop b n step_no insn_cnt w = Stopped how w' ->
  (n <= m)%nat ->
  run_loop b m step_no insn_cnt w = Stopped how w'.
Proof.
  intros Hn Hle. replace m with (n + (m - n))%nat by lia.
  by rewrite run_loop_add, Hn.
Qed.

(** A run that got through [n] iterations and leaves the loop in the next
    one. *)
Lemma run_loop_next (b : bool) (n fuel : nat) (w0 w w' : world R S)
    (step_no insn_cnt : Z) (how : loop_exit) :
  run_loop b n 0 0 w0 = Running step_no insn_cnt w ->
  loop_iter b step_no insn_cnt w = Stopped how w' ->
  (n < fuel)%nat ->
  run_loop b fuel 0 0 w0 = Stopped how w'.
Proof.
  intros Hn Hit Hlt. apply (run_loop_stopped b (n + 1)); [|lia].
  rewrite run_loop_add, Hn. simpl. by rewrite Hit.
Qed.


(** Without the oracle the loop is left only by its condition or by an
    exception of the model. *)
Lemma loop_iter_solo (step_no insn_cnt : Z) (w w' : world R S) (how : loop_exit) :
  loop_iter false step_no insn_cnt w = Stopped how w' ->
  how = LoopEnd \/ how = StepException.
Proof.
  unfold loop_iter, loop_tail.
  repeat (case_match; try discriminate); intros [= <- <-]; auto.
Qed.

Lemma run_loop_solo (fuel : nat) (step_no insn_cnt : Z) (w w' : world R S)
    (how : loop_exit) :
  run_loop false fuel step_no insn_cnt w = Stopped how w' ->
  how = LoopEnd \/ how = StepException.
Proof.
  revert step_no insn_cnt w.
  induction fuel as [|fuel IH]; intros step_no insn_cnt w; simpl; [done|].
  destruct (loop_iter false step_no insn_cnt w) eqn:Hit.
  - apply IH.
  - intros [= <- <-]. by apply loop_iter_solo in Hit.
Qed.

(** In the iteration whose Sail step sets [zhtif_done], the solo harness
    prints SUCCESS for the exit code 0 and FAILURE with the code otherwise,
    and goes on to the tick check. *)
Lemma loop_iter_solo_report (step_no insn_cnt : Z) (w : world R S) :
  zhtif_done (sail w) = false ->
  have_exception (snd (zstep (plat w) step_no (sail w))) = false ->
  zhtif_done (snd (zstep (plat w) step_no (sail w))) = true ->
  exists step_no' insn_cnt' w' evs,
    loop_iter false step_no insn_cnt w = Running step_no' insn_cnt' w'
    /\ trace w' =
       trace w ++
       [ SailStep step_no (fst (zstep (plat w) step_no (sail w))); FlushLogs;
         Print (let code := zhtif_exit_code (snd (zstep (plat w) step_no (sail w))) in
                if code =? 0 then SUCCESS else FAILURE code) ] ++ evs.
Proof.
  intros Hrun Hexn Hdone. unfold loop_iter, loop_tail. rewrite Hrun.
  cbn -[Z.pow]. rewrite Hexn, Hdone. cbn zeta.
  destruct (zhtif_exit_code _ =? 0); cbn -[Z.pow];
    destruct (to_uint64 _ =? _);
    do 3 eexists;
    first [ exists (TickClock :: TickPlatform :: nil);
            split; [reflexivity|]; cbn; rewrite <- ?app_assoc; reflexivity
          | exists nil;
            split; [reflexivity|]; cbn; rewrite <- ?app_assoc; reflexivity ].
Qed.

(** C1 (amended): every oracle-free run that terminates ends with the
    process exit status 0, whatever exit code the program reported. *)
Theorem solo_run_exit_status (fuel : nat) (w w' : world R S) (ec : Z) :
  run_sail false fuel w = Some (ec, w') -> ec = 0.
Proof.
  unfold run_sail. destruct (run_loop false fuel 0 0 w) eqn:Hrun; [done|].
  apply run_loop_solo in Hrun.
  destruct Hrun as [-> | ->]; unfold finish; intros [= <- _]; reflexivity.
Qed.

(** C2 (amended): when a run has come through [n] iterations and the next
    Sail step raises an exception, the run stops there: nothing but the
    message and the release of the engines follows that step in the trace,
    the oracle is not stepped, and the process exits with status 0
    ([finish(diverged)] with [diverged] still false). *)
Theorem step_exception_stops_run (b : bool) (n fuel : nat)
    (w0 w : world R S) (step_no insn_cnt : Z) :
  run_loop b n 0 0 w0 = Running step_no insn_cnt w ->
  zhtif_done (sail w) = false ->
  have_exception (snd (zstep (plat w) step_no (sail w))) = true ->
  (n < fuel)%nat ->
  exists w',
    run_sail b fuel w0 = Some (0, w')
    /\ trace w' =
       trace w ++
       [ SailStep step_no (fst (zstep (plat w) step_no (sail w)));
         Print SailException; ModelFini ] ++ (if b then [TvFree] else [])
    /\ sail w' = snd (zstep (plat w) step_no (sail w))
    /\ spike w' = spike w.
Proof.
  intros Hn Hrun Hexn Hlt.
  assert (Hit : loop_iter b step_no insn_cnt w =
                Stopped StepException
                  (emit [SailStep step_no (fst (zstep (plat w) step_no (sail w)))]
                     (set_sail (snd (zstep (plat w) step_no (sail w))) w))).
  { unfold loop_iter. rewrite Hrun. cbn. by rewrite Hexn. }
  unfold run_sail. rewrite (run_loop_next b n fuel w0 w _ _ _ _ Hn Hit Hlt).
  eexists. split; [reflexivity|].
  destruct b; cbn; rewrite <- ?app_assoc; auto.
Qed.

(** C7: in the build with the oracle, when a run has come through [n]
    iterations and, after the next step of both engines (the Sail step
    raising no exception), exactly one of them reports done, the process
    exits with status 1 right there: the trace ends with the two steps and
    the message of the mismatch. *)
Theorem completion_mismatch_is_fatal (n fuel : nat)
    (w0 w : world R S) (step_no insn_cnt : Z) :
  run_loop true n 0 0 w0 = Running step_no insn_cnt w ->
  zhtif_done (sail w) = false ->
  have_exception (snd (zstep (plat w) step_no (sail w))) = false ->
  zhtif_done (snd (zstep (plat w) step_no (sail w)))
    <> tv_is_done (tv_step (spike w)) ->
  (n < fuel)%nat ->
  exists w',
    run_sail true fuel w0 = Some (1, w')
    /\ trace w' =
       trace w ++
       [ SailStep step_no (fst (zstep (plat w) step_no (sail w))); FlushLogs;
         SpikeStep; FlushLogs;
         Print (if zhtif_done (snd (zstep (plat w) step_no (sail w)))
                then SailDoneNotSpike
                       (zhtif_exit_code (snd (zstep (plat w) step_no (sail w))))
                else SpikeDoneNotSail) ].
Proof.
  intros Hn Hrun Hexn Hne Hlt.
  assert (Hit : exists w',
    loop_iter true step_no insn_cnt w = Stopped (ExitCall 1) w'
    /\ trace w' =
       trace w ++
       [ SailStep step_no (fst (zstep (plat w) step_no (sail w))); FlushLogs;
         SpikeStep; FlushLogs;
         Print (if zhtif_done (snd (zstep (plat w) step_no (sail w)))
                then SailDoneNotSpike
                       (zhtif_exit_code (snd (zstep (plat w) step_no (sail w))))
                else SpikeDoneNotSail) ]).
  { unfold loop_iter, spike_part. rewrite Hrun. cbn -[Z.pow]. rewrite Hexn.
    cbn -[Z.pow].
    destruct (zhtif_done (snd (zstep (plat w) step_no (sail w)))),
             (tv_is_done (tv_step (spike w))); try done;
      cbn -[Z.pow]; eexists; (split; [reflexivity|]);
      cbn; rewrite <- ?app_assoc; reflexivity. }
  destruct Hit as (w' & Hit & Htr).
  exists w'. split; [|exact Htr].
  unfold run_sail. by rewrite (run_loop_next true n fuel w0 w _ _ _ _ Hn Hit Hlt).
Qed.


(** *** One iteration, in full *)

Lemma plat_emit (evs : list event) (w : world R S) : plat (emit evs w) = plat w.
Proof. done. Qed.

Lemma loop_tail_spec (b : bool) (step_no insn_cnt : Z) (w : world R S) :
  let reached := to_uint64 insn_cnt =? rv_insns_per_tick (plat w) in
  exists w',
    loop_tail b step_no insn_cnt w
      = Running step_no (if reached then 0 else insn_cnt) w'
    /\ plat w' = plat w
    /\ trace w' =
       trace w ++
       (if zhtif_done (sail w)
        then [Print (if zhtif_exit_code (sail w) =? 0 then SUCCESS
                     else FAILURE (zhtif_exit_code (sail w)))]
        else []) ++
       (if reached then tick_events b else []).
Proof.
  unfold loop_tail, tick_spike.
  destruct (zhtif_done (sail w)); [destruct (zhtif_exit_code (sail w) =? 0)|];
    cbn [plat emit]; destruct (to_uint64 insn_cnt =? _); try destruct b;
    eexists; (split; [reflexivity|]); (split; [reflexivity|]);
    cbn; rewrite <- ?app_assoc, ?app_nil_r; reflexivity.
Qed.

Lemma spike_part_inr (w w' : world R S) :
  spike_part true w = inr w' ->
  plat w' = plat w /\ sail w' = sail w
  /\ trace w' =
     trace w ++ SpikeStep :: FlushLogs ::
       snd (compare_states true (tv_step (spike w)) (sail w)).
Proof.
  unfold spike_part, flush_logs.
  cbn [fst snd sail emit set_sail set_spike plat spike trace].
  destruct (zhtif_done (sail w)), (tv_is_done (tv_step (spike w)));
    cbn [negb]; try discriminate;
    (destruct (fst (compare_states true _ _) =? 0); [discriminate|]);
    intros [= <-]; cbn; rewrite <- ?app_assoc; auto.
Qed.

Lemma spike_part_inl (w w' : world R S) (how : loop_exit) :
  spike_part true w = inl (how, w') ->
  exists evs,
    trace w' = trace w ++ evs /\ forall p, quiet p -> count p evs = 0.
Proof.
  unfold spike_part, flush_logs.
  cbn [fst snd sail emit set_sail set_spike plat spike trace].
  destruct (zhtif_done (sail w)), (tv_is_done (tv_step (spike w)));
    cbn [negb]; try (destruct (fst (compare_states true _ _) =? 0));
    try discriminate; intros [= <- <-];
    cbn [fst snd sail emit set_sail set_spike plat spike trace];
    rewrite <- ?app_assoc; cbn [app]; eexists; (split; [reflexivity|]);
    intros p (Hf & Hs & Hc & Hp); cbn [count];
    rewrite ?count_app; cbn [count];
    rewrite ?Hf, ?Hs, ?Hp, ?count_compare_states by exact Hc; reflexivity.
Qed.

(** An iteration that goes on to the next: the counters and the trace
    after it. *)
Lemma loop_iter_running (b : bool) (step_no insn_cnt : Z) (w : world R S)
    (step_no' insn_cnt' : Z) (w' : world R S) :
  loop_iter b step_no insn_cnt w = Running step_no' insn_cnt' w' ->
  let r := zstep (plat w) step_no (sail w) in
  let cnt := if fst r then to_int32 (insn_cnt + 1) else insn_cnt in
  let reached := to_uint64 cnt =? rv_insns_per_tick (plat w) in
  plat w' = plat w
  /\ step_no' = (if fst r then to_int64 (step_no + 1) else step_no)
  /\ insn_cnt' = (if reached then 0 else cnt)
  /\ trace w' =
     trace w ++
     SailStep step_no (fst r) :: FlushLogs ::
     (if b then SpikeStep :: FlushLogs ::
                snd (compare_states true (tv_step (spike w)) (snd r))
      else []) ++
     (if zhtif_done (snd r)
      then [Print (if zhtif_exit_code (snd r) =? 0 then SUCCESS
                   else FAILURE (zhtif_exit_code (snd r)))]
      else []) ++
     (if reached then tick_events b else []).
Proof.
  unfold loop_iter, flush_logs.
  destruct (zstep (plat w) step_no (sail w)) as [stepped m1] eqn:Hstep.
  destruct (zhtif_done (sail w)); [discriminate|].
  cbn [fst snd sail emit set_sail set_spike plat spike trace].
  destruct (have_exception m1); [discriminate|].
  set (w1 := emit [FlushLogs] (emit [SailStep step_no stepped] (set_sail m1 w))).
  set (cnt := if stepped then to_int32 (insn_cnt + 1) else insn_cnt).
  set (stp := if stepped then to_int64 (step_no + 1) else step_no).
  destruct b.
  - destruct (spike_part true w1) as [[how w2]|w2] eqn:Hsp; [discriminate|].
    apply spike_part_inr in Hsp. destruct Hsp as (Hpl & Hsa & Htr).
    destruct (loop_tail_spec true stp cnt w2) as (w3 & Heq & Hpl3 & Htr3).
    rewrite Heq. intros [= <- <- <-]. rewrite Hpl in *. rewrite Hsa in Htr3.
    repeat split; [by rewrite Hpl3|].
    rewrite Htr3, Htr. cbn. rewrite <- !app_assoc. reflexivity.
  - destruct (loop_tail_spec false stp cnt w1) as (w3 & Heq & Hpl3 & Htr3).
    rewrite Heq. intros [= <- <- <-].
    repeat split; [by rewrite Hpl3|].
    rewrite Htr3. cbn. rewrite <- !app_assoc. reflexivity.
Qed.

(** An iteration that leaves the loop: either the condition failed and
    nothing happened, or the body was left after the Sail step, before the
    tick check. *)
Lemma loop_iter_stopped (b : bool) (step_no insn_cnt : Z) (w : world R S)
    (how : loop_exit) (w' : world R S) :
  loop_iter b step_no insn_cnt w = Stopped how w' ->
  (how = LoopEnd /\ w' = w)
  \/ (exists evs,
        trace w' = trace w
                   ++ SailStep step_no (fst (zstep (plat w) step_no (sail w))) :: evs
        /\ forall p, quiet p -> count p evs = 0).
Proof.
  unfold loop_iter, flush_logs.
  destruct (zstep (plat w) step_no (sail w)) as [stepped m1] eqn:Hstep.
  destruct (zhtif_done (sail w)); [intros [= <- <-]; by left|].
  cbn [fst snd sail emit set_sail set_spike plat spike trace].
  destruct (have_exception m1).
  { intros [= <- <-]. right. exists []. split; [reflexivity|done]. }
  set (w1 := emit [FlushLogs] (emit [SailStep step_no stepped] (set_sail m1 w))).
  destruct b.
  - destruct (spike_part true w1) as [[how' w2]|w2] eqn:Hsp.
    + intros [= <- <-]. right.
      apply spike_part_inl in Hsp. destruct Hsp as (evs & Htr & Hq).
      exists (FlushLogs :: evs). split.
      * rewrite Htr. cbn. rewrite <- !app_assoc. reflexivity.
      * intros p Hp. cbn [count]. rewrite (Hq p Hp).
        destruct Hp as (-> & _). reflexivity.
    + destruct (loop_tail_spec true
                  (if stepped then to_int64 (step_no + 1) else step_no)
                  (if stepped then to_int32 (insn_cnt + 1) else insn_cnt) w2)
        as (w3 & Heq & _). rewrite Heq. discriminate.
  - destruct (loop_tail_spec false
                (if stepped then to_int64 (step_no + 1) else step_no)
                (if stepped then to_int32 (insn_cnt + 1) else insn_cnt) w1)
      as (w3 & Heq & _). rewrite Heq. discriminate.
Qed.

(** *** Ticks *)

Lemma loop_iter_running_count (b : bool) (step_no insn_cnt : Z) (w : world R S)
    (step_no' insn_cnt' : Z) (w' : world R S) (p : event -> bool) :
  loop_iter b step_no insn_cnt w = Running step_no' insn_cnt' w' ->
  quiet p ->
  let stepped := fst (zstep (plat w) step_no (sail w)) in
  let cnt := if stepped then to_int32 (insn_cnt + 1) else insn_cnt in
  count p (trace w') =
  count p (trace w) + (if p (SailStep step_no stepped) then 1 else 0)
  + (if to_uint64 cnt =? rv_insns_per_tick (plat w)
     then count p (tick_events b) else 0).
Proof.
  intros Hit (Hf & Hs & Hc & Hp).
  destruct (loop_iter_running _ _ _ _ _ _ _ Hit) as (_ & _ & _ & Htr).
  cbv zeta. rewrite Htr. clear Htr Hit.
  rewrite count_app. cbn [count]. rewrite !count_app, Hf.
  assert (H1 : count p (if b then SpikeStep :: FlushLogs ::
       snd (compare_states true (tv_step (spike w))
              (snd (zstep (plat w) step_no (sail w)))) else []) = 0).
  { destruct b; [|done]. cbn [count].
    rewrite Hf, Hs, count_compare_states by exact Hc. done. }
  assert (H2 : count p (if zhtif_done (snd (zstep (plat w) step_no (sail w)))
      then [Print (if zhtif_exit_code (snd (zstep (plat w) step_no (sail w))) =? 0
                   then SUCCESS
                   else FAILURE (zhtif_exit_code (snd (zstep (plat w) step_no (sail w)))))]
      else []) = 0).
  { destruct (zhtif_done _); [|done]. cbn [count]. rewrite Hp. done. }
  rewrite H1, H2. destruct (to_uint64 _ =? _); cbn [count]; lia.
Qed.

Lemma quiet_is_retired : quiet is_retired.
Proof. by repeat split. Qed.
Lemma quiet_is_tick_clock : quiet is_tick_clock.
Proof. by repeat split. Qed.
Lemma quiet_is_tick_platform : quiet is_tick_platform.
Proof. by repeat split. Qed.
Lemma quiet_is_tv_tick_clock : quiet is_tv_tick_clock.
Proof. by repeat split. Qed.
Lemma quiet_is_tv_step_io : quiet is_tv_step_io.
Proof. by repeat split. Qed.

(** What one iteration that reaches the tick check does to the counter and
    to the number of ticks. *)
Lemma loop_iter_ticks (b : bool) (step_no insn_cnt : Z) (w : world R S)
    (step_no' insn_cnt' : Z) (w' : world R S) :
  loop_iter b step_no insn_cnt w = Running step_no' insn_cnt' w' ->
  let stepped := fst (zstep (plat w) step_no (sail w)) in
  let cnt := if stepped then to_int32 (insn_cnt + 1) else insn_cnt in
  let fired := if to_uint64 cnt =? rv_insns_per_tick (plat w) then 1 else 0 in
  plat w' = plat w
  /\ insn_cnt' = (if to_uint64 cnt =? rv_insns_per_tick (plat w) then 0 else cnt)
  /\ delta is_retired w w' = (if stepped then 1 else 0)
  /\ delta is_tick_clock w w' = fired
  /\ delta is_tick_platform w w' = fired
  /\ delta is_tv_tick_clock w w' = (if b then fired else 0)
  /\ delta is_tv_step_io w w' = (if b then fired else 0).
Proof.
  intros Hit. cbv zeta. unfold delta.
  destruct (loop_iter_running _ _ _ _ _ _ _ Hit) as (Hpl & _ & Hcnt & _).
  rewrite (loop_iter_running_count _ _ _ _ _ _ _ _ Hit quiet_is_retired).
  rewrite (loop_iter_running_count _ _ _ _ _ _ _ _ Hit quiet_is_tick_clock).
  rewrite (loop_iter_running_count _ _ _ _ _ _ _ _ Hit quiet_is_tick_platform).
  rewrite (loop_iter_running_count _ _ _ _ _ _ _ _ Hit quiet_is_tv_tick_clock).
  rewrite (loop_iter_running_count _ _ _ _ _ _ _ _ Hit quiet_is_tv_step_io).
  split; [exact Hpl|]. split; [exact Hcnt|].
  destruct (fst (zstep (plat w) step_no (sail w))), (to_uint64 _ =? _), b;
    cbn; repeat split; lia.
Qed.

Lemma tick_accounting_run (b : bool) (fuel : nat) (w0 : world R S) :
  let ipt := rv_insns_per_tick (plat w0) in
  0 < ipt <= 2 ^ 31 - 1 ->
  forall step_no insn_cnt w,
    plat w = plat w0 -> 0 <= insn_cnt < ipt ->
    tick_accounting b ipt w0 w insn_cnt ->
    match run_loop b fuel step_no insn_cnt w with
    | Running _ insn_cnt' w' =>
        plat w' = plat w0 /\ 0 <= insn_cnt' < ipt
        /\ tick_accounting b ipt w0 w' insn_cnt'
    | Stopped _ w' =>
        exists insn_cnt',
          0 <= insn_cnt' <= ipt /\ tick_accounting b ipt w0 w' insn_cnt'
    end.
Proof.
  intros ipt Hipt. induction fuel as [|fuel IH]; intros step_no insn_cnt w Hpl Hc Hacc.
  { simpl. auto. }
  simpl. destruct (loop_iter b step_no insn_cnt w) as [s' c' w'|how w'] eqn:Hit.
  - destruct (loop_iter_ticks _ _ _ _ _ _ _ Hit)
      as (Hpl' & Hc' & Hr & Ht & Hp & Hv & Hi).
    set (stepped := fst (zstep (plat w) step_no (sail w))) in *.
    rewrite Hpl in Hc', Ht, Hp, Hv, Hi. fold ipt in Hc', Ht, Hp, Hv, Hi.
    assert (Hcnt : 0 <= (if stepped then insn_cnt + 1 else insn_cnt) <= ipt)
      by (destruct stepped; lia).
    assert (Hi32 : (if stepped then to_int32 (insn_cnt + 1) else insn_cnt)
                   = (if stepped then insn_cnt + 1 else insn_cnt)).
    { destruct stepped; [|done]. unfold to_int32.
      rewrite Z.mod_small; lia. }
    rewrite Hi32 in *.
    assert (Hu64 : to_uint64 (if stepped then insn_cnt + 1 else insn_cnt)
                   = (if stepped then insn_cnt + 1 else insn_cnt)).
    { unfold to_uint64. rewrite Z.mod_small; lia. }
    rewrite Hu64 in *.
    destruct Hacc as (A1 & A2 & A3 & A4). unfold delta in *.
    apply IH; [congruence| |].
    + destruct (Z.eqb_spec (if stepped then insn_cnt + 1 else insn_cnt) ipt); lia.
    + unfold tick_accounting, delta.
      destruct (Z.eqb_spec (if stepped then insn_cnt + 1 else insn_cnt) ipt),
        stepped, b; repeat split; lia.
  - destruct (loop_iter_stopped _ _ _ _ _ _ Hit) as [[_ ->] | (evs & Htr & Hq)].
    + exists insn_cnt. split; [lia|done].
    + exists (insn_cnt
              + (if fst (zstep (plat w) step_no (sail w)) then 1 else 0)).
      split; [destruct (fst _); lia|].
      destruct Hacc as (A1 & A2 & A3 & A4).
      unfold tick_accounting, delta in *. rewrite Htr, !count_app. cbn [count].
      rewrite (Hq _ quiet_is_retired), (Hq _ quiet_is_tick_clock),
        (Hq _ quiet_is_tick_platform), (Hq _ quiet_is_tv_tick_clock),
        (Hq _ quiet_is_tv_step_io).
      cbn. destruct (fst (zstep (plat w) step_no (sail w))), b;
        repeat split; lia.
Qed.

(** C9: with a tick period [ipt] that fits an [int], (1) an iteration that
    reaches the tick check has incremented the instruction-tick counter
    exactly when the Sail step executed; when the counter then equals
    [ipt] it is reset to 0 and one tick is made (one call each of
    [ztick_clock] and [ztick_platform] and, with the oracle, of
    [tv_tick_clock] and [tv_step_io]), and otherwise no tick is made;
    (2) all along a run the counter stays below [ipt] and the retired
    instructions number [ipt] times the ticks plus the counter: one tick
    per [ipt] retired instructions. *)
Theorem ticks_once_per_period (b : bool) (fuel : nat) (w0 : world R S) :
  let ipt := rv_insns_per_tick (plat w0) in
  0 < ipt <= 2 ^ 31 - 1 ->
  (forall step_no insn_cnt w step_no' insn_cnt' w',
     loop_iter b step_no insn_cnt w = Running step_no' insn_cnt' w' ->
     let stepped := fst (zstep (plat w) step_no (sail w)) in
     let cnt := if stepped then to_int32 (insn_cnt + 1) else insn_cnt in
     let fired := if to_uint64 cnt =? rv_insns_per_tick (plat w) then 1 else 0 in
     insn_cnt' = (if to_uint64 cnt =? rv_insns_per_tick (plat w) then 0 else cnt)
     /\ delta is_retired w w' = (if stepped then 1 else 0)
     /\ delta is_tick_clock w w' = fired
     /\ delta is_tick_platform w w' = fired
     /\ delta is_tv_tick_clock w w' = (if b then fired else 0)
     /\ delta is_tv_step_io w w' = (if b then fired else 0))
  /\ match run_loop b fuel 0 0 w0 with
     | Running _ insn_cnt w =>
         0 <= insn_cnt < ipt /\ tick_accounting b ipt w0 w insn_cnt
     | Stopped _ w =>
         exists insn_cnt,
           0 <= insn_cnt <= ipt /\ tick_accounting b ipt w0 w insn_cnt
     end.
Proof.
  intros ipt Hipt. split.
  - intros step_no insn_cnt w step_no' insn_cnt' w' Hit.
    destruct (loop_iter_ticks _ _ _ _ _ _ _ Hit) as (_ & H). exact H.
  - pose proof (tick_accounting_run b fuel w0 Hipt 0 0 w0 eq_refl) as H.
    fold ipt in H.
    assert (Hacc : tick_accounting b ipt w0 w0 0).
    { unfold tick_accounting, delta. destruct b; repeat split; lia. }
    specialize (H ltac:(lia) Hacc).
    destruct (run_loop b fuel 0 0 w0); [|exact H].
    destruct H as (_ & H). exact H.
Qed.


(** *** Leaving the loop *)

(** An invariant of the loop body is an invariant of the loop. *)
Lemma run_loop_invariant (b : bool) (I : Z -> Z -> world R S -> Prop)
    (J : loop_exit -> world R S -> Prop) :
  (forall s c w s' c' w',
     I s c w -> loop_iter b s c w = Running s' c' w' -> I s' c' w') ->
  (forall s c w how w',
     I s c w -> loop_iter b s c w = Stopped how w' -> J how w') ->
  forall fuel s c w,
    I s c w ->
    match run_loop b fuel s c w with
    | Running s' c' w' => I s' c' w'
    | Stopped how w' => J how w'
    end.
Proof.
  intros Hrun Hstop. induction fuel as [|fuel IH]; intros s c w HI; simpl; [done|].
  destruct (loop_iter b s c w) as [s' c' w'|how w'] eqn:Hit.
  - apply IH. by apply (Hrun s c w).
  - by apply (Hstop s c w).
Qed.

(** What [spike_part] does when it leaves the loop: a completion mismatch
    ends in [exit(1)], a failed comparison in [break]. *)
Lemma spike_part_left (w w' : world R S) (how : loop_exit) :
  spike_part true w = inl (how, w') ->
  sail w' = sail w
  /\ spike w' = tv_step (spike w)
  /\ ((how = ExitCall 1
       /\ zhtif_done (sail w) <> tv_is_done (tv_step (spike w))
       /\ trace w' =
          trace w ++
          [ SpikeStep; FlushLogs;
            Print (if zhtif_done (sail w)
                   then SailDoneNotSpike (zhtif_exit_code (sail w))
                   else SpikeDoneNotSail) ])
      \/ (how = Break
          /\ zhtif_done (sail w) = tv_is_done (tv_step (spike w))
          /\ fst (compare_states true (tv_step (spike w)) (sail w)) = 0
          /\ trace w' =
             trace w ++ SpikeStep :: FlushLogs ::
               snd (compare_states true (tv_step (spike w)) (sail w)))).
Proof.
  unfold spike_part, flush_logs.
  cbn [fst snd sail emit set_sail set_spike plat spike trace].
  destruct (zhtif_done (sail w)), (tv_is_done (tv_step (spike w)));
    cbn [negb];
    try (destruct (Z.eqb_spec (fst (compare_states true (tv_step (spike w)) (sail w))) 0));
    try discriminate; intros [= <- <-];
    cbn [fst snd sail emit set_sail set_spike plat spike trace];
    rewrite <- ?app_assoc; cbn [app];
    (split; [reflexivity|]); (split; [reflexivity|]);
    first [ left; repeat split; done | right; repeat split; done ].
Qed.

(** The four ways out of the loop, and what each of them tells. *)
Lemma loop_iter_left (b : bool) (step_no insn_cnt : Z) (w : world R S)
    (how : loop_exit) (w' : world R S) :
  loop_iter b step_no insn_cnt w = Stopped how w' ->
  match how with
  | LoopEnd => w' = w /\ zhtif_done (sail w) = true
  | StepException =>
      have_exception (sail w') = true /\ spike w' = spike w
      /\ zhtif_done (sail w) = false
  | Break => b = true /\ zhtif_done (sail w) = false
  | ExitCall ec => ec = 1 /\ b = true /\ zhtif_done (sail w) = false
  end.
Proof.
  unfold loop_iter, flush_logs.
  destruct (zstep (plat w) step_no (sail w)) as [stepped m1] eqn:Hstep.
  destruct (zhtif_done (sail w)) eqn:Hdone; [intros [= <- <-]; done|].
  cbn [fst snd sail emit set_sail set_spike plat spike trace].
  destruct (have_exception m1) eqn:Hexn.
  { intros [= <- <-]. done. }
  set (w1 := emit [FlushLogs] (emit [SailStep step_no stepped] (set_sail m1 w))).
  destruct b.
  - destruct (spike_part true w1) as [[how' w2]|w2] eqn:Hsp.
    + intros [= <- <-]. apply spike_part_left in Hsp.
      destruct Hsp as (_ & _ & [(-> & _) | (-> & _)]); done.
    + destruct (loop_tail_spec true
                  (if stepped then to_int64 (step_no + 1) else step_no)
                  (if stepped then to_int32 (insn_cnt + 1) else insn_cnt) w2)
        as (w3 & Heq & _). rewrite Heq. discriminate.
  - destruct (loop_tail_spec false
                (if stepped then to_int64 (step_no + 1) else step_no)
                (if stepped then to_int32 (insn_cnt + 1) else insn_cnt) w1)
      as (w3 & Heq & _). rewrite Heq. discriminate.
Qed.

(** X2: every run that terminates ends with the exit status 0 or 1, and
    with 1 only in the build with the oracle: whatever the program, the
    process never reports another status from [run_sail]. *)
Theorem run_sail_exit_status (b : bool) (fuel : nat) (w w' : world R S) (ec : Z) :
  run_sail b fuel w = Some (ec, w') ->
  ec = 0 \/ (ec = 1 /\ b = true).
Proof.
  unfold run_sail.
  pose proof (run_loop_invariant b (fun _ _ _ => True)
                (fun how _ => match how with
                              | ExitCall ec => ec = 1 /\ b = true
                              | Break => b = true
                              | _ => True
                              end)) as Hinv.
  specialize (Hinv ltac:(done)).
  assert (Hstop : forall s c w0 how w1,
            True -> loop_iter b s c w0 = Stopped how w1 ->
            match how with
            | ExitCall ec => ec = 1 /\ b = true
            | Break => b = true
            | _ => True
            end).
  { intros s c w0 how w1 _ Hit. apply loop_iter_left in Hit.
    destruct how; try done; tauto. }
  specialize (Hinv Hstop fuel 0 0 w I).
  destruct (run_loop b fuel 0 0 w) as [|how w1]; [done|].
  destruct how; unfold finish; intros [= <- _]; cbn; tauto.
Qed.

(** X3: in the build with the oracle, when a run has come through [n]
    iterations and in the next one both engines step, agree on being done
    or not, and a check of [compare_states] fails, the loop is left at
    once: the trace ends with the checks and the release of the engines
    (no SUCCESS or FAILURE message, no tick), and the exit status is 1. *)
Theorem divergence_stops_run (n fuel : nat)
    (w0 w : world R S) (step_no insn_cnt : Z) :
  run_loop true n 0 0 w0 = Running step_no insn_cnt w ->
  zhtif_done (sail w) = false ->
  have_exception (snd (zstep (plat w) step_no (sail w))) = false ->
  zhtif_done (snd (zstep (plat w) step_no (sail w)))
    = tv_is_done (tv_step (spike w)) ->
  fst (compare_states true (tv_step (spike w))
         (snd (zstep (plat w) step_no (sail w)))) = 0 ->
  (n < fuel)%nat ->
  exists w',
    run_sail true fuel w0 = Some (1, w')
    /\ trace w' =
       trace w ++
       [ SailStep step_no (fst (zstep (plat w) step_no (sail w))); FlushLogs;
         SpikeStep; FlushLogs ]
       ++ snd (compare_states true (tv_step (spike w))
                 (snd (zstep (plat w) step_no (sail w))))
       ++ [ModelFini; TvFree].
Proof.
  intros Hn Hrun Hexn Hdone Hcmp Hlt.
  assert (Hit : exists w',
    loop_iter true step_no insn_cnt w = Stopped Break w'
    /\ trace w' =
       trace w ++
       [ SailStep step_no (fst (zstep (plat w) step_no (sail w))); FlushLogs;
         SpikeStep; FlushLogs ]
       ++ snd (compare_states true (tv_step (spike w))
                 (snd (zstep (plat w) step_no (sail w))))).
  { unfold loop_iter, spike_part, flush_logs. rewrite Hrun.
    cbn [fst snd sail emit set_sail set_spike plat spike trace].
    rewrite Hexn.
    cbn [fst snd sail emit set_sail set_spike plat spike trace].
    rewrite <- Hdone.
    destruct (zhtif_done (snd (zstep (plat w) step_no (sail w))));
      cbn [negb]; rewrite Hcmp; cbn [Z.eqb];
      eexists; (split; [reflexivity|]);
      cbn [fst snd sail emit set_sail set_spike plat spike trace];
      rewrite <- !app_assoc; reflexivity. }
  destruct Hit as (w' & Hit & Htr).
  unfold run_sail. rewrite (run_loop_next true n fuel w0 w _ _ _ _ Hn Hit Hlt).
  eexists. split; [reflexivity|]. cbn [finish snd emit trace Z.b2z].
  cbn. rewrite Htr, <- !app_assoc. reflexivity.
Qed.


(** X4: a run without the oracle terminates only when the model reports
    done or raises an exception, and it does terminate, with status 0, one
    evaluation of the loop condition after the model has reported done. *)
Theorem solo_run_terminates_when_done (fuel : nat) (w : world R S) :
  (forall ec w',
     run_sail false fuel w = Some (ec, w') ->
     zhtif_done (sail w') = true \/ have_exception (sail w') = true)
  /\ (forall n step_no insn_cnt w1,
        run_loop false n 0 0 w = Running step_no insn_cnt w1 ->
        zhtif_done (sail w1) = true ->
        (n < fuel)%nat ->
        run_sail false fuel w = Some (0, emit [ModelFini] w1)).
Proof.
  split.
  - intros ec w'. unfold run_sail.
    pose proof (run_loop_invariant false (fun _ _ _ => True)
                  (fun how w1 => match how with
                                 | LoopEnd => zhtif_done (sail w1) = true
                                 | StepException => have_exception (sail w1) = true
                                 | _ => False
                                 end)) as Hinv.
    specialize (Hinv ltac:(done)).
    assert (Hstop : forall s c w0 how w1,
              True -> loop_iter false s c w0 = Stopped how w1 ->
              match how with
              | LoopEnd => zhtif_done (sail w1) = true
              | StepException => have_exception (sail w1) = true
              | _ => False
              end).
    { intros s c w0 how w1 _ Hit. apply loop_iter_left in Hit.
      destruct how; try tauto.
      - destruct Hit as [-> H]. exact H.
      - destruct Hit as [H _]. discriminate H.
      - destruct Hit as (_ & H & _). discriminate H. }
    specialize (Hinv Hstop fuel 0 0 w I).
    destruct (run_loop false fuel 0 0 w) as [|how w1]; [done|].
    destruct how; try done; unfold finish; intros [= _ <-]; cbn; tauto.
  - intros n step_no insn_cnt w1 Hn Hdone Hlt.
    assert (Hit : loop_iter false step_no insn_cnt w1 = Stopped LoopEnd w1)
      by (unfold loop_iter; by rewrite Hdone).
    unfold run_sail.
    by rewrite (run_loop_next false n fuel w w1 _ _ _ _ Hn Hit Hlt).
Qed.

(** One iteration of the loop without the oracle leaves Spike alone. *)
Lemma loop_iter_solo_oracle (step_no insn_cnt : Z) (w : world R S) :
  match loop_iter false step_no insn_cnt w with
  | Running _ _ w' | Stopped _ w' =>
      spike w' = spike w
      /\ count is_oracle_call (trace w') = count is_oracle_call (trace w)
  end.
Proof.
  unfold loop_iter, loop_tail, tick_spike, flush_logs.
  destruct (zhtif_done (sail w)); [done|].
  cbn [fst snd sail emit set_sail set_spike plat spike trace].
  destruct (have_exception _).
  { cbn [fst snd sail emit set_sail set_spike plat spike trace].
    split; [done|]. rewrite count_app. cbn. lia. }
  cbn [fst snd sail emit set_sail set_spike plat spike trace].
  destruct (zhtif_done _); [destruct (_ =? 0)|];
    cbn [fst snd sail emit set_sail set_spike plat spike trace];
    destruct (_ =? _);
    cbn [fst snd sail emit set_sail set_spike plat spike trace];
    (split; [reflexivity|]); rewrite !count_app; cbn; lia.
Qed.

(** X5: a run without the oracle never calls into Spike: whether it is
    still running or has terminated, its trace has gained no step, check,
    tick or release of Spike, and the Spike instance is as it was. *)
Theorem solo_run_leaves_oracle_alone (fuel : nat) (w : world R S) :
  match run_loop false fuel 0 0 w with
  | Running _ _ w' | Stopped _ w' =>
      spike w' = spike w /\ delta is_oracle_call w w' = 0
  end
  /\ (forall ec w',
        run_sail false fuel w = Some (ec, w') ->
        spike w' = spike w /\ delta is_oracle_call w w' = 0).
Proof.
  assert (Hloop :
    match run_loop false fuel 0 0 w with
    | Running _ _ w' | Stopped _ w' =>
        spike w' = spike w /\ delta is_oracle_call w w' = 0
    end).
  { pose proof (run_loop_invariant false
        (fun _ _ w' => spike w' = spike w /\ delta is_oracle_call w w' = 0)
        (fun _ w' => spike w' = spike w /\ delta is_oracle_call w w' = 0)) as Hinv.
    assert (H1 : forall s c w1 s' c' w',
              spike w1 = spike w /\ delta is_oracle_call w w1 = 0 ->
              loop_iter false s c w1 = Running s' c' w' ->
              spike w' = spike w /\ delta is_oracle_call w w' = 0).
    { intros s c w1 s' c' w' [Hs Hd] Hit.
      pose proof (loop_iter_solo_oracle s c w1) as H. rewrite Hit in H.
      destruct H as [Hs' Hc']. unfold delta in *. split; [congruence|lia]. }
    assert (H2 : forall s c w1 how w',
              spike w1 = spike w /\ delta is_oracle_call w w1 = 0 ->
              loop_iter false s c w1 = Stopped how w' ->
              spike w' = spike w /\ delta is_oracle_call w w' = 0).
    { intros s c w1 how w' [Hs Hd] Hit.
      pose proof (loop_iter_solo_oracle s c w1) as H. rewrite Hit in H.
      destruct H as [Hs' Hc']. unfold delta in *. split; [congruence|lia]. }
    specialize (Hinv H1 H2 fuel 0 0 w).
    assert (H0 : spike w = spike w /\ delta is_oracle_call w w = 0)
      by (unfold delta; split; [done|lia]).
    specialize (Hinv H0).
    destruct (run_loop false fuel 0 0 w); exact Hinv. }
  split; [exact Hloop|].
  intros ec w'. unfold run_sail.
  destruct (run_loop false fuel 0 0 w) as [|how w1] eqn:Hrun; [done|].
  destruct Hloop as [Hs Hd].
  apply run_loop_solo in Hrun. unfold delta in *.
  destruct Hrun as [-> | ->]; unfold finish; intros [= _ <-];
    cbn [fst snd sail emit set_sail set_spike plat spike trace];
    (split; [exact Hs|]); rewrite !count_app; cbn; lia.
Qed.

(** *** Lock step *)

Lemma delta_trans (p : event -> bool) (w0 w1 w2 : world R S) :
  delta p w0 w2 = delta p w0 w1 + delta p w1 w2.
Proof. unfold delta. lia. Qed.

(** The steps of an iteration that goes on to the next: one of the Sail
    model and, with the oracle, one of Spike. *)
Lemma loop_iter_running_steps (b : bool) (step_no insn_cnt : Z) (w : world R S)
    (step_no' insn_cnt' : Z) (w' : world R S) :
  loop_iter b step_no insn_cnt w = Running step_no' insn_cnt' w' ->
  delta is_sail_step w w' = 1
  /\ delta is_spike_step w w' = (if b then 1 else 0).
Proof.
  intros Hit. unfold delta.
  destruct (loop_iter_running _ _ _ _ _ _ _ Hit) as (_ & _ & _ & Htr).
  rewrite Htr. clear Htr Hit. rewrite !count_app. cbn [count app].
  rewrite !count_app.
  assert (Hrep : forall p, (forall m, p (Print m) = false) ->
            count p (if zhtif_done (snd (zstep (plat w) step_no (sail w)))
                     then [Print (if zhtif_exit_code (snd (zstep (plat w) step_no (sail w))) =? 0
                                  then SUCCESS
                                  else FAILURE (zhtif_exit_code (snd (zstep (plat w) step_no (sail w)))))]
                     else []) = 0).
  { intros p Hp. destruct (zhtif_done _); [|done]. cbn [count]. by rewrite Hp. }
  assert (Htk : forall p, p TickClock = false -> p TickPlatform = false ->
            p TvTickClock = false -> p TvStepIo = false ->
            count p (if to_uint64 (if fst (zstep (plat w) step_no (sail w))
                                   then to_int32 (insn_cnt + 1) else insn_cnt)
                        =? rv_insns_per_tick (plat w)
                     then tick_events b else []) = 0).
  { intros p P1 P2 P3 P4. destruct (to_uint64 _ =? _); [|reflexivity].
    destruct b; cbn [tick_events app count]; rewrite ?P1, ?P2, ?P3, ?P4; reflexivity. }
  rewrite !Hrep, !Htk by done.
  destruct b; cbn [count is_sail_step is_spike_step];
    rewrite ?count_compare_states by done; split; lia.
Qed.

(** The steps of an iteration that leaves the loop. *)
Lemma loop_iter_stopped_steps (step_no insn_cnt : Z) (w : world R S)
    (how : loop_exit) (w' : world R S) :
  loop_iter true step_no insn_cnt w = Stopped how w' ->
  match how with
  | LoopEnd => delta is_sail_step w w' = 0 /\ delta is_spike_step w w' = 0
  | StepException => delta is_sail_step w w' = 1 /\ delta is_spike_step w w' = 0
  | Break | ExitCall _ =>
      delta is_sail_step w w' = 1 /\ delta is_spike_step w w' = 1
  end.
Proof.
  unfold loop_iter, flush_logs, delta.
  destruct (zstep (plat w) step_no (sail w)) as [stepped m1] eqn:Hstep.
  destruct (zhtif_done (sail w)) eqn:Hdone; [intros [= <- <-]; lia|].
  cbn [fst snd sail emit set_sail set_spike plat spike trace].
  destruct (have_exception m1) eqn:Hexn.
  { intros [= <- <-]. cbn [trace emit set_sail]. rewrite !count_app. cbn. lia. }
  set (w1 := emit [FlushLogs] (emit [SailStep step_no stepped] (set_sail m1 w))).
  destruct (spike_part true w1) as [[how' w2]|w2] eqn:Hsp.
  - intros [= <- <-]. apply spike_part_left in Hsp.
    destruct Hsp as (_ & _ & [(-> & _ & Htr) | (-> & _ & _ & Htr)]);
      rewrite Htr; subst w1; cbn [trace emit set_sail];
      rewrite !count_app; cbn [count is_sail_step is_spike_step];
      rewrite ?count_compare_states by done; lia.
  - destruct (loop_tail_spec true
                (if stepped then to_int64 (step_no + 1) else step_no)
                (if stepped then to_int32 (insn_cnt + 1) else insn_cnt) w2)
      as (w3 & Heq & _). rewrite Heq. discriminate.
Qed.

Lemma lock_step_from (fuel : nat) (step_no insn_cnt : Z) (w : world R S) :
  match run_loop true fuel step_no insn_cnt w with
  | Running _ _ w' =>
      delta is_sail_step w w' = Z.of_nat fuel
      /\ delta is_spike_step w w' = Z.of_nat fuel
  | Stopped how w' =>
      delta is_sail_step w w' <= Z.of_nat fuel
      /\ delta is_spike_step w w' =
         delta is_sail_step w w'
         - (match how with StepException => 1 | _ => 0 end)
  end.
Proof.
  revert step_no insn_cnt w.
  induction fuel as [|fuel IH]; intros step_no insn_cnt w.
  { cbn [run_loop]. unfold delta. lia. }
  cbn [run_loop].
  destruct (loop_iter true step_no insn_cnt w) as [s' c' w1|how w1] eqn:Hit.
  - destruct (loop_iter_running_steps _ _ _ _ _ _ _ Hit) as [H1 H2].
    specialize (IH s' c' w1).
    destruct (run_loop true fuel s' c' w1) as [s2 c2 w2|how w2];
      rewrite (delta_trans is_sail_step w w1 w2),
              (delta_trans is_spike_step w w1 w2); lia.
  - apply loop_iter_stopped_steps in Hit. destruct how; lia.
Qed.

(** X6: with the oracle, the two engines advance in lock step: after
    [fuel] iterations each has made exactly [fuel] steps (the oracle steps
    also when the Sail step did not execute), and when the loop is left
    they have made the same number of steps, or the Sail model one more
    when its step raised an exception. *)
Theorem oracle_lock_step (fuel : nat) (w0 : world R S) :
  match run_loop true fuel 0 0 w0 with
  | Running _ _ w =>
      delta is_sail_step w0 w = Z.of_nat fuel
      /\ delta is_spike_step w0 w = Z.of_nat fuel
  | Stopped how w =>
      delta is_sail_step w0 w <= Z.of_nat fuel
      /\ delta is_spike_step w0 w =
         delta is_sail_step w0 w
         - (match how with StepException => 1 | _ => 0 end)
  end.
Proof. exact (lock_step_from fuel 0 0 w0). Qed.

Lemma step_no_from (b : bool) (fuel : nat) (step_no insn_cnt k : Z) (w : world R S) :
  0 <= step_no <= k ->
  k + Z.of_nat fuel < 2 ^ 63 ->
  match run_loop b fuel step_no insn_cnt w with
  | Running step_no' _ w' =>
      step_no' = step_no + delta is_retired w w'
      /\ step_no <= step_no' <= k + Z.of_nat fuel
  | Stopped _ _ => True
  end.
Proof.
  revert step_no insn_cnt k w.
  induction fuel as [|fuel IH]; intros step_no insn_cnt k w Hs Hk.
  { cbn [run_loop]. unfold delta. lia. }
  cbn [run_loop].
  destruct (loop_iter b step_no insn_cnt w) as [s' c' w1|how w1] eqn:Hit; [|done].
  destruct (loop_iter_running _ _ _ _ _ _ _ Hit) as (_ & Hs' & _ & _).
  destruct (loop_iter_ticks _ _ _ _ _ _ _ Hit) as (_ & _ & Hr & _).
  assert (Hs1 : s' = step_no
                     + (if fst (zstep (plat w) step_no (sail w)) then 1 else 0)).
  { rewrite Hs'. destruct (fst _); [|lia].
    unfold to_int64. rewrite Z.mod_small by lia. lia. }
  specialize (IH s' c' (k + 1) w1 ltac:(destruct (fst _); lia) ltac:(lia)).
  destruct (run_loop b fuel s' c' w1) as [s2 c2 w2|]; [|done].
  rewrite (delta_trans is_retired w w1 w2), Hr.
  destruct (fst (zstep (plat w) step_no (sail w))); lia.
Qed.

(** X7: for a run of fewer than 2^63 iterations, the sequence number that
    the next [zstep] is handed is the number of instructions retired so
    far: a step that does not execute is retried under the same number. *)
Theorem step_no_counts_retired (b : bool) (fuel : nat) (w0 w : world R S)
    (step_no insn_cnt : Z) :
  Z.of_nat fuel < 2 ^ 63 ->
  run_loop b fuel 0 0 w0 = Running step_no insn_cnt w ->
  step_no = delta is_retired w0 w /\ 0 <= step_no <= Z.of_nat fuel.
Proof.
  intros Hf Hrun.
  pose proof (step_no_from b fuel 0 0 0 w0 ltac:(lia) ltac:(lia)) as H.
  rewrite Hrun in H. lia.
Qed.


(** *** Completion *)

(** The iteration in which the model reports done, and the oracle with
    it: the loop body is gone through to its end. *)
Lemma loop_iter_completes (b : bool) (step_no insn_cnt : Z) (w : world R S) :
  zhtif_done (sail w) = false ->
  have_exception (snd (zstep (plat w) step_no (sail w))) = false ->
  zhtif_done (snd (zstep (plat w) step_no (sail w))) = true ->
  (b = true ->
   tv_is_done (tv_step (spike w)) = true
   /\ fst (compare_states true (tv_step (spike w))
             (snd (zstep (plat w) step_no (sail w)))) <> 0) ->
  exists step_no' insn_cnt' w1,
    loop_iter b step_no insn_cnt w = Running step_no' insn_cnt' w1
    /\ (sail w1 = snd (zstep (plat w) step_no (sail w))
        \/ sail w1 = ztick_platform (plat w)
                       (ztick_clock (plat w) (snd (zstep (plat w) step_no (sail w))))).
Proof.
  intros Hrun Hexn Hdone Hb.
  unfold loop_iter, spike_part, loop_tail, tick_spike, flush_logs. rewrite Hrun.
  cbn [fst snd sail emit set_sail set_spike plat spike trace].
  rewrite Hexn.
  cbn [fst snd sail emit set_sail set_spike plat spike trace].
  destruct b.
  - destruct (Hb eq_refl) as [Hsd Hcmp]. rewrite Hdone, Hsd. cbn [negb].
    apply Z.eqb_neq in Hcmp. rewrite Hcmp.
    cbn [fst snd sail emit set_sail set_spike plat spike trace].
    rewrite Hdone.
    destruct (zhtif_exit_code _ =? 0);
      cbn [fst snd sail emit set_sail set_spike plat spike trace];
      destruct (to_uint64 _ =? _); do 3 eexists; (split; [reflexivity|]);
      cbn [fst snd sail emit set_sail set_spike plat spike trace]; tauto.
  - rewrite Hdone.
    destruct (zhtif_exit_code _ =? 0);
      cbn [fst snd sail emit set_sail set_spike plat spike trace];
      destruct (to_uint64 _ =? _); do 3 eexists; (split; [reflexivity|]);
      cbn [fst snd sail emit set_sail set_spike plat spike trace]; tauto.
Qed.

(** X22: when a run has come through [n] iterations and in the next one
    the model reports done without an exception and, in the build with
    the oracle, the oracle reports done too and [compare_states] passes,
    the run ends with the exit status 0 whatever the exit code of the
    program, with the oracle as without: the trace gains the steps, the
    checks, SUCCESS for the exit code 0 and FAILURE with the code
    otherwise, the tick if one is due, and the release of the engines.
    (A tick is taken not to undo the model's done.) *)
Theorem agreed_completion_exits_0 (b : bool) (n fuel : nat)
    (w0 w : world R S) (step_no insn_cnt : Z) :
  run_loop b n 0 0 w0 = Running step_no insn_cnt w ->
  zhtif_done (sail w) = false ->
  have_exception (snd (zstep (plat w) step_no (sail w))) = false ->
  zhtif_done (snd (zstep (plat w) step_no (sail w))) = true ->
  (b = true ->
   tv_is_done (tv_step (spike w)) = true
   /\ fst (compare_states true (tv_step (spike w))
             (snd (zstep (plat w) step_no (sail w)))) <> 0) ->
  (forall p m, zhtif_done m = true ->
               zhtif_done (ztick_platform p (ztick_clock p m)) = true) ->
  (n + 1 < fuel)%nat ->
  let r := zstep (plat w) step_no (sail w) in
  let cnt := if fst r then to_int32 (insn_cnt + 1) else insn_cnt in
  exists w',
    run_sail b fuel w0 = Some (0, w')
    /\ trace w' =
       trace w ++
       SailStep step_no (fst r) :: FlushLogs ::
       (if b then SpikeStep :: FlushLogs ::
                  snd (compare_states true (tv_step (spike w)) (snd r))
        else []) ++
       [Print (if zhtif_exit_code (snd r) =? 0 then SUCCESS
               else FAILURE (zhtif_exit_code (snd r)))] ++
       (if to_uint64 cnt =? rv_insns_per_tick (plat w) then tick_events b else []) ++
       ModelFini :: (if b then [TvFree] else []).
Proof.
  intros Hn Hrun Hexn Hdone Hb Htick Hlt r cnt.
  destruct (loop_iter_completes b step_no insn_cnt w Hrun Hexn Hdone Hb)
    as (s' & c' & w1 & Hit & Hsail).
  assert (Hdone1 : zhtif_done (sail w1) = true).
  { destruct Hsail as [-> | ->]; [exact Hdone|by apply Htick]. }
  pose proof (loop_iter_running b step_no insn_cnt w s' c' w1 Hit) as Hshape.
  cbv zeta in Hshape. destruct Hshape as (_ & _ & _ & Htr).
  rewrite Hdone in Htr.
  assert (Hn1 : run_loop b (n + 1) 0 0 w0 = Running s' c' w1).
  { rewrite run_loop_add, Hn. simpl. by rewrite Hit. }
  assert (Hend : loop_iter b s' c' w1 = Stopped LoopEnd w1)
    by (unfold loop_iter; by rewrite Hdone1).
  unfold run_sail.
  rewrite (run_loop_next b (n + 1) fuel w0 w1 _ _ _ _ Hn1 Hend Hlt).
  eexists. split; [reflexivity|].
  unfold finish. cbn [snd Z.b2z].
  subst r cnt.
  destruct b; cbn [emit trace]; rewrite Htr; cbn [app];
    rewrite <- ?app_assoc; cbn [app]; rewrite <- ?app_assoc; reflexivity.
Qed.


(** ** The boot image *)

Lemma to_uint8_char (b : Z) : is_byte b -> to_uint8 (to_uint64 (as_char b)) = b.
Proof.
  unfold is_byte, to_uint8, to_uint64, as_char. intros Hb.
  destruct (Z.ltb_spec b 128); Z.div_mod_to_equations; lia.
Qed.

Lemma to_uint8_byte (b : Z) : is_byte b -> to_uint8 b = b.
Proof. unfold is_byte, to_uint8. intros Hb. apply Z.mod_small. lia. Qed.

(** A run of [write_mem(addr++, v)] over the values [vals]: where the
    cursor ends, what memory holds afterwards, and that nothing else of
    the process changes. *)
Lemma put_fold (vals : list Z) (addr : Z) (w : world R S) :
  0 <= addr -> addr + Z.of_nat (length vals) < 2 ^ 64 ->
  let c := fold_left put vals (addr, w) in
  fst c = addr + Z.of_nat (length vals)
  /\ plat (snd c) = plat w /\ trace (snd c) = trace w
  /\ spike (snd c) = spike w
  /\ dtb (snd c) = dtb w /\ spike_dtb (snd c) = spike_dtb w
  /\ zPC (sail (snd c)) = zPC (sail w)
  /\ (forall a,
        mem (sail (snd c)) !! a =
        if decide (addr <= a < addr + Z.of_nat (length vals))
        then Some (to_uint8 (nth (Z.to_nat (a - addr)) vals 0))
        else mem (sail w) !! a).
Proof.
  revert addr w. induction vals as [|v vals IH]; intros addr w Ha Hlen.
  - cbn. rewrite Z.add_0_r. repeat split. intros a.
    destruct (decide _); [lia|done].
  - cbn [fold_left]. cbn [length] in *.
    assert (Hw : to_uint64 (addr + 1) = addr + 1)
      by (unfold to_uint64; apply Z.mod_small; lia).
    assert (Hput : put (addr, w) v
                   = (addr + 1, set_sail (write_mem addr v (sail w)) w))
      by (unfold put; cbn [fst snd]; by rewrite Hw).
    rewrite Hput.
    destruct (IH (addr + 1) (set_sail (write_mem addr v (sail w)) w))
      as (H1 & H2 & H3 & H4 & H5 & H6 & H7 & H8); [lia|lia|].
    cbv zeta. rewrite H1, H2, H3, H4, H5, H6, H7.
    repeat split; [lia|].
    intros a. rewrite H8. cbn [sail set_sail write_mem set_mem mem].
    destruct (decide (addr + 1 <= a < addr + 1 + Z.of_nat (length vals))) as [Hin|Hout].
    + destruct (decide _) as [_|Hn]; [|lia].
      replace (Z.to_nat (a - addr)) with (Datatypes.S (Z.to_nat (a - (addr + 1)))) by lia.
      reflexivity.
    + destruct (decide (addr <= a < addr + Z.of_nat (Datatypes.S (length vals))))
        as [Hin|Hout'].
      * assert (a = addr) as -> by lia.
        rewrite lookup_insert_eq, Z.sub_diag. reflexivity.
      * rewrite lookup_insert_ne by lia. reflexivity.
Qed.


Lemma put_fold_trace (vals : list Z) (c : Z * world R S) :
  trace (snd (fold_left put vals c)) = trace (snd c)
  /\ plat (snd (fold_left put vals c)) = plat (snd c)
  /\ spike (snd (fold_left put vals c)) = spike (snd c).
Proof.
  revert c. induction vals as [|v vals IH]; intros c; [done|].
  cbn [fold_left]. destruct (IH (put c v)) as (-> & -> & ->). done.
Qed.

(** The same run of writes, in terms of what memory holds: the bytes
    written are there, and what was held below the cursor still is. *)
Lemma put_fold_holds (vals bs : list Z) (addr : Z) (w : world R S) :
  0 <= addr -> addr + Z.of_nat (length vals) < 2 ^ 64 ->
  map to_uint8 vals = bs ->
  let c := fold_left put vals (addr, w) in
  mem_holds (mem (sail (snd c))) addr bs
  /\ (forall a0 bs0, a0 + Z.of_nat (length bs0) <= addr ->
        mem_holds (mem (sail w)) a0 bs0 ->
        mem_holds (mem (sail (snd c))) a0 bs0).
Proof.
  intros Ha Hlen <-. cbv zeta.
  destruct (put_fold vals addr w Ha Hlen) as (_ & _ & _ & _ & _ & _ & _ & Hm).
  split.
  - intros i Hi. rewrite length_map in Hi. rewrite Hm.
    destruct (decide _) as [_|Hn]; [|lia].
    replace (Z.to_nat (addr + Z.of_nat i - addr)) with i by lia.
    change (nth i (map to_uint8 vals) 0)
      with (nth i (map to_uint8 vals) (to_uint8 0)).
    by rewrite map_nth.
  - intros a0 bs0 Hle Hold i Hi. rewrite Hm.
    destruct (decide _) as [Hin|_]; [lia|]. by apply Hold.
Qed.

Lemma land_ff (x : Z) : Z.land x 0xff = x mod 2 ^ 8.
Proof. change 0xff with (Z.ones 8). apply Z.land_ones. lia. Qed.

Lemma le_bytes32_bytes (w : Z) : Forall is_byte (le_bytes32 w).
Proof.
  unfold le_bytes32, is_byte.
  repeat constructor; rewrite land_ff; apply Z.mod_pos_bound; lia.
Qed.

Lemma reset_vec_bytes_bytes (xlen entry : Z) :
  Forall is_byte (reset_vec_bytes xlen entry).
Proof.
  unfold reset_vec_bytes. induction (reset_vec xlen entry) as [|x l IH]; cbn [flat_map].
  - constructor.
  - apply Forall_app. split; [apply le_bytes32_bytes|exact IH].
Qed.

Lemma reset_vec_bytes_length (xlen entry : Z) :
  length (reset_vec_bytes xlen entry) = 32%nat.
Proof. reflexivity. Qed.

Lemma map_char_bytes (bs : list Z) :
  Forall is_byte bs ->
  map to_uint8 (map (fun b => to_uint64 (as_char b)) bs) = bs.
Proof.
  induction 1 as [|b bs Hb _ IH]; cbn [map]; [done|].
  by rewrite to_uint8_char, IH.
Qed.

Lemma map_uint8_bytes (bs : list Z) : Forall is_byte bs -> map to_uint8 bs = bs.
Proof.
  induction 1 as [|b bs Hb _ IH]; cbn [map]; [done|].
  by rewrite to_uint8_byte, IH.
Qed.

Lemma lor_shiftl_add (a b k : Z) :
  0 <= k -> 0 <= a < 2 ^ k -> Z.lor a (Z.shiftl b k) = a + b * 2 ^ k.
Proof.
  intros Hk Ha.
  assert (Hl : Z.land a (Z.shiftl b k) = 0).
  { apply Z.bits_inj'. intros n Hn.
    rewrite Z.land_spec, Z.bits_0.
    destruct (Z.lt_ge_cases n k).
    - rewrite Z.shiftl_spec_low by lia. apply andb_false_r.
    - rewrite <- (Z.mod_small a (2 ^ k)) by lia.
      rewrite Z.mod_pow2_bits_high by lia. reflexivity. }
  pose proof (Z.add_lor_land a (Z.shiftl b k)) as Hadd.
  rewrite Hl in Hadd. rewrite (Z.shiftl_mul_pow2 b k) in * by lia. lia.
Qed.

(** Four bytes in memory order make the word they were taken from. *)
Lemma read32_le_bytes32 (m : gmap Z Z) (a w : Z) :
  0 <= w < 2 ^ 32 ->
  mem_holds m a (le_bytes32 w) ->
  read32 m a = w.
Proof.
  intros Hw Hm. unfold read32, read_byte.
  pose proof (Hm 0%nat ltac:(cbn; lia)) as H0.
  pose proof (Hm 1%nat ltac:(cbn; lia)) as H1.
  pose proof (Hm 2%nat ltac:(cbn; lia)) as H2.
  pose proof (Hm 3%nat ltac:(cbn; lia)) as H3.
  cbn [nth le_bytes32] in H0, H1, H2, H3.
  change (Z.of_nat 0) with 0 in H0. rewrite Z.add_0_r in H0.
  change (Z.of_nat 1) with 1 in H1. change (Z.of_nat 2) with 2 in H2.
  change (Z.of_nat 3) with 3 in H3.
  rewrite H0, H1, H2, H3. cbn [default from_option]. unfold id.
  rewrite !land_ff, !Z.shiftr_div_pow2 by lia.
  change (2 ^ 8) with 256. change (2 ^ 16) with 65536.
  change (2 ^ 24) with 16777216. change (2 ^ 32) with 4294967296 in Hw.
  pose proof (Z.mod_pos_bound w 256 ltac:(lia)) as B0.
  pose proof (Z.mod_pos_bound (w / 256) 256 ltac:(lia)) as B1.
  pose proof (Z.mod_pos_bound (w / 65536) 256 ltac:(lia)) as B2.
  pose proof (Z.mod_pos_bound (w / 16777216) 256 ltac:(lia)) as B3.
  rewrite !lor_shiftl_add by (change (2 ^ 8) with 256; lia).
  change (2 ^ 8) with 256.
  Z.div_mod_to_equations. lia.
Qed.

(** The two words of the reset vector that hold the entry address. *)
Lemma entry_words (entry : Z) :
  0 <= entry < 2 ^ 64 ->
  let low := to_uint32 (Z.land entry 0xffffffff) in
  let high := to_uint32 (Z.shiftr entry 32) in
  0 <= low < 2 ^ 32 /\ 0 <= high < 2 ^ 32
  /\ low = Z.land entry 0xffffffff /\ high = Z.shiftr entry 32
  /\ Z.lor low (Z.shiftl high 32) = entry.
Proof.
  intros He. cbv zeta. unfold to_uint32.
  change 0xffffffff with (Z.ones 32).
  rewrite Z.land_ones, Z.shiftr_div_pow2 by lia.
  rewrite Z.mod_mod by lia.
  assert (H1 : 0 <= entry mod 2 ^ 32 < 2 ^ 32) by (apply Z.mod_pos_bound; lia).
  assert (H2 : 0 <= entry / 2 ^ 32 < 2 ^ 32)
    by (split; [apply Z.div_pos; lia | apply Z.div_lt_upper_bound; lia]).
  rewrite (Z.mod_small (entry / 2 ^ 32)) by lia.
  repeat split; try lia.
  rewrite lor_shiftl_add by lia.
  pose proof (Z.div_mod entry (2 ^ 32)). lia.
Qed.


Lemma mem_holds_app (m : gmap Z Z) (a : Z) (l1 l2 : list Z) :
  mem_holds m a (l1 ++ l2)
  <-> mem_holds m a l1 /\ mem_holds m (a + Z.of_nat (length l1)) l2.
Proof.
  unfold mem_holds. split.
  - intros H. split.
    + intros i Hi. rewrite H by (rewrite length_app; lia).
      by rewrite app_nth1.
    + intros i Hi.
      specialize (H (length l1 + i)%nat ltac:(rewrite length_app; lia)).
      rewrite app_nth2_plus in H. rewrite <- H. f_equal. lia.
  - intros [H1 H2] i Hi. rewrite length_app in Hi.
    destruct (Nat.lt_ge_cases i (length l1)) as [Hlt|Hge].
    + rewrite app_nth1 by done. by apply H1.
    + rewrite app_nth2 by done.
      rewrite <- H2 by lia. f_equal. lia.
Qed.

Lemma image_at_start (base : Z) (w : world R S) : image_at (base, w) w base [].
Proof.
  unfold image_at. cbn. rewrite Z.add_0_r. repeat split.
  intros i Hi. cbn in Hi. lia.
Qed.

Lemma image_at_put (c : Z * world R S) (w : world R S) (base : Z)
    (bs vals new : list Z) :
  image_at c w base bs ->
  0 <= base -> base + Z.of_nat (length bs) + Z.of_nat (length vals) < 2 ^ 64 ->
  map to_uint8 vals = new ->
  image_at (fold_left put vals c) w base (bs ++ new).
Proof.
  intros (Hc & Hpl & Hsp & Hd & Hsd & Hpc & Hm) Hb Hlen Hnew.
  destruct c as [addr w1]. cbn [fst snd] in *. subst addr.
  destruct (put_fold vals (base + Z.of_nat (length bs)) w1)
    as (H1 & H2 & _ & H4 & H5 & H6 & H7 & _); [lia|lia|].
  destruct (put_fold_holds vals new (base + Z.of_nat (length bs)) w1)
    as (Hnewm & Hold); [lia|lia|done|].
  unfold image_at. rewrite H1, H2, H4, H5, H6, H7.
  repeat split; try done.
  - rewrite length_app. subst new. rewrite length_map. lia.
  - apply mem_holds_app. split; [|exact Hnewm].
    apply Hold; [lia|exact Hm].
Qed.

Lemma image_at_emit (c : Z * world R S) (w : world R S) (base : Z)
    (bs : list Z) (evs : list event) :
  image_at c w base bs -> image_at (fst c, emit evs (snd c)) w base bs.
Proof. intros H. exact H. Qed.

Lemma fold_andb {A : Type} (f : A -> bool) (l : list A) (init : bool) :
  fold_left (fun m i => m && f i) l init = init && forallb f l.
Proof.
  revert init. induction l as [|x l IH]; intros init; cbn.
  - by rewrite andb_true_r.
  - rewrite IH. by rewrite andb_assoc.
Qed.

(** The byte loop of the DTB check finds the two buffers equal exactly
    when they are. *)
Lemma dtb_bytes_match_eq (a b : list Z) :
  length a = length b ->
  dtb_bytes_match a b true = true <-> a = b.
Proof.
  intros Hlen. unfold dtb_bytes_match. rewrite fold_andb, andb_true_l.
  rewrite forallb_forall. split.
  - intros H. apply (nth_ext _ _ 0 0 Hlen). intros i Hi.
    apply Z.eqb_eq, H, in_seq. lia.
  - intros -> i _. apply Z.eqb_refl.
Qed.

Lemma dtb_len_buffer (w : world R S) :
  dtb_len w = Z.of_nat (length (buffer (dtb w))).
Proof. unfold dtb_len. by destruct (dtb w). Qed.

Lemma spike_dtb_len_buffer (w : world R S) :
  spike_dtb_len w = Z.of_nat (length (buffer (spike_dtb w))).
Proof. unfold spike_dtb_len. by destruct (spike_dtb w). Qed.

(** The whole check: lengths first, then bytes. *)
Lemma dtb_check_eq (w : world R S) :
  (let matched := dtb_len w =? spike_dtb_len w in
   if matched
   then dtb_bytes_match (buffer (dtb w)) (buffer (spike_dtb w)) matched
   else matched) = true
  <-> buffer (dtb w) = buffer (spike_dtb w).
Proof.
  cbv zeta. rewrite dtb_len_buffer, spike_dtb_len_buffer.
  destruct (Z.eqb_spec (Z.of_nat (length (buffer (dtb w))))
              (Z.of_nat (length (buffer (spike_dtb w))))) as [Heq|Hne].
  - apply dtb_bytes_match_eq. lia.
  - split; [done|]. intros Heq. rewrite Heq in Hne. done.
Qed.


(** The reset vector and the user's device tree, as [place_rom_image]
    writes them before it looks at the oracle's device tree. *)
Lemma vector_and_user_dtb (base xlen entry : Z) (w1 : world R S) :
  0 <= base ->
  base + 32 + Z.of_nat (length (buffer (dtb w1))) < 2 ^ 64 ->
  Forall is_byte (buffer (dtb w1)) ->
  let c := fold_left put
             (map (fun b => to_uint64 (as_char b)) (reset_vec_bytes xlen entry))
             (base, w1) in
  let c := if dtb_given w1 then fold_left put (buffer (dtb w1)) c else c in
  image_at c w1 base
    (reset_vec_bytes xlen entry ++ (if dtb_given w1 then buffer (dtb w1) else [])).
Proof.
  intros Hb Hlen Hbytes. cbv zeta.
  assert (I1 : image_at
                 (fold_left put
                    (map (fun b => to_uint64 (as_char b)) (reset_vec_bytes xlen entry))
                    (base, w1)) w1 base (reset_vec_bytes xlen entry)).
  { apply (image_at_put (base, w1) w1 base [] _ _ (image_at_start base w1) Hb).
    - rewrite length_map, reset_vec_bytes_length. cbn [length]. lia.
    - apply map_char_bytes, reset_vec_bytes_bytes. }
  destruct (dtb_given w1).
  - apply (image_at_put _ w1 base _ _ _ I1 Hb).
    + rewrite reset_vec_bytes_length. lia.
    + by apply map_uint8_bytes.
  - by rewrite app_nil_r.
Qed.

Lemma dtb_not_given (w : world R S) :
  dtb_given w = false -> buffer (dtb w) = [].
Proof.
  unfold dtb_given, dtb_len. destruct (dtb w) as [[|x l]|]; try done.
Qed.

Lemma place_rom_image_ret (SPIKE : bool) (base xlen entry : Z) (w : world R S) :
  let d := rom_dtb SPIKE w in
  let w1 := set_plat (Platform base (rv_rom_size (plat w))
                        (rv_insns_per_tick (plat w))) w in
  0 <= base ->
  base + 32 + Z.of_nat (length d) < 2 ^ 64 ->
  Forall is_byte d ->
  (SPIKE = true -> dtb_given w = true -> buffer (dtb w) = buffer (spike_dtb w)) ->
  exists c,
    place_rom_image SPIKE base xlen entry w = Ret c
    /\ image_at c w1 base (reset_vec_bytes xlen entry ++ d)
    /\ trace (snd c) =
       trace w ++ (if SPIKE && negb (dtb_given w) && negb (0 <? spike_dtb_len w)
                   then [Print NoRomDeviceTree] else []).
Proof.
  intros d w1 Hb Hlen Hbytes Hmatch.
  assert (Hu : base + 32 + Z.of_nat (length (buffer (dtb w1))) < 2 ^ 64
               /\ Forall is_byte (buffer (dtb w1))).
  { change (dtb w1) with (dtb w). subst d. unfold rom_dtb in *.
    destruct (dtb_given w) eqn:Hg; [done|].
    rewrite (dtb_not_given w Hg). cbn [length]. split; [lia|constructor]. }
  destruct Hu as [Hu1 Hu2].
  pose proof (vector_and_user_dtb base xlen entry w1 Hb Hu1 Hu2) as I2.
  cbv zeta in I2.
  assert (Htr : forall l c, trace (snd (fold_left put l c)) = trace (snd c))
    by (intros l c; apply put_fold_trace).
  unfold place_rom_image. fold w1.
  change (rv_rom_base (plat w1)) with base.
  set (c2 := if dtb_given w1 then _ else _) in *.
  assert (Htr2 : trace (snd c2) = trace w).
  { subst c2. destruct (dtb_given w1); rewrite ?Htr; reflexivity. }
  clearbody c2.
  change (dtb_given w1) with (dtb_given w) in *.
  change (spike_dtb_len w1) with (spike_dtb_len w) in *.
  change (spike_dtb w1) with (spike_dtb w) in *.
  change (dtb w1) with (dtb w) in *.
  subst d. unfold rom_dtb in *.
  destruct SPIKE; cbn [andb].
  - destruct (dtb_given w) eqn:Hg; cbn [negb].
    + pose proof (proj2 (dtb_check_eq w) (Hmatch eq_refl eq_refl)) as Hm.
      cbv zeta in Hm. change (dtb_len w1) with (dtb_len w). rewrite Hm.
      cbn [negb]. exists c2. rewrite Htr2, app_nil_r. auto.
    + destruct (0 <? spike_dtb_len w) eqn:Hs; cbn [negb].
      * eexists. split; [reflexivity|]. rewrite Htr, Htr2, app_nil_r.
        split; [|done]. cbn [andb] in Hlen, Hbytes. rewrite ?Hs in Hlen, Hbytes.
        apply (image_at_put _ w1 base _ _ _ I2 Hb).
        -- rewrite length_app, reset_vec_bytes_length. cbn [length]. lia.
        -- by apply map_uint8_bytes.
      * eexists. split; [reflexivity|]. cbn [snd emit trace].
        rewrite Htr2. split; [|done]. exact I2.
  - exists c2. rewrite Htr2, app_nil_r. split; [done|].
    split; [|done]. destruct (dtb_given w); exact I2.
Qed.

Lemma to_uint64_small (z : Z) : 0 <= z < 2 ^ 64 -> to_uint64 z = z.
Proof. intros Hz. unfold to_uint64. by apply Z.mod_small. Qed.

Lemma page_up_bounds (a : Z) :
  a <= page_up a < a + 0x1000 /\ page_up a mod 0x1000 = 0.
Proof. unfold page_up. Z.div_mod_to_equations. lia. Qed.

Lemma repeat_zero_bytes (n : nat) : map to_uint8 (repeat 0 n) = repeat 0 n.
Proof. induction n as [|n IH]; cbn [repeat map]; [done|]. by rewrite IH. Qed.

(** The second half of the builder, on a cursor behind the image [bs]. *)
Lemma pad_rom_spec (c : Z * world R S) (w1 : world R S) (base : Z) (bs : list Z) :
  image_at c w1 base bs ->
  rv_rom_base (plat w1) = base ->
  0 <= base ->
  let image_end := base + Z.of_nat (length bs) in
  image_end + 0x1000 <= 2 ^ 31 ->
  let w' := pad_rom c in
  let rom_end := page_up image_end in
  mem_holds (mem (sail w')) base (bs ++ repeat 0 (Z.to_nat (rom_end - image_end)))
  /\ rv_rom_base (plat w') = rv_rom_base (plat w1)
  /\ rv_rom_size (plat w') = rom_end - rv_rom_base (plat w1)
  /\ rv_insns_per_tick (plat w') = rv_insns_per_tick (plat w1)
  /\ zPC (sail w') = rv_rom_base (plat w1)
  /\ spike w' = spike w1
  /\ trace w' = trace (snd c).
Proof.
  intros I Hrb Hb image_end Hsz. cbv zeta.
  pose proof (page_up_bounds image_end) as (Hpu & _).
  assert (Hc : fst c = image_end) by (destruct I as (-> & _); done).
  assert (Hre : to_uint64 (to_uint64 (fst c + 0x1000 - 1) / 0x1000 * 0x1000)
                = page_up image_end).
  { rewrite Hc. unfold page_up in *.
    replace (image_end + 4096 - 1) with (image_end + 4095) by lia.
    rewrite (to_uint64_small (image_end + 4095)) by lia.
    apply to_uint64_small. lia. }
  assert (Hi : to_uint64 (to_int32 (fst c)) = image_end).
  { rewrite Hc. unfold to_int32. rewrite Z.mod_small by lia.
    replace (image_end + 2 ^ 31 - 2 ^ 31) with image_end by lia.
    apply to_uint64_small. lia. }
  unfold pad_rom. rewrite Hre, Hi.
  set (n := if image_end <? page_up image_end
            then page_up image_end - image_end else 0).
  assert (Hn : n = page_up image_end - image_end)
    by (subst n; destruct (Z.ltb_spec image_end (page_up image_end)); lia).
  rewrite Hn.
  pose proof (image_at_put c w1 base bs
                (repeat 0 (Z.to_nat (page_up image_end - image_end)))
                (repeat 0 (Z.to_nat (page_up image_end - image_end)))
                I Hb) as I4.
  rewrite repeat_length in I4.
  specialize (I4 ltac:(fold image_end; lia) (repeat_zero_bytes _)).
  destruct (put_fold_trace (repeat 0 (Z.to_nat (page_up image_end - image_end))) c)
    as (Htr & _ & _).
  destruct I4 as (_ & Hpl & Hsp & _ & _ & _ & Hm).
  cbn [set_sail set_plat set_zPC plat sail spike trace mem zPC
       rv_rom_base rv_rom_size rv_insns_per_tick].
  rewrite Hpl, Hsp, Htr.
  repeat split; try done.
  apply to_uint64_small. rewrite Hrb. lia.
Qed.

Lemma reset_vec_bytes_entry (xlen entry : Z) :
  reset_vec_bytes xlen entry =
  flat_map le_bytes32 (firstn 6 (reset_vec xlen entry))
  ++ le_bytes32 (to_uint32 (Z.land entry 0xffffffff))
  ++ le_bytes32 (to_uint32 (Z.shiftr entry 32)).
Proof. reflexivity. Qed.

(** C8: for an entry address [entry] and a device tree [d] (the user's
    or, failing that, the oracle's; possibly none) that passes the DTB
    check, with the image ending below 2^31, [init_sail_reset_vector]
    returns with guest memory holding, from the ROM base on, the 32 bytes
    of the reset vector, whose words 6 and 7 (offsets 24 and 28) are the
    low and the high half of [entry], then the bytes of [d], then zeros up
    to the next page boundary; [rv_rom_size] is the distance from the base
    to that boundary and [zPC] is the base. *)
Theorem boot_image_layout (SPIKE : bool) (base xlen entry : Z) (w : world R S) :
  let d := rom_dtb SPIKE w in
  let image_end := base + 32 + Z.of_nat (length d) in
  0 <= entry < 2 ^ 64 ->
  0 <= base ->
  image_end + 0x1000 <= 2 ^ 31 ->
  Forall is_byte d ->
  (SPIKE = true -> dtb_given w = true -> buffer (dtb w) = buffer (spike_dtb w)) ->
  exists w',
    init_sail_reset_vector SPIKE base xlen entry w = Ret w'
    /\ let m := mem (sail w') in
       let rom_end := page_up image_end in
       mem_holds m base (reset_vec_bytes xlen entry)
       /\ length (reset_vec_bytes xlen entry) = 32%nat
       /\ read32 m (base + 24) = Z.land entry 0xffffffff
       /\ read32 m (base + 28) = Z.shiftr entry 32
       /\ Z.lor (read32 m (base + 24)) (Z.shiftl (read32 m (base + 28)) 32) = entry
       /\ mem_holds m (base + 32) d
       /\ mem_holds m image_end (repeat 0 (Z.to_nat (rom_end - image_end)))
       /\ image_end <= rom_end < image_end + 0x1000
       /\ rom_end mod 0x1000 = 0
       /\ rv_rom_base (plat w') = base
       /\ rv_rom_size (plat w') = rom_end - base
       /\ zPC (sail w') = base.
Proof.
  intros d image_end He Hb Hsz Hbytes Hmatch.
  destruct (place_rom_image_ret SPIKE base xlen entry w Hb
              ltac:(fold d; lia) Hbytes Hmatch) as (c & Hret & I & _).
  fold d in I.
  unfold init_sail_reset_vector. rewrite Hret. eexists. split; [reflexivity|].
  set (w1 := set_plat _ w) in I.
  assert (Hlen : base + Z.of_nat (length (reset_vec_bytes xlen entry ++ d))
                 = image_end).
  { rewrite length_app, reset_vec_bytes_length. subst image_end. lia. }
  destruct (pad_rom_spec c w1 base _ I eq_refl Hb)
    as (Hm & Hrb & Hrs & _ & Hpc & _); [rewrite Hlen; lia|].
  rewrite Hlen in *. change (rv_rom_base (plat w1)) with base in *.
  cbv zeta. rewrite <- app_assoc in Hm.
  apply mem_holds_app in Hm. destruct Hm as [Hvec Hm].
  apply mem_holds_app in Hm. destruct Hm as [Hd Hz].
  rewrite reset_vec_bytes_length in Hd, Hz.
  replace (base + Z.of_nat 32 + Z.of_nat (length d)) with image_end in Hz
    by (subst image_end; lia).
  change (Z.of_nat 32) with 32 in Hd.
  destruct (entry_words entry He) as (Hlo & Hhi & Elo & Ehi & Eentry).
  cbv zeta in *.
  pose proof Hvec as Hvec'. rewrite reset_vec_bytes_entry in Hvec'.
  apply mem_holds_app in Hvec'. destruct Hvec' as [_ Hw67].
  change (Z.of_nat (length (flat_map le_bytes32 (firstn 6 (reset_vec xlen entry)))))
    with 24 in Hw67.
  apply mem_holds_app in Hw67. destruct Hw67 as [Hw6 Hw7].
  change (Z.of_nat (length (le_bytes32 (to_uint32 (Z.land entry 0xffffffff)))))
    with 4 in Hw7.
  replace (base + 24 + 4) with (base + 28) in Hw7 by lia.
  apply read32_le_bytes32 in Hw6; [|exact Hlo].
  apply read32_le_bytes32 in Hw7; [|exact Hhi].
  pose proof (page_up_bounds image_end) as (Hpu & Hmod).
  rewrite Hw6, Hw7.
  repeat split; try done; try lia.
Qed.

Lemma place_rom_image_exit (base xlen entry : Z) (w : world R S) :
  dtb_given w = true ->
  buffer (dtb w) <> buffer (spike_dtb w) ->
  let w1 := set_plat (Platform base (rv_rom_size (plat w))
                        (rv_insns_per_tick (plat w))) w in
  let c := fold_left put (buffer (dtb w))
             (fold_left put
                (map (fun b => to_uint64 (as_char b)) (reset_vec_bytes xlen entry))
                (base, w1)) in
  place_rom_image true base xlen entry w
  = Exited 1 (fst c, emit [Print DtbMismatch] (snd c)).
Proof.
  intros Hg Hne. cbv zeta. unfold place_rom_image.
  set (w1 := set_plat _ w).
  change (dtb_given w1) with (dtb_given w). rewrite Hg.
  change (dtb_len w1) with (dtb_len w).
  change (spike_dtb_len w1) with (spike_dtb_len w).
  change (spike_dtb w1) with (spike_dtb w). change (dtb w1) with (dtb w).
  pose proof (dtb_check_eq w) as Hchk. cbv zeta in Hchk.
  destruct (if dtb_len w =? spike_dtb_len w then _ else _).
  - exfalso. apply Hne. by apply Hchk.
  - reflexivity.
Qed.

Lemma dtb_given_some (w : world R S) (user : list Z) :
  dtb w = Some user -> user <> [] -> dtb_given w = true /\ buffer (dtb w) = user.
Proof.
  intros Hd Hne. unfold dtb_given, dtb_len. rewrite Hd. split; [|done].
  destruct user; [done|]. cbn [length]. apply negb_true_iff, Z.eqb_neq. lia.
Qed.

(** C10: when the user's device tree differs from the oracle's,
    [init_sail_reset_vector] leaves by [exit(1)] with guest memory already
    holding, from the ROM base on, the reset vector followed by the whole
    of the user's device tree: the writes come before the check. *)
Theorem dtb_mismatch_after_writes (base xlen entry : Z) (w : world R S)
    (user oracle : list Z) :
  dtb w = Some user -> user <> [] ->
  spike_dtb w = Some oracle ->
  user <> oracle ->
  0 <= base -> base + 32 + Z.of_nat (length user) < 2 ^ 64 ->
  Forall is_byte user ->
  exists w',
    init_sail_reset_vector true base xlen entry w = Exited 1 w'
    /\ mem_holds (mem (sail w')) base (reset_vec_bytes xlen entry)
    /\ mem_holds (mem (sail w')) (base + 32) user
    /\ trace w' = trace w ++ [Print DtbMismatch].
Proof.
  intros Hd Hne Hs Hdiff Hb Hlen Hbytes.
  destruct (dtb_given_some w user Hd Hne) as [Hg Hbuf].
  assert (Hne' : buffer (dtb w) <> buffer (spike_dtb w)) by (rewrite Hbuf, Hs; done).
  unfold init_sail_reset_vector.
  rewrite (place_rom_image_exit base xlen entry w Hg Hne').
  eexists. split; [reflexivity|]. cbn [snd emit sail trace].
  set (w1 := set_plat _ w).
  pose proof (vector_and_user_dtb base xlen entry w1 Hb) as I.
  change (dtb w1) with (dtb w) in I. change (dtb_given w1) with (dtb_given w) in I.
  rewrite Hg, Hbuf in I. specialize (I Hlen Hbytes). cbv zeta in I.
  rewrite Hbuf.
  destruct I as (_ & _ & _ & _ & _ & _ & Hm).
  apply mem_holds_app in Hm. rewrite reset_vec_bytes_length in Hm.
  destruct Hm as [Hv Hu]. split; [exact Hv|]. split; [exact Hu|].
  destruct (put_fold_trace user
              (fold_left put
                 (map (fun b => to_uint64 (as_char b)) (reset_vec_bytes xlen entry))
                 (base, w1))) as (-> & _).
  destruct (put_fold_trace
              (map (fun b => to_uint64 (as_char b)) (reset_vec_bytes xlen entry))
              (base, w1)) as (-> & _).
  reflexivity.
Qed.

(** C4: in the build with the oracle, when the user's device tree and the
    oracle's both exist and differ (in length or in a byte), the process
    exits with status 1 from [init_sail], with the DTB message as the only
    addition to the trace: no step of either engine has been made. *)
Theorem dtb_mismatch_is_fatal (base xlen entry : Z) (fuel : nat) (w : world R S)
    (user oracle : list Z) :
  dtb w = Some user -> user <> [] ->
  spike_dtb w = Some oracle ->
  user <> oracle ->
  exists w',
    main_from_init_sail true base xlen entry fuel w = Some (1, w')
    /\ trace w' = trace w ++ [Print DtbMismatch]
    /\ count is_step (trace w') = count is_step (trace w).
Proof.
  intros Hd Hne Hs Hdiff.
  unfold main_from_init_sail, init_sail, init_sail_reset_vector.
  set (w0 := set_sail _ w).
  destruct (dtb_given_some w0 user Hd Hne) as [Hg Hbuf].
  assert (Hne' : buffer (dtb w0) <> buffer (spike_dtb w0)).
  { rewrite Hbuf. change (spike_dtb w0) with (spike_dtb w). by rewrite Hs. }
  rewrite (place_rom_image_exit base xlen entry w0 Hg Hne').
  eexists. split; [reflexivity|]. cbn [snd emit trace].
  destruct (put_fold_trace (buffer (dtb w0))
              (fold_left put
                 (map (fun b => to_uint64 (as_char b)) (reset_vec_bytes xlen entry))
                 (base, set_plat (Platform base (rv_rom_size (plat w0))
                                    (rv_insns_per_tick (plat w0))) w0)))
    as (-> & _).
  destruct (put_fold_trace
              (map (fun b => to_uint64 (as_char b)) (reset_vec_bytes xlen entry))
              (base, set_plat (Platform base (rv_rom_size (plat w0))
                                 (rv_insns_per_tick (plat w0))) w0))
    as (-> & _).
  cbn [snd trace set_plat set_sail]. subst w0. cbn [trace set_sail].
  split; [reflexivity|]. rewrite count_app. cbn. lia.
Qed.


(** *** What the builder leaves alone *)



Lemma differs_in_rom_wider (st st' : sail_state R) (lo hi hi' : Z) :
  hi <= hi' -> differs_in_rom st st' lo hi -> differs_in_rom st st' lo hi'.
Proof.
  intros Hle (H1 & H2 & H3 & H4 & H5 & H6 & H7). repeat split; try done.
  intros a Ha. apply H7. lia.
Qed.







(** *** How the builder ends, and what it prints *)

Lemma pad_rom_trace (c : Z * world R S) : trace (pad_rom c) = trace (snd c).
Proof.
  unfold pad_rom. cbn [set_sail set_plat trace].
  by destruct (put_fold_trace
                 (repeat 0 (Z.to_nat
                    (if to_uint64 (to_int32 (fst c))
                        <? to_uint64 (to_uint64 (fst c + 4096 - 1) / 4096 * 4096)
                     then to_uint64 (to_uint64 (fst c + 4096 - 1) / 4096 * 4096)
                          - to_uint64 (to_int32 (fst c))
                     else 0))) c) as (-> & _).
Qed.

(** X9: [init_sail_reset_vector] ends in [exit] exactly when the oracle is
    linked in and a non-empty device tree from the user differs from the
    oracle's; the status is then 1 and the DTB message is printed.  When
    it returns, it has printed the warning about the missing device tree
    exactly when the oracle is linked in and neither side has one: the
    build without the oracle boots silently. *)
Theorem boot_outcome (SPIKE : bool) (base xlen entry : Z) (w : world R S) :
  match init_sail_reset_vector SPIKE base xlen entry w with
  | Exited ec w' =>
      ec = 1 /\ SPIKE = true /\ dtb_given w = true
      /\ buffer (dtb w) <> buffer (spike_dtb w)
      /\ trace w' = trace w ++ [Print DtbMismatch]
  | Ret w' =>
      (SPIKE = true -> dtb_given w = true ->
       buffer (dtb w) = buffer (spike_dtb w))
      /\ trace w' =
         trace w ++
         (if SPIKE && negb (dtb_given w) && negb (0 <? spike_dtb_len w)
          then [Print NoRomDeviceTree] else [])
  end.
Proof.
  unfold init_sail_reset_vector, place_rom_image.
  set (w1 := set_plat (Platform base (rv_rom_size (plat w))
                         (rv_insns_per_tick (plat w))) w).
  change (rv_rom_base (plat w1)) with base.
  assert (Htr : forall l c, trace (snd (fold_left put l c)) = trace (snd c))
    by (intros l c; apply put_fold_trace).
  set (c2 := if dtb_given w1 then fold_left put _ _ else _).
  assert (Htr2 : trace (snd c2) = trace w).
  { subst c2. destruct (dtb_given w1); rewrite ?Htr; reflexivity. }
  clearbody c2.
  change (dtb_given w1) with (dtb_given w).
  change (spike_dtb_len w1) with (spike_dtb_len w).
  change (spike_dtb w1) with (spike_dtb w).
  change (dtb w1) with (dtb w). change (dtb_len w1) with (dtb_len w).
  clearbody w1.
  pose proof (dtb_check_eq w) as Hchk. cbv zeta in Hchk.
  destruct SPIKE; cbn [andb].
  - destruct (dtb_given w) eqn:Hg; cbn [negb].
    + destruct (if dtb_len w =? spike_dtb_len w then _ else _); cbn [negb].
      * rewrite pad_rom_trace, Htr2, app_nil_r. split; [|done].
        intros _ _. by apply Hchk.
      * cbn [snd emit trace]. rewrite Htr2. repeat split; try done.
        intros Heq. apply Hchk in Heq. discriminate.
    + destruct (0 <? spike_dtb_len w); cbn [negb].
      * rewrite pad_rom_trace, Htr, Htr2, app_nil_r. done.
      * rewrite pad_rom_trace. cbn [snd emit trace]. rewrite Htr2. done.
  - rewrite pad_rom_trace, Htr2, app_nil_r. done.
Qed.

(** X10: with a page-aligned ROM base, the ROM that a successful boot
    records is a whole number of pages, at least one, and less than one
    page longer than the reset vector and the device tree. *)
Theorem rom_size_whole_pages (SPIKE : bool) (base xlen entry : Z) (w : world R S) :
  let d := rom_dtb SPIKE w in
  let image_end := base + 32 + Z.of_nat (length d) in
  0 <= base ->
  base mod 0x1000 = 0 ->
  image_end + 0x1000 <= 2 ^ 31 ->
  Forall is_byte d ->
  (SPIKE = true -> dtb_given w = true -> buffer (dtb w) = buffer (spike_dtb w)) ->
  exists w',
    init_sail_reset_vector SPIKE base xlen entry w = Ret w'
    /\ rv_rom_size (plat w') mod 0x1000 = 0
    /\ 0x1000 <= rv_rom_size (plat w')
    /\ 32 + Z.of_nat (length d) <= rv_rom_size (plat w')
         < 32 + Z.of_nat (length d) + 0x1000.
Proof.
  intros d image_end Hb Hal Hsz Hbytes Hmatch.
  destruct (place_rom_image_ret SPIKE base xlen entry w Hb
              ltac:(fold d; lia) Hbytes Hmatch) as (c & Hret & I & _).
  fold d in I.
  unfold init_sail_reset_vector. rewrite Hret. eexists. split; [reflexivity|].
  set (w1 := set_plat _ w) in I.
  assert (Hlen : base + Z.of_nat (length (reset_vec_bytes xlen entry ++ d))
                 = image_end).
  { rewrite length_app, reset_vec_bytes_length. subst image_end. lia. }
  destruct (pad_rom_spec c w1 base _ I eq_refl Hb)
    as (_ & _ & Hrs & _); [rewrite Hlen; lia|].
  rewrite Hrs, Hlen. change (rv_rom_base (plat w1)) with base.
  pose proof (page_up_bounds image_end) as (Hpu & Hmod).
  subst image_end. revert Hpu Hmod.
  generalize (page_up (base + 32 + Z.of_nat (length d))). intros p Hpu Hmod.
  Z.div_mod_to_equations. lia.
Qed.


(** X11: a zero-length device-tree buffer from the user counts as no
    device tree at all: with the oracle linked in and holding a device
    tree, the builder does not compare the two, does not abort, and places
    the oracle's device tree behind the reset vector. *)
Theorem empty_user_dtb_is_ignored (base xlen entry : Z) (w : world R S)
    (oracle : list Z) :
  dtb w = Some [] ->
  spike_dtb w = Some oracle -> oracle <> [] ->
  0 <= base ->
  base + 32 + Z.of_nat (length oracle) + 0x1000 <= 2 ^ 31 ->
  Forall is_byte oracle ->
  exists w',
    init_sail_reset_vector true base xlen entry w = Ret w'
    /\ mem_holds (mem (sail w')) (base + 32) oracle
    /\ trace w' = trace w.
Proof.
  intros Hd Hs Hne Hb Hsz Hbytes.
  assert (Hg : dtb_given w = false) by (unfold dtb_given, dtb_len; by rewrite Hd).
  assert (Hl : (0 <? spike_dtb_len w) = true).
  { unfold spike_dtb_len. rewrite Hs. destruct oracle; [done|].
    cbn [length]. apply Z.ltb_lt. lia. }
  assert (Hrom : rom_dtb true w = oracle)
    by (unfold rom_dtb; rewrite Hg, Hl, Hs; done).
  destruct (place_rom_image_ret true base xlen entry w Hb)
    as (c & Hret & I & Htr).
  { rewrite Hrom. lia. }
  { by rewrite Hrom. }
  { intros _ Hg'. rewrite Hg in Hg'. discriminate. }
  rewrite Hrom in I. rewrite Hg, Hl in Htr. cbn [andb negb] in Htr.
  rewrite app_nil_r in Htr.
  unfold init_sail_reset_vector. rewrite Hret. eexists. split; [reflexivity|].
  set (w1 := set_plat _ w) in I.
  destruct (pad_rom_spec c w1 base _ I eq_refl Hb) as (Hm & _).
  { rewrite length_app, reset_vec_bytes_length. lia. }
  cbv zeta in Hm. rewrite <- app_assoc in Hm.
  apply mem_holds_app in Hm. destruct Hm as [_ Hm].
  apply mem_holds_app in Hm. destruct Hm as [Hm _].
  rewrite reset_vec_bytes_length in Hm.
  split; [exact Hm|]. by rewrite pad_rom_trace.
Qed.

(** X12: the operands of the reset vector agree with the layout of the
    image: the [addi] leaves in a1 the address right behind the vector,
    where the device tree is placed; the load reads from the offset at
    which the entry address is stored, as a 32-bit word when [SAIL_XLEN]
    is 32 and as a 64-bit word otherwise; a0 receives [mhartid] and the
    jump goes through t0. *)
Theorem reset_vector_operands (xlen entry : Z) :
  let v := reset_vec xlen entry in
  (* auipc t0, 0 *)
  (insn_opcode (nth 0 v 0) = 0x17 /\ insn_rd (nth 0 v 0) = reg_t0
   /\ Z.shiftr (nth 0 v 0) 12 = 0)
  (* addi a1, t0, sizeof(reset_vec) *)
  /\ (insn_opcode (nth 1 v 0) = 0x13 /\ insn_funct3 (nth 1 v 0) = 0
      /\ insn_rd (nth 1 v 0) = reg_a1 /\ insn_rs1 (nth 1 v 0) = reg_t0
      /\ insn_imm (nth 1 v 0) = Z.of_nat (length (reset_vec_bytes xlen entry)))
  (* csrr a0, mhartid *)
  /\ (insn_opcode (nth 2 v 0) = 0x73 /\ insn_funct3 (nth 2 v 0) = 2
      /\ insn_rd (nth 2 v 0) = reg_a0 /\ insn_rs1 (nth 2 v 0) = 0
      /\ insn_imm (nth 2 v 0) = 0xf14)
  (* lw/ld t0, 24(t0) *)
  /\ (insn_opcode (nth 3 v 0) = 0x03
      /\ insn_funct3 (nth 3 v 0) = (if xlen =? 32 then 2 else 3)
      /\ insn_rd (nth 3 v 0) = reg_t0 /\ insn_rs1 (nth 3 v 0) = reg_t0
      /\ insn_imm (nth 3 v 0)
         = Z.of_nat (length (flat_map le_bytes32 (firstn 6 v))))
  (* jr t0 *)
  /\ (insn_opcode (nth 4 v 0) = 0x67 /\ insn_funct3 (nth 4 v 0) = 0
      /\ insn_rd (nth 4 v 0) = 0 /\ insn_rs1 (nth 4 v 0) = reg_t0
      /\ insn_imm (nth 4 v 0) = 0)
  /\ nth 6 v 0 = to_uint32 (Z.land entry 0xffffffff)
  /\ nth 7 v 0 = to_uint32 (Z.shiftr entry 32).
Proof.
  cbv zeta. unfold reset_vec. cbn [nth].
  destruct (xlen =? 32); repeat split; reflexivity.
Qed.

(** *** The check of misa before the run *)

(** X13: in the build with the oracle, when the boot image has been built
    and Spike's [misa] is not the Sail model's, [main] ends with status 1
    through [finish] before any instruction: the trace gains the failed
    check and the release of both engines, nothing else. *)
Theorem misa_mismatch_is_fatal (base xlen entry : Z) (fuel : nat)
    (w w1 : world R S) (o : snapshot) :
  init_sail true base xlen entry w = Ret w1 ->
  oracle_holds (spike w1) o ->
  s_csr o CSR_MISA <> zmisa (sail w1) ->
  exists w',
    main_from_init_sail true base xlen entry fuel w = Some (1, w')
    /\ trace w' =
       trace w1 ++
       [ TvCheck (CheckCsr CSR_MISA (zmisa (sail w1))) false; ModelFini; TvFree ]
    /\ sail w' = sail w1 /\ spike w' = spike w1.
Proof.
  intros Hinit (_ & _ & _ & Hc) Hne.
  unfold main_from_init_sail. rewrite Hinit.
  unfold init_check, and_check. cbn [fst snd tv_check].
  rewrite Hc.
  destruct (Z.eqb_spec (zmisa (sail w1)) (s_csr o CSR_MISA)) as [Heq|_];
    [by rewrite Heq in Hne|].
  cbn [Z.b2z Z.land Z.eqb]. eexists. split; [reflexivity|].
  cbn [finish snd emit trace sail spike]. cbn. rewrite <- !app_assoc.
  repeat split; reflexivity.
Qed.


End Properties.

(** * Properties of the start-up code *)

Section StartupProperties.
Context {R S : Type} `{!SpikeInit S} `{!Os}.
Variable atol : string -> Z.

(** Closing a goal about the settings after one [case] of the switch. *)
#[local] Ltac settle_case :=
  cbn;
  first [ done | by left | by right | by auto 10
        | by (intros; discriminate) | by (intros; assumption) ].

(** What one option does to the settings, when the loop goes on. *)
Lemma option_case_returns (argv0 : option string) (c : Z) (optarg : string)
    (st st' : settings) (u : unit) :
  option_case atol argv0 c optarg st = Returns u st' ->
  goes_on c
  /\ (do_dump_dts st' = true
      \/ (do_dump_dts st' = do_dump_dts st
          /\ rv_mtval_has_illegal_inst_bits st' = rv_mtval_has_illegal_inst_bits st))
  /\ (do_dump_dts st = true -> do_dump_dts st' = true)
  /\ (c = chr "i" -> do_dump_dts st' = true)
  /\ (rv_ram_size st' = rv_ram_size st
      \/ (c = chr "z" /\ to_uint64 (atol optarg) <> 0
          /\ rv_ram_size st' = to_uint64 (Z.shiftl (to_uint64 (atol optarg)) 20))).
Proof.
  unfold option_case, goes_on.
  destruct (Z.eqb_spec c (chr "d")) as [->|Hd].
  { intros [= <- <-]. repeat apply conj; settle_case. }
  destruct (Z.eqb_spec c (chr "m")) as [->|Hm].
  { intros [= <- <-]. repeat apply conj; settle_case. }
  destruct (Z.eqb_spec c (chr "i")) as [->|Hi].
  { intros [= <- <-]. repeat apply conj; settle_case. }
  destruct (Z.eqb_spec c (chr "s")) as [->|Hs].
  { intros [= <- <-]. repeat apply conj; settle_case. }
  destruct (Z.eqb_spec c (chr "z")) as [->|Hz].
  { destruct (Z.eqb_spec (to_uint64 (atol optarg)) 0) as [H0|H0];
      intros [= <- <-]; repeat apply conj; settle_case. }
  destruct (Z.eqb_spec c (chr "b")) as [->|Hb].
  { intros [= <- <-]. repeat apply conj; settle_case. }
  destruct (Z.eqb_spec c (chr "t")) as [->|Ht].
  { intros [= <- <-]. repeat apply conj; settle_case. }
  destruct (c =? chr "h"); discriminate.
Qed.

(** An option that ends the loop ends the process: with status 0 for [-h]
    and 1 for a character the [switch] does not know. *)
Lemma option_case_exits (argv0 : option string) (c : Z) (optarg : string)
    (st st' : settings) (ec : Z) :
  option_case atol argv0 c optarg st = Exits ec st' ->
  ~ goes_on c /\ ec = (if c =? chr "h" then 0 else 1).
Proof.
  unfold option_case, goes_on.
  destruct (Z.eqb_spec c (chr "d")) as [->|Hd]; [discriminate|].
  destruct (Z.eqb_spec c (chr "m")) as [->|Hm]; [discriminate|].
  destruct (Z.eqb_spec c (chr "i")) as [->|Hi]; [discriminate|].
  destruct (Z.eqb_spec c (chr "s")) as [->|Hs]; [discriminate|].
  destruct (Z.eqb_spec c (chr "z")) as [->|Hz].
  { destruct (negb _); discriminate. }
  destruct (Z.eqb_spec c (chr "b")) as [->|Hb]; [discriminate|].
  destruct (Z.eqb_spec c (chr "t")) as [->|Ht]; [discriminate|].
  destruct (c =? chr "h"); intros [= <- <-]; (split; [|reflexivity]);
    cbn [In]; intuition congruence.
Qed.

(** The option loop, when it comes to its end. *)
Lemma getopt_loop_returns (argv0 : option string) (gs : list getopt_ret)
    (idx idx' : Z) (st st' : settings) :
  Forall (fun g => g_c g <> -1) gs ->
  getopt_loop atol argv0 gs idx st = Returns idx' st' ->
  idx' = fold_left
           (fun idx g => match g_longindex g with Some i => i | None => idx end)
           gs idx
  /\ Forall (fun g => goes_on (g_c g)) gs
  /\ (do_dump_dts st' = true
      \/ (do_dump_dts st' = do_dump_dts st
          /\ rv_mtval_has_illegal_inst_bits st' = rv_mtval_has_illegal_inst_bits st))
  /\ (do_dump_dts st = true -> do_dump_dts st' = true)
  /\ (In (chr "i") (map g_c gs) -> do_dump_dts st' = true)
  /\ (rv_ram_size st' = rv_ram_size st
      \/ exists g, In g gs /\ g_c g = chr "z"
           /\ to_uint64 (atol (g_optarg g)) <> 0
           /\ rv_ram_size st'
              = to_uint64 (Z.shiftl (to_uint64 (atol (g_optarg g))) 20)).
Proof.
  intros Hno. revert idx st.
  induction Hno as [|g gs Hg Hno IH]; intros idx st; cbn [getopt_loop fold_left].
  { intros [= <- <-]. split; [reflexivity|]. split; [constructor|].
    split; [by right|]. split; [done|]. split; [intros []|by left]. }
  destruct (Z.eqb_spec (g_c g) (-1)) as [Heq|_]; [done|].
  destruct (option_case atol argv0 (g_c g) (g_optarg g) st) as [ec st1|u st1] eqn:Hopt;
    [discriminate|].
  intros Hloop. apply IH in Hloop.
  destruct Hloop as (Hidx & Hall & Hdump & Hkeep & Hi & Hram).
  apply option_case_returns in Hopt.
  destruct Hopt as (Hgo & Hdump1 & Hkeep1 & Hi1 & Hram1).
  split; [exact Hidx|]. split; [by constructor|].
  split; [|split; [|split]].
  - destruct Hdump as [?|[E1 E2]]; [by left|].
    destruct Hdump1 as [?|[E3 E4]]; [left; congruence|right; split; congruence].
  - tauto.
  - cbn [map In]. intros [Hc|Hin]; [|tauto]. apply Hkeep. by apply Hi1.
  - destruct Hram as [E|(g' & Hin & Hz & Hnz & E)].
    + destruct Hram1 as [E1|(Hz & Hnz & E1)].
      * left. congruence.
      * right. exists g. cbn [In]. repeat split; try tauto. congruence.
    + right. exists g'. cbn [In]. tauto.
Qed.

Lemma read_dtb_keeps (path : string) (c c' : settings * world R S) (u : unit) :
  read_dtb path c = Returns u c' ->
  do_dump_dts (fst c') = do_dump_dts (fst c)
  /\ rv_mtval_has_illegal_inst_bits (fst c') = rv_mtval_has_illegal_inst_bits (fst c)
  /\ rv_ram_size (fst c') = rv_ram_size (fst c)
  /\ term_log (fst c') = term_log (fst c)
  /\ is_Some (dtb (snd c'))
  /\ (plat (snd c'), sail (snd c'), spike (snd c'), spike_dtb (snd c'), trace (snd c'))
     = (plat (snd c), sail (snd c), spike (snd c), spike_dtb (snd c), trace (snd c)).
Proof.
  unfold read_dtb.
  destruct (os_open path) as [fd|]; [|discriminate].
  destruct (os_fstat fd) as [sz|]; [|discriminate].
  destruct (os_mmap sz fd) as [m|]; [|discriminate].
  destruct (os_malloc sz); [|discriminate].
  intros [= <- <-]. cbn. repeat split; try done.
Qed.

(** X14: when [process_args] returns to [main], [do_dump_dts] is false
    and so, if it was false at the start, [rv_mtval_has_illegal_inst_bits]
    is what it was: the option that sets it falls through to the one that
    dumps the device tree and ends the process.  Besides, [term_log] is
    set, the value returned is [argv[optind]], and of the process only the
    user's device-tree buffer may have changed, which it has only if a
    file was named. *)
Theorem process_args_returns (SPIKE : bool) (argv : list string)
    (gs : list getopt_ret) (optind : Z) (st st' : settings)
    (w w' : world R S) (file : option string) :
  Forall (fun g => g_c g <> -1) gs ->
  do_dump_dts st = false ->
  process_args SPIKE atol argv gs optind (st, w) = Returns file (st', w') ->
  do_dump_dts st' = false
  /\ ~ In (chr "i") (map g_c gs)
  /\ rv_mtval_has_illegal_inst_bits st' = rv_mtval_has_illegal_inst_bits st
  /\ is_Some (term_log st')
  /\ file = argv !! Z.to_nat optind
  /\ (dtb_file st' = None -> dtb w' = dtb w)
  /\ (plat w', sail w', spike w', spike_dtb w', trace w')
     = (plat w, sail w, spike w, spike_dtb w, trace w).
Proof.
  intros Hno Hd0. unfold process_args. cbn [fst snd].
  destruct (getopt_loop atol (argv !! 0%nat) gs 1 st) as [ec st1|idx st1] eqn:Hloop;
    [discriminate|].
  apply getopt_loop_returns in Hloop; [|exact Hno].
  destruct Hloop as (_ & _ & Hdump & _ & Hi & _).
  destruct (do_dump_dts st1) eqn:Hd1; [discriminate|].
  destruct (Z.of_nat (length argv) <=? idx); [discriminate|].
  destruct Hdump as [Hbad|[_ Hmt]]; [discriminate|].
  set (st2 := match term_log st1 with
              | Some _ => st1
              | None => set_term_log (Some "term.log") st1
              end).
  assert (H2 : do_dump_dts st2 = false
               /\ rv_mtval_has_illegal_inst_bits st2 = rv_mtval_has_illegal_inst_bits st
               /\ is_Some (term_log st2) /\ dtb_file st2 = dtb_file st1).
  { subst st2. destruct (term_log st1) eqn:Ht; cbn; rewrite ?Ht; eauto. }
  destruct H2 as (A1 & A2 & A3 & A4).
  assert (Hni : ~ In (chr "i") (map g_c gs))
    by (intros Hin; apply Hi in Hin; discriminate).
  destruct (dtb_file st2) as [f|] eqn:Hf.
  - destruct (read_dtb f (st2, w)) as [ec c|u c] eqn:Hrd; [discriminate|].
    intros [= <- <- <-]. pose proof Hrd as Hkeep. apply read_dtb_keeps in Hkeep.
    destruct Hkeep as (B1 & B2 & _ & B4 & _ & B6).
    cbn [fst snd] in *.
    assert (Hf' : dtb_file (fst c) = Some f).
    { revert Hrd. unfold read_dtb.
      destruct (os_open f) as [fd|]; [|discriminate].
      destruct (os_fstat fd) as [sz|]; [|discriminate].
      destruct (os_mmap sz fd) as [m|]; [|discriminate].
      destruct (os_malloc sz); [|discriminate].
      intros [= <- <-]. exact Hf. }
    cbn [do_dump_dts rv_mtval_has_illegal_inst_bits term_log dtb_file say].
    rewrite B1, B2, B4, Hf'.
    split; [done|]. split; [done|]. split; [done|]. split; [done|].
    split; [done|]. split; [discriminate|exact B6].
  - intros [= <- <- <-].
    cbn [do_dump_dts rv_mtval_has_illegal_inst_bits term_log dtb_file say fst snd].
    rewrite Hf. repeat split; done.
Qed.

Lemma goes_on_returns (argv0 : option string) (c : Z) (optarg : string)
    (st : settings) :
  goes_on c ->
  c <> -1 /\ exists st', option_case atol argv0 c optarg st = Returns tt st'.
Proof.
  unfold goes_on, option_case. cbn [In].
  intros [<-|[<-|[<-|[<-|[<-|[<-|[<-|[]]]]]]]]; (split; [done|]);
    cbn -[to_uint64 Z.shiftl]; try (eexists; reflexivity).
  destruct (negb _); eexists; reflexivity.
Qed.

Lemma getopt_loop_goes_on (argv0 : option string) (gs : list getopt_ret)
    (idx : Z) (st : settings) :
  Forall (fun g => goes_on (g_c g)) gs ->
  Forall (fun g => g_c g <> -1) gs
  /\ exists st', getopt_loop atol argv0 gs idx st = Returns (fold_left
           (fun idx g => match g_longindex g with Some i => i | None => idx end)
           gs idx) st'.
Proof.
  intros Hall. revert idx st.
  induction Hall as [|g gs Hg Hall IH]; intros idx st.
  { split; [constructor|]. by eexists. }
  destruct (goes_on_returns argv0 (g_c g) (g_optarg g) st Hg) as (Hne & st1 & Hopt).
  destruct (IH (match g_longindex g with Some i => i | None => idx end) st1)
    as (Hno & st' & Hloop).
  split; [by constructor|]. exists st'.
  cbn [getopt_loop fold_left].
  destruct (Z.eqb_spec (g_c g) (-1)); [done|]. by rewrite Hopt.
Qed.

(** X15: when [getopt_long] returns the character of
    [--mtval-has-illegal-inst-bits] among options that all let the loop
    go on, the process does not run a program: [process_args] ends in
    [dump_dts], which exits with status 0. *)
Theorem illegal_inst_bits_option_dumps_dts (SPIKE : bool) (argv : list string)
    (gs : list getopt_ret) (optind : Z) (st : settings) (w : world R S) :
  Forall (fun g => goes_on (g_c g)) gs ->
  In (chr "i") (map g_c gs) ->
  exists st',
    getopt_loop atol (argv !! 0%nat) gs 1 st = Returns (final_idx gs) st'
    /\ process_args SPIKE atol argv gs optind (st, w)
       = Exits 0 (snd (dump_dts SPIKE st'), w).
Proof.
  intros Hall Hin.
  destruct (getopt_loop_goes_on (argv !! 0%nat) gs 1 st Hall) as (Hno & st' & Hloop).
  exists st'. split; [exact Hloop|].
  destruct (getopt_loop_returns _ _ _ _ _ _ Hno Hloop) as (_ & _ & _ & _ & Hi & _).
  unfold process_args. cbn [fst snd]. rewrite Hloop, (Hi Hin). reflexivity.
Qed.

(** X16: the check for a missing file operand compares [argc] with the
    index of the last long option (1 when there was none), not with
    [optind]: for options that neither dump the device tree nor name a
    device-tree file, [process_args] prints the usage and exits with
    status 0 exactly when [argc] is at most that index, and otherwise
    returns [argv[optind]], be it the NULL that ends [argv]. *)
Theorem missing_file_check_uses_long_index (SPIKE : bool) (argv : list string)
    (gs : list getopt_ret) (optind : Z) (st : settings) (w : world R S) :
  Forall (fun g => In (g_c g) [chr "d"; chr "m"; chr "z"; chr "t"]) gs ->
  do_dump_dts st = false ->
  dtb_file st = None ->
  exists st',
    getopt_loop atol (argv !! 0%nat) gs 1 st = Returns (final_idx gs) st'
    /\ process_args SPIKE atol argv gs optind (st, w)
       = (if Z.of_nat (length argv) <=? final_idx gs
          then Exits 0 (snd (print_usage (argv !! 0%nat) 0 st'), w)
          else
            let st' := match term_log st' with
                       | None => set_term_log (Some "term.log") st'
                       | Some _ => st'
                       end in
            Returns (argv !! Z.to_nat optind)
              (say (RunningFile (argv !! Z.to_nat optind)) st', w)).
Proof.
  intros Hplain Hd Hf.
  assert (Hinv : forall gs idx st,
            Forall (fun g => In (g_c g) [chr "d"; chr "m"; chr "z"; chr "t"]) gs ->
            do_dump_dts st = false -> dtb_file st = None ->
            exists st',
              getopt_loop atol (argv !! 0%nat) gs idx st
                = Returns (fold_left
                    (fun idx g => match g_longindex g with Some i => i | None => idx end)
                    gs idx) st'
              /\ do_dump_dts st' = false /\ dtb_file st' = None).
  { clear. intros gs. induction gs as [|g gs IH]; intros idx st Hall Hd Hf.
    { exists st. done. }
    apply Forall_cons in Hall. destruct Hall as [Hg Hall].
    cbn [getopt_loop fold_left].
    assert (Hopt : g_c g <> -1 /\ exists st1,
              option_case atol (argv !! 0%nat) (g_c g) (g_optarg g) st = Returns tt st1
              /\ do_dump_dts st1 = false /\ dtb_file st1 = None).
    { unfold option_case. cbn [In] in Hg.
      destruct Hg as [<-|[<-|[<-|[<-|[]]]]]; (split; [done|]);
        cbn -[to_uint64 Z.shiftl]; try (eexists; split; [reflexivity|]; by cbn).
      destruct (negb _); eexists; (split; [reflexivity|]); by cbn. }
    destruct Hopt as (Hne & st1 & Hopt & Hd1 & Hf1).
    destruct (Z.eqb_spec (g_c g) (-1)); [done|]. rewrite Hopt.
    by apply IH. }
  destruct (Hinv gs 1 st Hplain Hd Hf) as (st' & Hloop & Hd' & Hf').
  exists st'. split; [exact Hloop|].
  unfold process_args. cbn [fst snd]. rewrite Hloop. fold (final_idx gs).
  rewrite Hd'. destruct (Z.of_nat (length argv) <=? final_idx gs); [reflexivity|].
  cbv zeta.
  assert (Hf2 : dtb_file (match term_log st' with
                          | Some _ => st'
                          | None => set_term_log (Some "term.log") st'
                          end) = None)
    by (destruct (term_log st'); exact Hf').
  rewrite Hf2. reflexivity.
Qed.

Lemma shifted_mebibytes (z : Z) :
  to_uint64 (Z.shiftl z 20) mod 2 ^ 20 = 0
  /\ 0 <= to_uint64 (Z.shiftl z 20) < 2 ^ 64.
Proof.
  unfold to_uint64. rewrite Z.shiftl_mul_pow2 by lia.
  change (2 ^ 20) with 1048576. change (2 ^ 64) with 18446744073709551616.
  Z.div_mod_to_equations. lia.
Qed.

(** X17: when [process_args] returns, the RAM size is either what it was
    or what a [-z] option with a non-zero argument set it to: that
    argument times 2^20, cut to 64 bits, hence a whole number of MiB.  An
    argument that [atol] reads as 0 leaves the size alone. *)
Theorem ram_size_in_mebibytes (SPIKE : bool) (argv : list string)
    (gs : list getopt_ret) (optind : Z) (st st' : settings)
    (w w' : world R S) (file : option string) :
  Forall (fun g => g_c g <> -1) gs ->
  process_args SPIKE atol argv gs optind (st, w) = Returns file (st', w') ->
  rv_ram_size st' = rv_ram_size st
  \/ (exists g,
        In g gs /\ g_c g = chr "z"
        /\ to_uint64 (atol (g_optarg g)) <> 0
        /\ rv_ram_size st' = to_uint64 (Z.shiftl (to_uint64 (atol (g_optarg g))) 20)
        /\ rv_ram_size st' mod 2 ^ 20 = 0
        /\ 0 <= rv_ram_size st' < 2 ^ 64).
Proof.
  intros Hno. unfold process_args. cbn [fst snd].
  destruct (getopt_loop atol (argv !! 0%nat) gs 1 st) as [ec st1|idx st1] eqn:Hloop;
    [discriminate|].
  apply getopt_loop_returns in Hloop; [|exact Hno].
  destruct Hloop as (_ & _ & _ & _ & _ & Hram).
  destruct (do_dump_dts st1); [discriminate|].
  destruct (Z.of_nat (length argv) <=? idx); [discriminate|].
  set (st2 := match term_log st1 with
              | Some _ => st1
              | None => set_term_log (Some "term.log") st1
              end).
  assert (H2 : rv_ram_size st2 = rv_ram_size st1)
    by (subst st2; by destruct (term_log st1)).
  assert (Hfin : rv_ram_size st' = rv_ram_size st1 ->
            rv_ram_size st' = rv_ram_size st
            \/ (exists g,
                  In g gs /\ g_c g = chr "z"
                  /\ to_uint64 (atol (g_optarg g)) <> 0
                  /\ rv_ram_size st'
                     = to_uint64 (Z.shiftl (to_uint64 (atol (g_optarg g))) 20)
                  /\ rv_ram_size st' mod 2 ^ 20 = 0
                  /\ 0 <= rv_ram_size st' < 2 ^ 64)).
  { intros E. destruct Hram as [E1|(g & Hin & Hz & Hnz & E1)]; [left; congruence|].
    right. exists g. rewrite E, E1.
    destruct (shifted_mebibytes (to_uint64 (atol (g_optarg g)))) as [M1 M2].
    repeat split; try done; lia. }
  destruct (dtb_file st2) as [f|].
  - destruct (read_dtb f (st2, w)) as [ec c|u c] eqn:Hrd; [discriminate|].
    intros [= <- <- <-]. apply read_dtb_keeps in Hrd.
    destruct Hrd as (_ & _ & B3 & _). cbn [fst] in B3.
    apply Hfin. cbn [rv_ram_size say]. congruence.
  - intros [= <- <- <-]. apply Hfin. cbn [rv_ram_size say fst]. congruence.
Qed.


(** The option loop, when an option ends the process. *)
Lemma getopt_loop_exits (argv0 : option string) (gs : list getopt_ret)
    (idx ec : Z) (st st' : settings) :
  getopt_loop atol argv0 gs idx st = Exits ec st' ->
  exists g, In g gs /\ ~ goes_on (g_c g)
            /\ ec = (if g_c g =? chr "h" then 0 else 1).
Proof.
  revert idx st. induction gs as [|g gs IH]; intros idx st;
    cbn [getopt_loop]; [discriminate|].
  destruct (g_c g =? -1); [discriminate|].
  destruct (option_case atol argv0 (g_c g) (g_optarg g) st) as [ec1 st1|u st1] eqn:Hopt.
  - intros [= <- <-]. apply option_case_exits in Hopt. exists g. cbn [In]. tauto.
  - intros Hloop. apply IH in Hloop. destruct Hloop as (g' & Hin & Hg').
    exists g'. cbn [In]. tauto.
Qed.

(** X18: [process_args] ends the process with status 0 or 1, and with 1
    only for an option character that the [switch] has no case for or
    for a device-tree file that [read_dtb] gives up on.  Help, the dump
    of the device tree and a missing file operand all end with status 0. *)
Theorem process_args_exit_status (SPIKE : bool) (argv : list string)
    (gs : list getopt_ret) (optind ec : Z) (st : settings)
    (w : world R S) (c : settings * world R S) :
  process_args SPIKE atol argv gs optind (st, w) = Exits ec c ->
  (ec = 0 \/ ec = 1)
  /\ (ec = 1 ->
      (exists g, In g gs /\ ~ goes_on (g_c g) /\ g_c g <> chr "h")
      \/ (exists f st1, read_dtb f (st1, w) = Exits 1 c)).
Proof.
  unfold process_args. cbn [fst snd].
  destruct (getopt_loop atol (argv !! 0%nat) gs 1 st) as [ec1 st1|idx st1] eqn:Hloop.
  { intros [= <- <-]. apply getopt_loop_exits in Hloop.
    destruct Hloop as (g & Hin & Hg & ->).
    destruct (Z.eqb_spec (g_c g) (chr "h")) as [Hh|Hh].
    - split; [by left|discriminate].
    - split; [by right|]. intros _. left. by exists g. }
  destruct (do_dump_dts st1).
  { unfold dump_dts. cbn [fst snd]. intros [= <- <-]. split; [by left|discriminate]. }
  destruct (Z.of_nat (length argv) <=? idx).
  { unfold print_usage. cbn [fst snd]. intros [= <- <-].
    split; [by left|discriminate]. }
  set (st2 := match term_log st1 with
              | Some _ => st1
              | None => set_term_log (Some "term.log") st1
              end).
  destruct (dtb_file st2) as [f|]; [|discriminate].
  destruct (read_dtb f (st2, w)) as [ec1 c1|u c1] eqn:Hrd; [|discriminate].
  intros [= <- <-].
  assert (Hec : ec1 = 1).
  { revert Hrd. unfold read_dtb.
    destruct (os_open f) as [fd|]; [|by intros [= <- _]].
    destruct (os_fstat fd) as [sz|]; [|by intros [= <- _]].
    destruct (os_mmap sz fd) as [m|]; [|by intros [= <- _]].
    destruct (os_malloc sz); [discriminate|by intros [= <- _]]. }
  subst ec1. split; [by right|]. intros _. right. by exists f, st2.
Qed.

Lemma fold_say_same (ms : list startup_message) (st : settings) :
  same_settings st (fold_left (fun st m => say m st) ms st)
  /\ console (fold_left (fun st m => say m st) ms st) = console st ++ ms.
Proof.
  revert st. induction ms as [|m ms IH]; intros st; cbn [fold_left].
  { split; [by split|]. by rewrite app_nil_r. }
  destruct (IH (say m st)) as [[E1 E2] E3]. split; [split|].
  - exact E1.
  - exact E2.
  - rewrite E3. cbn [console say]. by rewrite <- app_assoc.
Qed.

(** [init_spike] up to its [if (mismatch) exit(1)]: the flag and what has
    been printed. *)
Lemma init_spike_checks (f : string) (entry ram_size : Z)
    (st : settings) (w : world R S) :
  let s0 := tv_init "RV64IMAC" ram_size 1 in
  let st1 := fold_left (fun st m => say m st) (disagreements s0 st) st in
  let w0 := World (plat w) (sail w) s0 (dtb w) (spike_dtb w) (trace w) in
  init_spike true f entry ram_size (st, w)
  = match disagreements s0 st with
    | _ :: _ => Exits 1 (st1, w0)
    | [] =>
        let s := loaded_spike s0 f in
        let w1 := World (Platform (rv_rom_base (plat w)) (rv_rom_size (plat w))
                           (tv_get_insns_per_tick s))
                    (sail w) s (dtb w) (spike_dtb w) (trace w) in
        if 0 <? tv_get_dtb_len s then
          if fst (tv_get_dtb s) =? 0
          then Returns tt (say (GotDtb (Z.of_nat (length (snd (tv_get_dtb s))))) st,
                           set_spike_dtb (Some (snd (tv_get_dtb s))) w1)
          else Exits 1 (say ErrorGettingDtb st,
                        set_spike_dtb (Some (snd (tv_get_dtb s))) w1)
        else Returns tt (say NoDtbFromSpike st, w1)
    end.
Proof.
  intros s0 st1 w0. subst st1 w0. unfold init_spike, disagreements, loaded_spike.
  cbn [fst snd]. fold s0.
  destruct (Bool.eqb (tv_is_dirty_enabled s0) (rv_enable_dirty_update st));
    cbn [negb fst snd app fold_left say rv_enable_misaligned rv_ram_size];
    destruct (Bool.eqb (tv_is_misaligned_enabled s0) (rv_enable_misaligned st));
    cbn [negb fst snd app fold_left say rv_enable_misaligned rv_ram_size];
    destruct (tv_ram_size s0 =? rv_ram_size st);
    cbn [negb fst snd app fold_left say rv_enable_misaligned rv_ram_size];
    reflexivity.
Qed.

(** X19: with Spike linked in, [init_spike] looks at all three settings
    before it gives up: when the new Spike instance and the Sail side
    disagree in some, it prints one message for each such setting, in the
    order dirty update, misaligned access, RAM size, and exits with
    status 1, with no ELF file loaded into Spike and neither the tick
    period nor Spike's device tree taken over. *)
Theorem init_spike_reports_every_mismatch (f : string) (entry ram_size : Z)
    (st : settings) (w : world R S) :
  disagreements (tv_init "RV64IMAC" ram_size 1) st <> [] ->
  exists st',
    init_spike true f entry ram_size (st, w)
    = Exits 1 (st', World (plat w) (sail w) (tv_init "RV64IMAC" ram_size 1)
                      (dtb w) (spike_dtb w) (trace w))
    /\ same_settings st st'
    /\ console st' = console st ++ disagreements (tv_init "RV64IMAC" ram_size 1) st.
Proof.
  intros Hdis. rewrite init_spike_checks. cbv zeta.
  destruct (fold_say_same (disagreements (tv_init "RV64IMAC" ram_size 1) st) st)
    as [E1 E2].
  destruct (disagreements (tv_init "RV64IMAC" ram_size 1) st) as [|m ms] eqn:Hd;
    [done|].
  eexists. split; [reflexivity|]. by split.
Qed.

(** X20: with Spike linked in, [init_spike] returns only if the new
    Spike instance agrees with the Sail side on dirty update, misaligned
    access and RAM size.  Then Spike has been made verbose, told to put
    the device tree in ROM, given the ELF file and reset, in this order;
    the tick period is the one of this Spike, the ROM base and size are
    untouched; and the buffer for Spike's device tree holds what
    [tv_get_dtb] stored if Spike told a length above 0, and is untouched
    otherwise.  Of the settings only the output has changed, by one
    message. *)
Theorem init_spike_returns (f : string) (entry ram_size : Z)
    (st st' : settings) (w w' : world R S) :
  init_spike true f entry ram_size (st, w) = Returns tt (st', w') ->
  let s0 := tv_init "RV64IMAC" ram_size 1 in
  Bool.eqb (tv_is_dirty_enabled s0) (rv_enable_dirty_update st) = true
  /\ Bool.eqb (tv_is_misaligned_enabled s0) (rv_enable_misaligned st) = true
  /\ tv_ram_size s0 = rv_ram_size st
  /\ spike w' = loaded_spike s0 f
  /\ rv_insns_per_tick (plat w') = tv_get_insns_per_tick (spike w')
  /\ (rv_rom_base (plat w'), rv_rom_size (plat w'), sail w', dtb w', trace w')
     = (rv_rom_base (plat w), rv_rom_size (plat w), sail w, dtb w, trace w)
  /\ spike_dtb w'
     = (if 0 <? tv_get_dtb_len (spike w')
        then Some (snd (tv_get_dtb (spike w')))
        else spike_dtb w)
  /\ (0 < tv_get_dtb_len (spike w') -> fst (tv_get_dtb (spike w')) = 0)
  /\ same_settings st st'
  /\ exists m, console st' = console st ++ [m].
Proof.
  intros Hret s0. rewrite init_spike_checks in Hret. cbv zeta in Hret.
  fold s0 in Hret.
  assert (Hagree : disagreements s0 st = []).
  { destruct (disagreements s0 st); [reflexivity|discriminate]. }
  rewrite Hagree in Hret.
  unfold disagreements in Hagree.
  destruct (Bool.eqb (tv_is_dirty_enabled s0) (rv_enable_dirty_update st));
    [|discriminate].
  destruct (Bool.eqb (tv_is_misaligned_enabled s0) (rv_enable_misaligned st));
    [|discriminate].
  destruct (Z.eqb_spec (tv_ram_size s0) (rv_ram_size st)) as [Hram|]; [|discriminate].
  clear Hagree.
  split; [done|]. split; [done|]. split; [done|].
  destruct (0 <? tv_get_dtb_len (loaded_spike s0 f)) eqn:Hlen.
  - destruct (Z.eqb_spec (fst (tv_get_dtb (loaded_spike s0 f))) 0) as [Hok|];
      [|discriminate].
    injection Hret as <- <-. cbn [spike plat sail dtb trace spike_dtb set_spike_dtb
      rv_insns_per_tick rv_rom_base rv_rom_size].
    rewrite Hlen.
    split; [done|]. split; [done|]. split; [done|]. split; [done|].
    split; [done|]. split; [by split|]. by eexists.
  - injection Hret as <- <-. cbn [spike plat sail dtb trace spike_dtb
      rv_insns_per_tick rv_rom_base rv_rom_size].
    rewrite Hlen.
    split; [done|]. split; [done|]. split; [done|]. split; [done|].
    split; [apply Z.ltb_ge in Hlen; lia|]. split; [by split|]. by eexists.
Qed.


End StartupProperties.


(** * Start-up and boot together *)

Section StartupAndBoot.
Context {R S : Type} `{!SailModel R} `{!Spike S} `{!SpikeInit S} `{!Os}.

(** X21: [main] calls [init_spike] before [init_sail] so that Spike's
    device tree is at hand.  When the user named no device-tree file and
    [init_spike] has returned with the device tree [d] that Spike stored,
    [init_sail] returns with [d] in guest memory right behind the reset
    vector, with Spike as [init_spike] left it and with the tick period
    still Spike's. *)
Theorem spike_device_tree_in_rom (f : string) (base xlen entry ram_size : Z)
    (st st' : settings) (w w1 : world R S) :
  init_spike true f entry ram_size (st, w) = Returns tt (st', w1) ->
  dtb_given w = false ->
  0 < tv_get_dtb_len (spike w1) ->
  Forall is_byte (snd (tv_get_dtb (spike w1))) ->
  0 <= base ->
  base + 32 + Z.of_nat (length (snd (tv_get_dtb (spike w1)))) + 0x1000 <= 2 ^ 31 ->
  exists w2,
    init_sail true base xlen entry w1 = Ret w2
    /\ mem_holds (mem (sail w2)) base
         (reset_vec_bytes xlen entry ++ snd (tv_get_dtb (spike w1)))
    /\ zPC (sail w2) = base
    /\ spike w2 = spike w1
    /\ rv_insns_per_tick (plat w2) = tv_get_insns_per_tick (spike w2).
Proof.
  intros Hinit Hnone Hlen Hbytes Hb Hsz.
  rewrite init_spike_checks in Hinit. cbv zeta in Hinit.
  set (s0 := tv_init "RV64IMAC" ram_size 1) in *.
  destruct (disagreements s0 st); [|discriminate].
  assert (Hw1 : spike_dtb w1 = Some (snd (tv_get_dtb (spike w1)))
                /\ dtb w1 = dtb w
                /\ rv_insns_per_tick (plat w1) = tv_get_insns_per_tick (spike w1)).
  { destruct (0 <? tv_get_dtb_len (loaded_spike s0 f)) eqn:Hl.
    - destruct (fst (tv_get_dtb (loaded_spike s0 f)) =? 0); [|discriminate].
      injection Hinit as <- <-. done.
    - injection Hinit as <- <-. cbn [spike] in Hlen.
      apply Z.ltb_ge in Hl. lia. }
  destruct Hw1 as (Hsd & Hd & Hipt). clear Hinit.
  set (d := snd (tv_get_dtb (spike w1))) in *.
  unfold init_sail.
  set (w1' := set_sail _ w1).
  assert (Hg : dtb_given w1' = false).
  { revert Hnone. unfold dtb_given, dtb_len. subst w1'. cbn [dtb set_sail].
    by rewrite Hd. }
  assert (Hrom : rom_dtb true w1' = d).
  { unfold rom_dtb. rewrite Hg. cbn [andb]. unfold spike_dtb_len.
    subst w1'. cbn [spike_dtb set_sail]. rewrite Hsd. cbn [buffer].
    destruct d as [|x d']; reflexivity. }
  destruct (place_rom_image_ret true base xlen entry w1' Hb)
    as (c & Hret & I & _).
  { rewrite Hrom. lia. }
  { by rewrite Hrom. }
  { intros _ Hyes. rewrite Hg in Hyes. discriminate. }
  rewrite Hrom in I.
  unfold init_sail_reset_vector. rewrite Hret. eexists. split; [reflexivity|].
  set (w1'' := set_plat _ w1') in I.
  destruct (pad_rom_spec c w1'' base _ I eq_refl Hb)
    as (Hm & _ & _ & Hi & Hpc & Hsp & _).
  { rewrite length_app, reset_vec_bytes_length. lia. }
  split; [|split; [exact Hpc|split; [exact Hsp|]]].
  - apply mem_holds_app in Hm. exact (proj1 Hm).
  - rewrite Hi, Hsp. exact Hipt.
Qed.

End StartupAndBoot.



(** * The properties on concrete runs *)

Lemma toy_oracle_holds (s : toy_spike) : oracle_holds s (o_regs s).
Proof. by repeat split. Qed.

(** C1, as stated, fails: the solo run of a program that reports the exit
    code 3 prints FAILURE: 3 and the process exits with status 0. *)
Lemma solo_exit_status_counterexample :
  exists w',
    run_sail false 3 failing_program_world = Some (0, w')
    /\ zhtif_done (sail w') = true
    /\ zhtif_exit_code (sail w') = 3
    /\ In (Print (FAILURE 3)) (trace w')
    /\ ~ (0 = 0 <-> zhtif_exit_code (sail w') = 0).
Proof.
  eexists. split; [vm_compute; reflexivity|].
  split; [reflexivity|]. split; [reflexivity|].
  split; [cbn; tauto|]. cbn. intros [H _]. by specialize (H eq_refl).
Qed.

Lemma solo_run_exit_status_witness :
  exists ec w',
    run_sail false 3 failing_program_world = Some (ec, w') /\ ec = 0.
Proof.
  eexists _, _. split.
  - vm_compute. reflexivity.
  - eapply (solo_run_exit_status 3 failing_program_world).
    vm_compute. reflexivity.
Defined.

(** C2, as stated, fails: the run whose second Sail step raises an
    exception ends with exit status 0, with the oracle and without. *)
Lemma step_exception_counterexample :
  (exists w',
     run_sail true 3 faulting_world = Some (0, w')
     /\ have_exception (sail w') = true)
  /\ (exists w',
        run_sail false 3 faulting_world = Some (0, w')
        /\ have_exception (sail w') = true).
Proof.
  split; eexists; (split; [vm_compute; reflexivity|reflexivity]).
Qed.

Lemma step_exception_stops_run_witness :
  exists w',
    run_sail true 2 faulting_world = Some (0, w')
    /\ count is_step (trace w') = 3.
Proof.
  edestruct (step_exception_stops_run true 1 2 faulting_world)
    as (w' & Hrun & Htr & _ & _).
  - vm_compute. reflexivity.
  - vm_compute. reflexivity.
  - vm_compute. reflexivity.
  - lia.
  - exists w'. split; [exact Hrun|]. rewrite Htr. vm_compute. reflexivity.
Defined.

(** C3, as stated, fails: of the eight CSRs it names, [sstatus] is not
    among the checks of [compare_states]. *)
Lemma supervisor_status_counterexample :
  ~ (forall csrno,
       In csrno [ CSR_MCAUSE; CSR_MEPC; CSR_MTVAL; CSR_MSTATUS;
                  CSR_SCAUSE; CSR_SEPC; CSR_STVAL; CSR_SSTATUS ] ->
       exists v ok,
         In (TvCheck (CheckCsr csrno v) ok)
           (snd (compare_states true (spike skewed_world) (sail skewed_world)))).
Proof.
  intros H. destruct (H CSR_SSTATUS) as (v & ok & Hin); [cbn; tauto|].
  vm_compute in Hin.
  repeat (destruct Hin as [Heq | Hin]; [discriminate Heq|]). destruct Hin.
Qed.

Lemma compare_states_privilege_skew_witness :
  hd_error (snd (compare_states true (spike skewed_world) (sail skewed_world)))
    = Some (TvCheck (CheckPriv 3) true)
  /\ tv_check_priv (spike skewed_world) (zcur_privilege (sail skewed_world)) = false
  /\ fst (compare_states true (spike skewed_world) (sail skewed_world)) = 1.
Proof.
  apply (compare_states_privilege_skew (spike skewed_world)
           (o_regs (spike skewed_world)) (sail skewed_world));
    try reflexivity.
  apply toy_oracle_holds.
Defined.

Lemma completion_mismatch_is_fatal_witness :
  exists w',
    run_sail true 2 early_finish_world = Some (1, w')
    /\ List.last (trace w') FlushLogs = Print (SailDoneNotSpike 0).
Proof.
  edestruct (completion_mismatch_is_fatal 1 2 early_finish_world)
    as (w' & Hrun & Htr).
  - vm_compute. reflexivity.
  - vm_compute. reflexivity.
  - vm_compute. reflexivity.
  - vm_compute. discriminate.
  - lia.
  - exists w'. split; [exact Hrun|]. rewrite Htr. vm_compute. reflexivity.
Defined.

Lemma ticks_once_per_period_witness :
  let ipt := rv_insns_per_tick (plat ticking_world) in
  match run_loop true 6 0 0 ticking_world with
  | Running _ insn_cnt w =>
      0 <= insn_cnt < ipt /\ tick_accounting true ipt ticking_world w insn_cnt
  | Stopped _ w =>
      exists insn_cnt,
        0 <= insn_cnt <= ipt /\ tick_accounting true ipt ticking_world w insn_cnt
  end.
Proof.
  destruct (ticks_once_per_period true 6 ticking_world) as [_ H].
  - change (0 < 2 <= 2 ^ 31 - 1). lia.
  - exact H.
Defined.

Lemma boot_image_layout_witness :
  exists w',
    init_sail_reset_vector false 0x1000 64 0x80000000 booting_world = Ret w'
    /\ read32 (mem (sail w')) 0x1018 = 0x80000000
    /\ read32 (mem (sail w')) 0x101c = 0
    /\ mem_holds (mem (sail w')) 0x1020 [0xd0; 0x0d; 0xfe; 0xed]
    /\ rv_rom_size (plat w') = 0x1000
    /\ zPC (sail w') = 0x1000.
Proof.
  destruct (boot_image_layout false 0x1000 64 0x80000000 booting_world)
    as (w' & Hret & _ & _ & Hlo & Hhi & _ & Hd & _ & _ & _ & _ & Hsz & Hpc).
  - lia.
  - lia.
  - vm_compute. discriminate.
  - repeat constructor; unfold is_byte; lia.
  - discriminate.
  - exists w'. split; [exact Hret|]. split; [exact Hlo|]. split; [exact Hhi|].
    split; [exact Hd|]. split; [exact Hsz|exact Hpc].
Defined.

Lemma dtb_mismatch_is_fatal_witness :
  exists w',
    main_from_init_sail true 0x1000 64 0x80000000 5 dtb_clash_world = Some (1, w')
    /\ trace w' = [Print DtbMismatch].
Proof.
  destruct (dtb_mismatch_is_fatal 0x1000 64 0x80000000 5 dtb_clash_world
              [0xd0; 0x0d; 0xfe; 0xed] [0xd0; 0x0d; 0xfe; 0xee])
    as (w' & Hrun & Htr & _).
  - reflexivity.
  - discriminate.
  - reflexivity.
  - discriminate.
  - exists w'. split; [exact Hrun|exact Htr].
Defined.

Lemma dtb_mismatch_after_writes_witness :
  exists w',
    init_sail_reset_vector true 0x1000 64 0x80000000 dtb_clash_world = Exited 1 w'
    /\ mem_holds (mem (sail w')) 0x1020 [0xd0; 0x0d; 0xfe; 0xed].
Proof.
  destruct (dtb_mismatch_after_writes 0x1000 64 0x80000000 dtb_clash_world
              [0xd0; 0x0d; 0xfe; 0xed] [0xd0; 0x0d; 0xfe; 0xee])
    as (w' & Hrun & _ & Hu & _).
  - reflexivity.
  - discriminate.
  - reflexivity.
  - discriminate.
  - lia.
  - cbn. lia.
  - repeat constructor; unfold is_byte; lia.
  - exists w'. split; [exact Hrun|exact Hu].
Defined.

(** ** The further properties on concrete runs *)

Lemma compare_states_sound_and_complete_witness :
  fst (compare_states true (spike skewed_world) (sail skewed_world)) = 1
  <-> same_compared_state (sail skewed_world) (o_regs (spike skewed_world)).
Proof.
  apply (compare_states_sound_and_complete (spike skewed_world)
           (o_regs (spike skewed_world)) (sail skewed_world)).
  apply toy_oracle_holds.
Defined.

Lemma run_sail_exit_status_witness :
  exists ec w',
    run_sail true 2 early_finish_world = Some (ec, w')
    /\ (ec = 0 \/ (ec = 1 /\ true = true)).
Proof.
  eexists _, _. split.
  - vm_compute. reflexivity.
  - eapply (run_sail_exit_status true 2 early_finish_world).
    vm_compute. reflexivity.
Defined.

Lemma divergence_stops_run_witness :
  exists w',
    run_sail true 2 diverging_world = Some (1, w')
    /\ In (TvCheck (CheckPriv 1) false) (trace w')
    /\ List.last (trace w') FlushLogs = TvFree.
Proof.
  edestruct (divergence_stops_run 0 2 diverging_world) as (w' & Hrun & Htr).
  - vm_compute. reflexivity.
  - vm_compute. reflexivity.
  - vm_compute. reflexivity.
  - vm_compute. reflexivity.
  - vm_compute. reflexivity.
  - lia.
  - exists w'. split; [exact Hrun|]. rewrite Htr. split.
    + vm_compute. tauto.
    + vm_compute. reflexivity.
Defined.

Lemma step_no_counts_retired_witness :
  exists step_no insn_cnt w,
    run_loop true 3 0 0 ticking_world = Running step_no insn_cnt w
    /\ step_no = delta is_retired ticking_world w
    /\ 0 <= step_no <= 3.
Proof.
  eexists _, _, _. split.
  - vm_compute. reflexivity.
  - eapply (step_no_counts_retired true 3 ticking_world).
    + vm_compute. reflexivity.
    + vm_compute. reflexivity.
Defined.


Lemma rom_size_whole_pages_witness :
  exists w',
    init_sail_reset_vector false 0x1000 64 0x80000000 booting_world = Ret w'
    /\ rv_rom_size (plat w') mod 0x1000 = 0
    /\ 0x1000 <= rv_rom_size (plat w').
Proof.
  destruct (rom_size_whole_pages false 0x1000 64 0x80000000 booting_world)
    as (w' & Hret & Hmod & Hmin & _).
  - lia.
  - reflexivity.
  - vm_compute. discriminate.
  - repeat constructor; unfold is_byte; lia.
  - discriminate.
  - exists w'. split; [exact Hret|]. split; [exact Hmod|exact Hmin].
Defined.

Lemma empty_user_dtb_is_ignored_witness :
  exists w',
    init_sail_reset_vector true 0x1000 64 0x80000000 empty_dtb_world = Ret w'
    /\ mem_holds (mem (sail w')) 0x1020 toy_dtb
    /\ trace w' = [].
Proof.
  destruct (empty_user_dtb_is_ignored 0x1000 64 0x80000000 empty_dtb_world toy_dtb)
    as (w' & Hret & Hm & Htr).
  - reflexivity.
  - reflexivity.
  - discriminate.
  - lia.
  - vm_compute. discriminate.
  - repeat constructor; unfold is_byte; lia.
  - exists w'. split; [exact Hret|]. split; [exact Hm|exact Htr].
Defined.

Lemma misa_mismatch_is_fatal_witness :
  exists w',
    main_from_init_sail true 0xfc0 64 0x80000000 5 misa_clash_world = Some (1, w')
    /\ List.last (trace w') FlushLogs = TvFree
    /\ count is_step (trace w') = 0.
Proof.
  edestruct (misa_mismatch_is_fatal 0xfc0 64 0x80000000 5 misa_clash_world)
    as (w' & Hrun & Htr & _).
  - vm_compute. reflexivity.
  - apply toy_oracle_holds.
  - vm_compute. discriminate.
  - exists w'. split; [exact Hrun|]. rewrite Htr. split; vm_compute; reflexivity.
Defined.

Lemma process_args_returns_witness :
  exists file st' w',
    process_args false toy_atol ["sim"; "-d"; "-z"; "64"; "prog.elf"]
      [GetoptRet (chr "d") "" None; GetoptRet (chr "z") "64" None] 4
      (initial_settings, initial_world) = Returns file (st', w')
    /\ file = Some "prog.elf"
    /\ rv_mtval_has_illegal_inst_bits st' = false
    /\ is_Some (term_log st').
Proof.
  eexists _, _, _. split; [vm_compute; reflexivity|].
  edestruct (process_args_returns (R := list toy_insn) (S := toy_spike)
               toy_atol false
               ["sim"; "-d"; "-z"; "64"; "prog.elf"]
               [GetoptRet (chr "d") "" None; GetoptRet (chr "z") "64" None] 4
               initial_settings) with (w := initial_world)
    as (_ & _ & Hmt & Hlog & Hfile & _).
  - repeat constructor; vm_compute; discriminate.
  - reflexivity.
  - vm_compute. reflexivity.
  - split; [exact Hfile|]. split; [exact Hmt|exact Hlog].
Defined.

Lemma illegal_inst_bits_option_dumps_dts_witness :
  exists st',
    process_args true toy_atol ["sim"; "--mtval-has-illegal-inst-bits"; "prog.elf"]
      [GetoptRet (chr "i") "" (Some 3)] 2 (initial_settings, initial_world)
    = Exits 0 (snd (dump_dts true st'), initial_world).
Proof.
  destruct (illegal_inst_bits_option_dumps_dts toy_atol true
              ["sim"; "--mtval-has-illegal-inst-bits"; "prog.elf"]
              [GetoptRet (chr "i") "" (Some 3)] 2 initial_settings initial_world)
    as (st' & _ & Hexit).
  - constructor; [|constructor]. do 2 right. left. reflexivity.
  - left. reflexivity.
  - exists st'. exact Hexit.
Defined.

(** With [--terminal-log=t.log prog.elf], [getopt_long] leaves 6, the
    index of the option in the table, in [idx]: the file operand is there
    and the usage is printed all the same. *)
Lemma missing_file_check_uses_long_index_witness :
  exists st',
    process_args false toy_atol ["sim"; "--terminal-log=t.log"; "prog.elf"]
      [GetoptRet (chr "t") "t.log" (Some 6)] 2 (initial_settings, initial_world)
    = Exits 0 (snd (print_usage (Some "sim") 0 st'), initial_world).
Proof.
  destruct (missing_file_check_uses_long_index toy_atol false
              ["sim"; "--terminal-log=t.log"; "prog.elf"]
              [GetoptRet (chr "t") "t.log" (Some 6)] 2
              initial_settings initial_world)
    as (st' & _ & Hexit).
  - constructor; [|constructor]. do 3 right. left. reflexivity.
  - reflexivity.
  - reflexivity.
  - exists st'. exact Hexit.
Defined.

Lemma ram_size_in_mebibytes_witness :
  exists file st' w',
    process_args false toy_atol ["sim"; "-z"; "2048"; "prog.elf"]
      [GetoptRet (chr "z") "2048" None] 3 (initial_settings, initial_world)
    = Returns file (st', w')
    /\ (rv_ram_size st' = rv_ram_size initial_settings
        \/ rv_ram_size st' mod 2 ^ 20 = 0).
Proof.
  eexists _, _, _. split; [vm_compute; reflexivity|].
  edestruct (ram_size_in_mebibytes (R := list toy_insn) (S := toy_spike)
               toy_atol false
               ["sim"; "-z"; "2048"; "prog.elf"]
               [GetoptRet (chr "z") "2048" None] 3 initial_settings)
    with (w := initial_world)
    as [Hsame|(g & _ & _ & _ & _ & Hmod & _)].
  - repeat constructor; vm_compute; discriminate.
  - vm_compute. reflexivity.
  - left. exact Hsame.
  - right. exact Hmod.
Defined.

(** [-v] is in the option string of [getopt_long] and has no case in the
    [switch]. *)
Lemma process_args_exit_status_witness :
  exists ec c,
    process_args false toy_atol ["sim"; "-v"; "1"; "prog.elf"]
      [GetoptRet (chr "v") "1" None] 3 (initial_settings, initial_world)
    = Exits ec c
    /\ (ec = 0 \/ ec = 1).
Proof.
  eexists _, _. split; [vm_compute; reflexivity|].
  eapply (process_args_exit_status (R := list toy_insn) (S := toy_spike)
            toy_atol false
            ["sim"; "-v"; "1"; "prog.elf"]
            [GetoptRet (chr "v") "1" None] 3)
    with (st := initial_settings) (w := initial_world).
  vm_compute. reflexivity.
Defined.

Lemma init_spike_reports_every_mismatch_witness :
  exists st',
    init_spike true "prog.elf" 0x80000000 0x80000000
      (Settings true false false 0x80000000 false (Some "term.log") None [],
       initial_world)
    = Exits 1 (st', World (plat initial_world) (sail initial_world)
                      (tv_init "RV64IMAC" 0x80000000 1)
                      (dtb initial_world) (spike_dtb initial_world)
                      (trace initial_world))
    /\ console st' = [InconsistentDirty false true;
                      InconsistentRamSize 0x4000000 0x80000000].
Proof.
  destruct (init_spike_reports_every_mismatch (R := list toy_insn)
              "prog.elf" 0x80000000 0x80000000
              (Settings true false false 0x80000000 false (Some "term.log") None [])
              initial_world)
    as (st' & Hexit & _ & Hcon).
  - vm_compute. discriminate.
  - exists st'. split; [exact Hexit|exact Hcon].
Defined.

Lemma init_spike_returns_witness :
  exists st' w',
    init_spike true "prog.elf" 0x80000000 0x4000000
      (initial_settings, initial_world) = Returns tt (st', w')
    /\ rv_insns_per_tick (plat w') = tv_get_insns_per_tick (spike w')
    /\ tv_ram_size (tv_init "RV64IMAC" 0x4000000 1) = rv_ram_size initial_settings.
Proof.
  eexists _, _. split; [vm_compute; reflexivity|].
  edestruct (init_spike_returns (R := list toy_insn) (S := toy_spike)
               "prog.elf" 0x80000000 0x4000000 initial_settings)
    with (w := initial_world) as (_ & _ & Hram & _ & Hipt & _).
  - vm_compute. reflexivity.
  - split; [exact Hipt|exact Hram].
Defined.

Lemma spike_device_tree_in_rom_witness :
  exists w2,
    init_sail true 0x1000 64 0x80000000
      (World (Platform 0 0 100) (sail initial_world)
         (ToySpike (zero_snapshot 3) false [false; true])
         None (Some toy_dtb) [])
    = Ret w2
    /\ mem_holds (mem (sail w2)) 0x1000 (reset_vec_bytes 64 0x80000000 ++ toy_dtb).
Proof.
  edestruct (spike_device_tree_in_rom (R := list toy_insn) (S := toy_spike)
               "prog.elf" 0x1000 64 0x80000000 0x4000000 initial_settings)
    with (w := initial_world) as (w2 & Hret & Hm & _).
  - vm_compute. reflexivity.
  - reflexivity.
  - vm_compute. reflexivity.
  - repeat constructor; unfold is_byte; vm_compute; intuition discriminate.
  - lia.
  - vm_compute. discriminate.
  - exists w2. split; [exact Hret|exact Hm].
Defined.

(** With the oracle too, the run of a program that reports the exit code
    3 prints FAILURE: 3 and the process exits with status 0. *)
Lemma agreed_completion_exits_0_witness :
  exists w',
    run_sail true 3 failing_cosim_world = Some (0, w')
    /\ In (Print (FAILURE 3)) (trace w').
Proof.
  edestruct (agreed_completion_exits_0 true 1 3 failing_cosim_world)
    as (w' & Hrun & Htr).
  - vm_compute. reflexivity.
  - vm_compute. reflexivity.
  - vm_compute. reflexivity.
  - vm_compute. reflexivity.
  - intros _. split; vm_compute; [reflexivity|discriminate].
  - intros p m Hm. exact Hm.
  - lia.
  - exists w'. split; [exact Hrun|]. rewrite Htr. vm_compute. tauto.
Defined.
